(** * Browser title-card video creator: the render orchestrator

    A shallow embedding of the [VideoCreator] component
    (components/VideoCreator.tsx): its React state, the [reset] and
    [generateVideo] callbacks, the [onSubmit] handler and the two form
    buttons, together with the parts of the ECMAScript library they use;
    then the rest of the form ([onConfigChange], the audio input, the
    aspect-ratio label, the progress bar) and the [useFFmpeg] hook
    (hooks/useFFmpeg.ts) that loads the encoder, and sessions of user
    actions at the page.

    Conventions.
    - A JavaScript [number] is a rational ([Q]).  Integral values below
      2^53 behave exactly as in the engine.  The product that gives the
      number of frames is rounded to binary64 as the engine rounds it
      ([JS.times]); the progress percentages are computed on the exact
      quotient, which the engine's rounded one can miss by one unit at a
      rounding boundary, their order and bounds being the same.  NaN and
      the infinities are not represented; the aspect-ratio label, the one
      place where the component divides by a number that can be zero,
      spells them out.
    - A JavaScript string is a [string]; ['.'] and all the literals of the
      component are single code units.
    - An [async] function is a state transformer over the [World] that also
      returns the list of effects it performed and either a value or the
      thrown exception.  A render is not awaited by the page: the edits
      of the form made while it runs are woven between its effects
      ([generateVideo_amid], [live_session]). *)

From Stdlib Require Import ZArith QArith Qround Lqa String Ascii List Bool Lia.
From Stdlib Require Import DecimalString DecimalZ Sorted.
Import ListNotations.

Local Open Scope string_scope.
Local Open Scope Z_scope.

(* ================================================================== *)
(** * The ECMAScript library functions the component calls *)
(* ================================================================== *)

Module JS.

(** [s.includes(sub)] *)
Fixpoint includes (s sub : string) : bool :=
  prefix sub s ||
  match s with
  | EmptyString => false
  | String _ rest => includes rest sub
  end.

(** [s.lastIndexOf(sub)], scanning a suffix of the receiver that starts
    at offset [pos]; [-1] when there is no occurrence. *)
Fixpoint lastIndexOf_from (pos : Z) (s sub : string) : Z :=
  let here := if prefix sub s then pos else -1 in
  match s with
  | EmptyString => here
  | String _ rest =>
      let later := lastIndexOf_from (pos + 1) rest sub in
      if 0 <=? later then later else here
  end.

Definition lastIndexOf (s sub : string) : Z := lastIndexOf_from 0 s sub.

Fixpoint drop (n : nat) (s : string) : string :=
  match n, s with
  | O, _ => s
  | S _, EmptyString => EmptyString
  | S k, String _ rest => drop k rest
  end.

(** [s.slice(start)]: a negative [start] counts from the end. *)
Definition slice (s : string) (start : Z) : string :=
  let len := Z.of_nat (String.length s) in
  let from := if start <? 0 then Z.max (len + start) 0 else Z.min start len in
  drop (Z.to_nat from) s.

(** [n] code units taken from [pad], cycling through it. *)
Fixpoint cycle (n : nat) (pad rest : string) : string :=
  match n with
  | O => EmptyString
  | S k =>
      match rest with
      | String c r => String c (cycle k pad r)
      | EmptyString =>
          match pad with
          | String c r => String c (cycle k pad r)
          | EmptyString => EmptyString
          end
      end
  end.

(** [s.padStart(targetLength, padString)] *)
Definition padStart (s : string) (targetLength : nat) (padString : string) : string :=
  if (targetLength <=? String.length s)%nat then s
  else cycle (targetLength - String.length s) padString padString ++ s.

(** [Math.floor] *)
Definition Math_floor (x : Q) : Z := Qfloor x.

(** [Math.round]: the nearest integer, ties towards +infinity. *)
Definition Math_round (x : Q) : Z := Qfloor (x + (1 # 2)).

(** ** Binary floating point

    The numbers of the engine are the binary64 values.  [binary64 x] is
    the one nearest to [x], ties to the even significand; below the
    normal range the spacing is that of the subnormal numbers.  A result
    beyond the largest finite value (an infinity in the engine) is not
    represented. *)

(** The integer nearest to [a / b], for [b > 0]; ties to the even one. *)
Definition nearest_even (a b : Z) : Z :=
  let q := a / b in
  let r := a mod b in
  if 2 * r <? b then q
  else if b <? 2 * r then q + 1
  else if Z.even q then q else q + 1.

(** [n / d] multiplied by [2 ^ k], as a fraction. *)
Definition scaled (n d k : Z) : Z * Z :=
  if 0 <=? k then (n * 2 ^ k, d) else (n, d * 2 ^ (- k)).

(** The exponent [e] with [2 ^ e <= n / d < 2 ^ (e + 1)], for [n, d > 0]. *)
Definition binade (n d : Z) : Z :=
  let e0 := Z.log2 n - Z.log2 d in
  let (a, b) := scaled n d (- e0) in
  if b <=? a then e0 else e0 - 1.

Definition binary64 (x : Q) : Q :=
  let x := Qred x in
  let n := Z.abs (Qnum x) in
  let d := QDen x in
  if n =? 0 then 0%Q
  else
    let p := Z.max (binade n d - 52) (-1074) in
    let (a, b) := scaled n d (- p) in
    let m := Z.sgn (Qnum x) * nearest_even a b in
    if 0 <=? p then inject_Z (m * 2 ^ p) else Qmake m (Z.to_pos (2 ^ (- p))).

(** [a * b]: the operands are the numbers the engine holds, the product
    is rounded once. *)
Definition times (a b : Q) : Q := binary64 (binary64 a * binary64 b).

(** [if (v) { yes(v) } else { no }] on a [string | null] value: [null]
    and the empty string are falsy, and [v] is a string in the first
    branch. *)
Definition if_truthy {A : Type} (v : option string) (yes : string -> A) (no : A) : A :=
  match v with
  | None => no
  | Some EmptyString => no
  | Some (String c r) => yes (String c r)
  end.

(** Decimal digits of an integer.  [String(n)] prints these for a whole
    number of magnitude below 2^53; from there to 10^21 the engine prints
    the shortest digits that read back as the same number, which need not
    be these. *)
Definition digits (z : Z) : string := NilZero.string_of_int (Z.to_int z).

Definition is_plain_integer (x : Q) : bool :=
  Qeq_bool x (inject_Z (Qfloor x)) && (Z.abs (Qfloor x) <? 10 ^ 21).

End JS.

(* ================================================================== *)
(** * Data model *)
(* ================================================================== *)

Definition Bytes := list Byte.byte.

(** types/video.ts *)
Inductive Background := gradient | solid.
Inductive Animation := slide | scale | fade.

Record VideoConfig := {
  width : Q;
  height : Q;
  duration : Q;
  fps : Q;
  title : string;
  subtitle : string;
  background : Background;
  gradientStart : string;
  gradientEnd : string;
  backgroundColor : string;
  textColor : string;
  accentColor : string;
  fontSize : Q;
  subtitleSize : Q;
  animation : Animation
}.

Definition defaultConfig : VideoConfig := {|
  width := 1080;
  height := 1920;
  duration := 6;
  fps := 30;
  title := "Dream Big";
  subtitle := "Create high-impact clips without leaving your browser.";
  background := gradient;
  gradientStart := "#0f172a";
  gradientEnd := "#6366f1";
  backgroundColor := "#0f172a";
  textColor := "#f8fafc";
  accentColor := "#22d3ee";
  fontSize := 86;
  subtitleSize := 32;
  animation := slide
|}.

(** A DOM [Blob], and a [File] (a blob with a name). *)
Record Blob := { blob_type : string; blob_data : Bytes }.
Record File := { name : string; file_blob : Blob }.

(** What [ffmpeg.readFile] resolves to: [Uint8Array | string]. *)
Inductive FileData := U8 (b : Bytes) | Text (s : string).

(** [new TextEncoder().encode(s)] *)
Definition TextEncoder_encode (s : string) : Bytes := list_byte_of_string s.

(** An object URL handed out by [URL.createObjectURL].  The browser mints
    a fresh non-empty string per call; only its identity matters here. *)
Inductive ObjectURL := blob_url (id : nat).

Definition ObjectURL_eqb (a b : ObjectURL) : bool :=
  match a, b with blob_url i, blob_url j => Nat.eqb i j end.

(** The browser's store of live object URLs. *)
Record Registry := { next_id : nat; live : list ObjectURL }.

(** A thrown JavaScript value: an [Error] carrying a message, or anything
    else. *)
Inductive Exn := ErrorObject (message : string) | OtherValue.

Inductive Outcome (A : Type) := Returned (a : A) | Thrown (e : Exn).
Arguments Returned {A} a.
Arguments Thrown {A} e.

(** The React state of [VideoCreator] ([useState] cells and the
    [retryCount] ref). *)
Record State := {
  config : VideoConfig;
  audioFile : option File;
  previewUrl : option ObjectURL;
  status : string;
  progress : option Z;
  isGenerating : bool;
  error : option string;
  retryCount : Z
}.

Definition initialState : State := {|
  config := defaultConfig;
  audioFile := None;
  previewUrl := None;
  status := "Idle";
  progress := None;
  isGenerating := false;
  error := None;
  retryCount := 0
|}.

(** Observable effects, in the order they happen. *)
Inductive Event :=
| SetConfig (c : VideoConfig)
| SetAudioFile (f : option File)
| SetPreviewUrl (u : option ObjectURL)
| SetStatus (s : string)
| SetProgress (p : option Z)
| SetIsGenerating (b : bool)
| SetError (e : option string)
| SetRetryCount (n : Z)
| DeleteFile (path : string)
| WriteFile (path : string) (data : Bytes)
| ReadFile (path : string)
| Exec (argv : list string)
| OnFrame (index : Z)
| CreateObjectURL (u : ObjectURL)
| RevokeObjectURL (u : ObjectURL).

(** ** The collaborators of the component

    [Encoder] is the state of the [FFmpeg] instance (its virtual file
    system included); each of its methods may change it and either
    resolves or rejects.  [fetchFile] is the helper of [@ffmpeg/util];
    [checkConfig] is the frame renderer's check of a configuration and
    [renderFrame] its rasterisation of one frame, a pure function, both
    for the frame sequencer (see [generateFrames] below);
    [toString_other] prints the numbers that are not plain integers. *)
Class Runtime := {
  Encoder : Type;
  ffmpeg_deleteFile : string -> Encoder -> Encoder * Outcome unit;
  ffmpeg_writeFile : string -> Bytes -> Encoder -> Encoder * Outcome unit;
  ffmpeg_readFile : string -> Encoder -> Encoder * Outcome FileData;
  ffmpeg_exec : list string -> Encoder -> Encoder * Outcome Z;
  fetchFile : Blob -> Outcome Bytes;
  checkConfig : VideoConfig -> Outcome unit;
  renderFrame : VideoConfig -> Z -> Z -> Blob;
  toString_other : Q -> string
}.

(* ================================================================== *)
(** * Asynchronous computations *)
(* ================================================================== *)

Section Component.

Context {rt : Runtime}.

(** Everything a callback of the component can read or change: the React
    state, the value returned by the [useFFmpeg] hook, and the browser's
    object-URL store. *)
Record World := {
  ui : State;
  ffmpeg : option Encoder;
  ready : bool;
  loading : bool;
  registry : Registry
}.

Record Run (A : Type) := {
  after : World;
  emitted : list Event;
  outcome : Outcome A
}.
Arguments after {A} r.
Arguments emitted {A} r.
Arguments outcome {A} r.

Definition Async (A : Type) : Type := World -> Run A.

Definition ret {A} (a : A) : Async A :=
  fun w => {| after := w; emitted := []; outcome := Returned a |}.

Definition throw {A} (e : Exn) : Async A :=
  fun w => {| after := w; emitted := []; outcome := Thrown e |}.

Definition bind {A B} (m : Async A) (k : A -> Async B) : Async B :=
  fun w =>
    let r := m w in
    match outcome r with
    | Returned a =>
        let r' := k a (after r) in
        {| after := after r'; emitted := emitted r ++ emitted r'; outcome := outcome r' |}
    | Thrown e =>
        {| after := after r; emitted := emitted r; outcome := Thrown e |}
    end.

(** [try { m } catch (err) { h err }] *)
Definition try_catch {A} (m : Async A) (h : Exn -> Async A) : Async A :=
  fun w =>
    let r := m w in
    match outcome r with
    | Returned _ => r
    | Thrown e =>
        let r' := h e (after r) in
        {| after := after r'; emitted := emitted r ++ emitted r'; outcome := outcome r' |}
    end.

(** [try { m } finally { f }]: the completion of [m] is kept unless [f]
    itself throws. *)
Definition try_finally {A} (m : Async A) (f : Async unit) : Async A :=
  fun w =>
    let r := m w in
    let r' := f (after r) in
    {| after := after r';
       emitted := emitted r ++ emitted r';
       outcome := match outcome r' with
                  | Returned _ => outcome r
                  | Thrown e => Thrown e
                  end |}.

(** [try { await m } catch { /* noop */ }] *)
Definition swallow (m : Async unit) : Async unit :=
  try_catch m (fun _ => ret tt).

Definition of_outcome {A} (o : Outcome A) : Async A :=
  fun w => {| after := w; emitted := []; outcome := o |}.

Definition emit (ev : Event) : Async unit :=
  fun w => {| after := w; emitted := [ev]; outcome := Returned tt |}.

End Component.

Arguments after {rt A} r.
Arguments emitted {rt A} r.
Arguments outcome {rt A} r.

Declare Scope async_scope.
Delimit Scope async_scope with async.
Notation "x <- m ;; k" := (bind m (fun x => k))
  (at level 61, m at next level, right associativity) : async_scope.
Notation "m ;; k" := (bind m (fun _ => k))
  (at level 61, right associativity) : async_scope.
Local Open Scope async_scope.

Section Loops.

Context {rt : Runtime}.

(** [for (let i = start; i < bound; i += 1) { await body(i) }].  The
    guard is tested before every iteration; [fuel] bounds the number of
    iterations. *)
Fixpoint for_from (fuel : nat) (i bound : Z) (body : Z -> Async unit) : Async unit :=
  match fuel with
  | O => ret tt
  | S fuel' =>
      if i <? bound
      then body i ;; for_from fuel' (i + 1) bound body
      else ret tt
  end.

(** The loop from [0]; [bound] iterations always exhaust it. *)
Definition for_upto (bound : Z) (body : Z -> Async unit) : Async unit :=
  for_from (Z.to_nat bound) 0 bound body.

End Loops.

(* ================================================================== *)
(** * The [VideoCreator] component *)
(* ================================================================== *)

Section VideoCreator.

Context {rt : Runtime}.

Definition with_ui (f : State -> State) (w : World) : World :=
  {| ui := f (ui w); ffmpeg := ffmpeg w; ready := ready w;
     loading := loading w; registry := registry w |}.

Definition with_ffmpeg (e : option Encoder) (w : World) : World :=
  {| ui := ui w; ffmpeg := e; ready := ready w;
     loading := loading w; registry := registry w |}.

Definition with_registry (g : Registry) (w : World) : World :=
  {| ui := ui w; ffmpeg := ffmpeg w; ready := ready w;
     loading := loading w; registry := g |}.

(** ** State setters *)

Definition State_config (c : VideoConfig) (s : State) : State :=
  {| config := c; audioFile := audioFile s; previewUrl := previewUrl s;
     status := status s; progress := progress s;
     isGenerating := isGenerating s; error := error s;
     retryCount := retryCount s |}.

Definition State_audioFile (f : option File) (s : State) : State :=
  {| config := config s; audioFile := f; previewUrl := previewUrl s;
     status := status s; progress := progress s;
     isGenerating := isGenerating s; error := error s;
     retryCount := retryCount s |}.

Definition State_previewUrl (u : option ObjectURL) (s : State) : State :=
  {| config := config s; audioFile := audioFile s; previewUrl := u;
     status := status s; progress := progress s;
     isGenerating := isGenerating s; error := error s;
     retryCount := retryCount s |}.

Definition State_status (t : string) (s : State) : State :=
  {| config := config s; audioFile := audioFile s; previewUrl := previewUrl s;
     status := t; progress := progress s;
     isGenerating := isGenerating s; error := error s;
     retryCount := retryCount s |}.

Definition State_progress (p : option Z) (s : State) : State :=
  {| config := config s; audioFile := audioFile s; previewUrl := previewUrl s;
     status := status s; progress := p;
     isGenerating := isGenerating s; error := error s;
     retryCount := retryCount s |}.

Definition State_isGenerating (b : bool) (s : State) : State :=
  {| config := config s; audioFile := audioFile s; previewUrl := previewUrl s;
     status := status s; progress := progress s;
     isGenerating := b; error := error s;
     retryCount := retryCount s |}.

Definition State_error (e : option string) (s : State) : State :=
  {| config := config s; audioFile := audioFile s; previewUrl := previewUrl s;
     status := status s; progress := progress s;
     isGenerating := isGenerating s; error := e;
     retryCount := retryCount s |}.

Definition State_retryCount (n : Z) (s : State) : State :=
  {| config := config s; audioFile := audioFile s; previewUrl := previewUrl s;
     status := status s; progress := progress s;
     isGenerating := isGenerating s; error := error s;
     retryCount := n |}.

(** A [useState] setter: the cell is replaced and the change is observable. *)
Definition set_state (ev : Event) (f : State -> State) : Async unit := fun w =>
  {| after := with_ui f w; emitted := [ev]; outcome := Returned tt |}.

Definition setConfig (c : VideoConfig) : Async unit :=
  set_state (SetConfig c) (State_config c).

Definition setAudioFile (f : option File) : Async unit :=
  set_state (SetAudioFile f) (State_audioFile f).

Definition setPreviewUrl (u : option ObjectURL) : Async unit :=
  set_state (SetPreviewUrl u) (State_previewUrl u).

Definition setStatus (t : string) : Async unit :=
  set_state (SetStatus t) (State_status t).

Definition setProgress (p : option Z) : Async unit :=
  set_state (SetProgress p) (State_progress p).

Definition setIsGenerating (b : bool) : Async unit :=
  set_state (SetIsGenerating b) (State_isGenerating b).

Definition setError (e : option string) : Async unit :=
  set_state (SetError e) (State_error e).

(** [retryCount.current = n] *)
Definition setRetryCount (n : Z) : Async unit :=
  set_state (SetRetryCount n) (State_retryCount n).

Definition get {A} (f : World -> A) : Async A := fun w =>
  {| after := w; emitted := []; outcome := Returned (f w) |}.

(** ** The browser's object URLs *)

(** [URL.createObjectURL(blob)] *)
Definition createObjectURL (b : Blob) : Async ObjectURL := fun w =>
  let g := registry w in
  let u := blob_url (next_id g) in
  {| after := with_registry {| next_id := S (next_id g); live := u :: live g |} w;
     emitted := [CreateObjectURL u];
     outcome := Returned u |}.

(** [URL.revokeObjectURL(u)] *)
Definition revokeObjectURL (u : ObjectURL) : Async unit := fun w =>
  let g := registry w in
  {| after := with_registry
       {| next_id := next_id g;
          live := filter (fun v => negb (ObjectURL_eqb v u)) (live g) |} w;
     emitted := [RevokeObjectURL u];
     outcome := Returned tt |}.

(** [setPreviewUrl((oldUrl) => ...)]: the updater receives the current
    value of the cell. *)
Definition setPreviewUrl_with (updater : option ObjectURL -> Async (option ObjectURL))
  : Async unit :=
  oldUrl <- get (fun w => previewUrl (ui w)) ;;
  newUrl <- updater oldUrl ;;
  setPreviewUrl newUrl.

(** ** Calls into the [FFmpeg] instance *)

Definition call {A} (ev : Event) (method : Encoder -> Encoder * Outcome A) : Async A :=
  fun w =>
    match ffmpeg w with
    | Some e =>
        let (e', o) := method e in
        {| after := with_ffmpeg (Some e') w; emitted := [ev]; outcome := o |}
    | None =>
        {| after := w; emitted := [];
           outcome := Thrown (ErrorObject "Cannot read properties of null") |}
    end.

Definition deleteFile (path : string) : Async unit :=
  call (DeleteFile path) (ffmpeg_deleteFile path).

Definition writeFile (path : string) (data : Bytes) : Async unit :=
  call (WriteFile path data) (ffmpeg_writeFile path data).

Definition readFile (path : string) : Async FileData :=
  call (ReadFile path) (ffmpeg_readFile path).

Definition exec (argv : list string) : Async Z :=
  call (Exec argv) (ffmpeg_exec argv).

(** ** Numbers as text *)

(** [String(x)] and [`${x}`] *)
Definition Number_toString (x : Q) : string :=
  if JS.is_plain_integer x then JS.digits (Qfloor x) else toString_other x.

(** ** The frame sequencer *)

(** Modelled from the spec: lib/generateFrames.ts is imported by the
    component but is not among the sources.  Following section 4.2 of the
    specification, the sequence is empty when [totalFrames <= 0], which
    is not an error, whatever the configuration; otherwise [onFrame] is
    invoked once per index, in the order [0 .. totalFrames - 1], each
    call awaited before the next frame is produced, and a failure of
    [onFrame] aborts the sequence and propagates.  Following section 4.1,
    the renderer is pure and deterministic ([renderFrame]), and a
    configuration it rejects (dimensions that are not positive, or an
    otherwise invalid configuration) fails once, before the first frame,
    not per frame ([checkConfig]). *)
Definition generateFrames (config : VideoConfig) (totalFrames padLength : Z)
    (onFrame : Z -> Blob -> Async unit) : Async unit :=
  if totalFrames <=? 0 then ret tt
  else
    of_outcome (checkConfig config) ;;
    for_upto totalFrames (fun index =>
      emit (OnFrame index) ;;
      onFrame index (renderFrame config index totalFrames)).

(** ** [reset] *)

Definition reset : Async unit :=
  setConfig defaultConfig ;;
  setAudioFile None ;;
  setPreviewUrl None ;;
  setStatus "Idle" ;;
  setProgress None ;;
  setError None ;;
  setRetryCount 0.

(** ** [generateVideo] *)

Definition padLength : Z := 5.

(** [Math.floor(config.duration * config.fps)] *)
Definition totalFrames (config : VideoConfig) : Z :=
  JS.Math_floor (JS.times (duration config) (fps config)).

Definition framePattern : string :=
  "frame_%0" ++ Number_toString (inject_Z padLength) ++ "d.png".

(** [`frame_${String(i).padStart(padLength, '0')}.png`] *)
Definition frameFileName (i : Z) : string :=
  "frame_" ++ JS.padStart (Number_toString (inject_Z i)) (Z.to_nat padLength) "0" ++ ".png".

Definition audioInputName (audioFile : option File) : option string :=
  match audioFile with
  | Some f =>
      Some ("audio_input" ++
            (if JS.includes (name f) "."
             then JS.slice (name f) (JS.lastIndexOf (name f) ".")
             else ".mp3"))
  | None => None
  end.

Definition onFrame (totalFrames : Z) (index : Z) (blob : Blob) : Async unit :=
  let fileName := frameFileName index in
  fileData <- of_outcome (fetchFile blob) ;;
  writeFile fileName fileData ;;
  setProgress (Some (JS.Math_round
    ((inject_Z (index + 1) / inject_Z totalFrames) * 50))).

(** [command.push(...)] *)
Definition push (command : list string) (items : list string) : list string :=
  command ++ items.

(** The argument vector handed to [ffmpeg.exec]. *)
Definition command (config : VideoConfig) (audioInputName : option string) : list string :=
  let command := ["-y"; "-framerate"; Number_toString (fps config); "-i"; framePattern] in
  let command :=
    JS.if_truthy audioInputName
      (fun a => push command ["-i"; a; "-shortest"]) command in
  let command :=
    push command ["-c:v"; "libx264"; "-profile:v"; "main";
                  "-pix_fmt"; "yuv420p"; "-preset"; "medium"] in
  let command :=
    JS.if_truthy audioInputName
      (fun _ => push command ["-c:a"; "aac"; "-b:a"; "192k"]) command in
  push command ["output.mp4"].

(** The body of the [try] block. *)
Definition attempt (config : VideoConfig) (audioFile : option File) : Async unit :=
  setIsGenerating true ;;
  setError None ;;
  setProgress None ;;
  setStatus "Preparing workspace" ;;
  let totalFrames := totalFrames config in
  swallow (deleteFile "output.mp4") ;;
  for_upto totalFrames (fun i => swallow (deleteFile (frameFileName i))) ;;
  let audioInputName := audioInputName audioFile in
  JS.if_truthy audioInputName (fun a => swallow (deleteFile a)) (ret tt) ;;
  setStatus "Rendering frames" ;;
  generateFrames config totalFrames padLength (onFrame totalFrames) ;;
  JS.if_truthy audioInputName
    (fun a =>
       match audioFile with
       | Some f =>
           setStatus "Transcoding audio" ;;
           audioData <- of_outcome (fetchFile (file_blob f)) ;;
           writeFile a audioData
       | None => ret tt
       end)
    (ret tt) ;;
  setStatus "Encoding video" ;;
  exec (command config audioInputName) ;;
  setProgress (Some 90) ;;
  setStatus "Finalizing" ;;
  outputData <- readFile "output.mp4" ;;
  let byteArray :=
    match outputData with
    | U8 b => b
    | Text s => TextEncoder_encode s
    end in
  let copy := byteArray in
  let videoBlob := {| blob_type := "video/mp4"; blob_data := copy |} in
  url <- createObjectURL videoBlob ;;
  setPreviewUrl_with (fun oldUrl =>
    match oldUrl with
    | Some old => revokeObjectURL old
    | None => ret tt
    end ;;
    ret (Some url)) ;;
  setProgress (Some 100) ;;
  setStatus "Done".

(** [err instanceof Error ? err.message : '...'] *)
Definition errorMessage (err : Exn) : string :=
  match err with
  | ErrorObject message => message
  | OtherValue => "Unknown error while rendering video."
  end.

(** The [catch] block. *)
Definition onFailure (err : Exn) : Async unit :=
  n <- get (fun w => retryCount (ui w)) ;;
  setRetryCount (n + 1) ;;
  let message := errorMessage err in
  setError (Some message) ;;
  setStatus "Failed".

(** [config], [audioFile] and [ffmpeg] are the values captured when the
    callback was created, that is those of the world it is started in. *)
Definition generateVideo : Async unit := fun w =>
  match ffmpeg w with
  | None =>
      setError (Some "FFmpeg not ready yet. Please wait a second and try again.") w
  | Some _ =>
      try_finally
        (try_catch (attempt (config (ui w)) (audioFile (ui w))) onFailure)
        (setIsGenerating false) w
  end.

(** ** The form *)

(** [onSubmit]: the call is not awaited ([void generateVideo()]). *)
Definition onSubmit : Async unit := fun w =>
  if negb (ready w) || loading w then ret tt w
  else generateVideo w.

(** [disabled] of the submit button. *)
Definition submitDisabled (w : World) : bool :=
  negb (ready w) || loading w || isGenerating (ui w).

(** [disabled] of the Reset button. *)
Definition resetDisabled (w : World) : bool :=
  isGenerating (ui w).

(** A press of the submit button: a disabled button dispatches nothing. *)
Definition pressSubmit : Async unit := fun w =>
  if submitDisabled w then ret tt w else onSubmit w.

(** A press of the Reset button ([onClick={reset}]). *)
Definition pressReset : Async unit := fun w =>
  if resetDisabled w then ret tt w else reset w.

End VideoCreator.

(* ================================================================== *)
(** * Reading a list of effects *)
(* ================================================================== *)

(** The status labels shown, in order. *)
Definition statuses (evs : list Event) : list string :=
  flat_map (fun ev => match ev with SetStatus s => [s] | _ => [] end) evs.

(** The numeric progress values reported, in order. *)
Definition progress_values (evs : list Event) : list Z :=
  flat_map (fun ev => match ev with SetProgress (Some p) => [p] | _ => [] end) evs.

(** The indices [onFrame] was invoked with, in order. *)
Definition frames (evs : list Event) : list Z :=
  flat_map (fun ev => match ev with OnFrame i => [i] | _ => [] end) evs.

(** The argument vectors the encoder was run with, in order. *)
Definition execs (evs : list Event) : list (list string) :=
  flat_map (fun ev => match ev with Exec argv => [argv] | _ => [] end) evs.

(** The values written to the in-flight flag, in order. *)
Definition generating_flags (evs : list Event) : list bool :=
  flat_map (fun ev => match ev with SetIsGenerating b => [b] | _ => [] end) evs.



(** Object URLs published to, created in, and revoked from the browser. *)
Definition published (evs : list Event) : list (option ObjectURL) :=
  flat_map (fun ev => match ev with SetPreviewUrl u => [u] | _ => [] end) evs.

Definition revoked (evs : list Event) : list ObjectURL :=
  flat_map (fun ev => match ev with RevokeObjectURL u => [u] | _ => [] end) evs.

(** [start; start + 1; ...], [n] of them. *)
Fixpoint Zrange (start : Z) (n : nat) : list Z :=
  match n with
  | O => []
  | S k => start :: Zrange (start + 1) k
  end.

(** [l1] occurs in [l2] in the same order, possibly with other elements
    in between. *)
Fixpoint subsequence (l1 l2 : list string) : bool :=
  match l1, l2 with
  | [], _ => true
  | _ :: _, [] => false
  | x :: l1', y :: l2' =>
      if String.eqb x y then subsequence l1' l2' else subsequence l1 l2'
  end.

(** The phases of a render attempt and the label each one shows. *)
Inductive Phase := Preparing | RenderingFrames | TranscodingAudio | Encoding | Finalizing | Done | Failed | Idle.

Definition label (p : Phase) : string :=
  match p with
  | Preparing => "Preparing workspace"
  | RenderingFrames => "Rendering frames"
  | TranscodingAudio => "Transcoding audio"
  | Encoding => "Encoding video"
  | Finalizing => "Finalizing"
  | Done => "Done"
  | Failed => "Failed"
  | Idle => "Idle"
  end.

(** The React state after an effect, and after a list of them. *)
Definition apply_event (ev : Event) (s : State) : State :=
  match ev with
  | SetConfig c => State_config c s
  | SetAudioFile f => State_audioFile f s
  | SetPreviewUrl u => State_previewUrl u s
  | SetStatus t => State_status t s
  | SetProgress p => State_progress p s
  | SetIsGenerating b => State_isGenerating b s
  | SetError e => State_error e s
  | SetRetryCount n => State_retryCount n s
  | _ => s
  end.

Definition replay (evs : list Event) (s : State) : State :=
  fold_left (fun s ev => apply_event ev s) evs s.

(** Whether an object URL is still live in the browser. *)
Definition alive (u : ObjectURL) (g : Registry) : bool :=
  existsb (ObjectURL_eqb u) (live g).

(* ================================================================== *)
(** * A simulated runtime, for running the component on examples *)
(* ================================================================== *)

Module Sim.

(** The encoder's virtual file system. *)
Definition FS := list (string * Bytes).

Fixpoint lookup (path : string) (fs : FS) : option Bytes :=
  match fs with
  | [] => None
  | (p, d) :: rest => if String.eqb p path then Some d else lookup path rest
  end.

Definition remove (path : string) (fs : FS) : FS :=
  filter (fun e => negb (String.eqb (fst e) path)) fs.

Definition no_entry : Exn := ErrorObject "ErrnoError: FS error".

Definition sim_deleteFile (path : string) (fs : FS) : FS * Outcome unit :=
  match lookup path fs with
  | Some _ => (remove path fs, Returned tt)
  | None => (fs, Thrown no_entry)
  end.

Definition sim_writeFile (path : string) (data : Bytes) (fs : FS) : FS * Outcome unit :=
  ((path, data) :: remove path fs, Returned tt).

Definition sim_readFile (path : string) (fs : FS) : FS * Outcome FileData :=
  match lookup path fs with
  | Some d => (fs, Returned (U8 d))
  | None => (fs, Thrown no_entry)
  end.

(** The run exits with code 1 and writes nothing when the first frame of
    the sequence is missing; otherwise it writes the output file. *)
Definition sim_exec (argv : list string) (fs : FS) : FS * Outcome Z :=
  match lookup "frame_00000.png" fs with
  | Some d => (("output.mp4", d) :: remove "output.mp4" fs, Returned 0)
  | None => (fs, Returned 1)
  end.

Definition sim_fetchFile (b : Blob) : Outcome Bytes := Returned (blob_data b).

Definition render_error : Exn := ErrorObject "RenderError: invalid dimensions".

(** A canvas without area is rejected. *)
Definition sim_checkConfig (c : VideoConfig) : Outcome unit :=
  if Qle_bool (width c) 0 || Qle_bool (height c) 0
  then Thrown render_error
  else Returned tt.

Definition sim_renderFrame (c : VideoConfig) (index total : Z) : Blob :=
  {| blob_type := "image/png"; blob_data := [] |}.

(** Only plain integers are printed in the examples. *)
Definition sim_toString_other (x : Q) : string := "NaN".

Definition runtime : Runtime := {|
  Encoder := FS;
  ffmpeg_deleteFile := sim_deleteFile;
  ffmpeg_writeFile := sim_writeFile;
  ffmpeg_readFile := sim_readFile;
  ffmpeg_exec := sim_exec;
  fetchFile := sim_fetchFile;
  checkConfig := sim_checkConfig;
  renderFrame := sim_renderFrame;
  toString_other := sim_toString_other
|}.

(** A clip of [d] seconds at [f] frames per second, otherwise the
    defaults. *)
Definition clip (d f : Q) : VideoConfig := {|
  width := width defaultConfig;
  height := height defaultConfig;
  duration := d;
  fps := f;
  title := title defaultConfig;
  subtitle := subtitle defaultConfig;
  background := background defaultConfig;
  gradientStart := gradientStart defaultConfig;
  gradientEnd := gradientEnd defaultConfig;
  backgroundColor := backgroundColor defaultConfig;
  textColor := textColor defaultConfig;
  accentColor := accentColor defaultConfig;
  fontSize := fontSize defaultConfig;
  subtitleSize := subtitleSize defaultConfig;
  animation := animation defaultConfig
|}.

(** The configuration [c] with the frame size set to zero. *)
Definition flattened (c : VideoConfig) : VideoConfig := {|
  width := 0;
  height := 0;
  duration := duration c;
  fps := fps c;
  title := title c;
  subtitle := subtitle c;
  background := background c;
  gradientStart := gradientStart c;
  gradientEnd := gradientEnd c;
  backgroundColor := backgroundColor c;
  textColor := textColor c;
  accentColor := accentColor c;
  fontSize := fontSize c;
  subtitleSize := subtitleSize c;
  animation := animation c
|}.

(** The page once the encoder has loaded, with a given configuration
    and audio selection. *)
Definition loaded (c : VideoConfig) (a : option File) : World (rt := runtime) :=
  @Build_World runtime
    (State_audioFile a (State_config c initialState))
    (Some ([] : FS))
    true
    false
    {| next_id := 0; live := [] |}.


Definition song : File :=
  {| name := "song.WAV"; file_blob := {| blob_type := "audio/wav"; blob_data := [] |} |}.

(** The same page with another configuration entered in the form. *)
Definition reconfigured (c : VideoConfig) (w : World (rt := runtime)) : World (rt := runtime) :=
  with_ui (State_config c) w.

(** The page after a one-second clip at two frames per second has been
    rendered. *)
Definition rendered : World (rt := runtime) :=
  after (generateVideo (loaded (clip 1 2) None)).

(** ... and after Reset has then been pressed. *)
Definition rendered_then_reset : World (rt := runtime) :=
  after (pressReset rendered).

(** The page after a render, with a frame size of zero then entered in
    the form. *)
Definition rendered_then_flattened : World (rt := runtime) :=
  reconfigured (flattened (clip 1 2)) rendered.

(** The files held by the encoder of a page. *)
Definition files_of (w : World (rt := runtime)) : FS :=
  match ffmpeg w with
  | Some fs => fs
  | None => []
  end.

(** The page while a render is in flight. *)
Definition rendering : World (rt := runtime) :=
  with_ui (State_isGenerating true) (loaded (clip 1 2) None).

(** The first effects of a render, and the page once they have happened. *)
Definition first_effects : list Event :=
  firstn 5 (emitted (generateVideo (loaded (clip 1 2) None))).

Definition remaining_effects : list Event :=
  skipn 5 (emitted (generateVideo (loaded (clip 1 2) None))).

Definition mid_render : World (rt := runtime) :=
  with_ui (replay first_effects) (loaded (clip 1 2) None).

End Sim.

(* ================================================================== *)
(** * Vocabulary of the proofs *)
(* ================================================================== *)

Section Vocabulary.

Context {rt : Runtime}.

(** [r] with the effects [evs] performed before it. *)
Definition prepend {A} (evs : list Event) (r : Run A) : Run A :=
  {| after := after r; emitted := evs ++ emitted r; outcome := outcome r |}.

(** The run of a computation that did nothing and returned. *)
Definition idle {A} (a : A) (w : World) : Run A :=
  {| after := w; emitted := []; outcome := Returned a |}.

(** The progress value reported after frame [index] of [totalFrames]. *)
Definition reported_progress (totalFrames index : Z) : Z :=
  JS.Math_round ((inject_Z (index + 1) / inject_Z totalFrames) * 50).

(** The effects of the stale-file cleanup. *)
Definition is_delete (ev : Event) : Prop :=
  match ev with DeleteFile _ => True | _ => False end.

(** The effects of staging the frames. *)
Definition is_frame_event (ev : Event) : Prop :=
  match ev with
  | OnFrame _ | WriteFile _ _ | SetProgress (Some _) => True
  | _ => False
  end.

(** Effects that touch neither the in-flight flag, the attempt counter,
    the form fields nor any object URL, and run the encoder, if at all,
    with [argv]. *)
Definition is_quiet (argv : list string) (ev : Event) : Prop :=
  match ev with
  | SetStatus _ | SetProgress _ | SetError _
  | DeleteFile _ | WriteFile _ _ | ReadFile _ | OnFrame _ => True
  | Exec a => a = argv
  | _ => False
  end.

(** The effects of staging the audio file. *)
Definition audio_events (audioFile : option File) (data : Bytes) : list Event :=
  match audioInputName audioFile with
  | Some a => [SetStatus "Transcoding audio"; WriteFile a data]
  | None => []
  end.

(** The effects of releasing the handle that is being replaced. *)
Definition revoke_events (old : option ObjectURL) : list Event :=
  match old with
  | Some u => [RevokeObjectURL u]
  | None => []
  end.

(** The object-URL store after a new handle replaced [old]. *)
Definition replaced (old : option ObjectURL) (g : Registry) : Registry :=
  let created := blob_url (next_id g) :: live g in
  {| next_id := S (next_id g);
     live := match old with
             | Some u => filter (fun v => negb (ObjectURL_eqb v u)) created
             | None => created
             end |}.

(** The only live object URL is the published one, and the store has
    handed out no identifier beyond its counter. *)
Definition single_slot (w : World) : Prop :=
  live (registry w) = match previewUrl (ui w) with Some u => [u] | None => [] end /\
  forall i, In (blob_url i) (live (registry w)) -> (i < next_id (registry w))%nat.

(** The two ways the body of the [try] block can end when an encoder is
    present: it throws, having touched neither the form fields, the
    published object URL, the attempt counter nor the object-URL store; or
    it completes, with the effects below. *)
Inductive AttemptRun (cfg : VideoConfig) (audio : option File) (w : World)
  : Run unit -> Prop :=
| attempt_failed (st : string) (p : option Z) (e' : Encoder)
    (evs : list Event) (x : Exn) :
    Forall (is_quiet (command cfg (audioInputName audio))) evs ->
    AttemptRun cfg audio w
      {| after :=
           Build_World
             (Build_State (config (ui w)) (audioFile (ui w)) (previewUrl (ui w))
                st p true None (retryCount (ui w)))
             (Some e') (ready w) (loading w) (registry w);
         emitted := SetIsGenerating true :: evs;
         outcome := Thrown x |}
| attempt_done (e' : Encoder) (dels fevs : list Event) (data : Bytes) :
    Forall is_delete dels ->
    Forall is_frame_event fevs ->
    frames fevs = Zrange 0 (Z.to_nat (totalFrames cfg)) ->
    progress_values fevs =
      map (reported_progress (totalFrames cfg)) (Zrange 0 (Z.to_nat (totalFrames cfg))) ->
    AttemptRun cfg audio w
      {| after :=
           Build_World
             (Build_State (config (ui w)) (audioFile (ui w))
                (Some (blob_url (next_id (registry w))))
                "Done" (Some 100) true None (retryCount (ui w)))
             (Some e') (ready w) (loading w)
             (replaced (previewUrl (ui w)) (registry w));
         emitted :=
           ([SetIsGenerating true; SetError None; SetProgress None;
             SetStatus "Preparing workspace"]
            ++ dels
            ++ [SetStatus "Rendering frames"]
            ++ fevs
            ++ audio_events audio data
            ++ [SetStatus "Encoding video";
                Exec (command cfg (audioInputName audio));
                SetProgress (Some 90);
                SetStatus "Finalizing";
                ReadFile "output.mp4";
                CreateObjectURL (blob_url (next_id (registry w)))]
            ++ revoke_events (previewUrl (ui w))
            ++ [SetPreviewUrl (Some (blob_url (next_id (registry w))));
                SetProgress (Some 100);
                SetStatus "Done"])%list;
         outcome := Returned tt |}.

(** What [generateVideo] makes of the run [r] of its [try] block: the
    [catch] block after a throw, then the [finally] block. *)
Definition finish (r : Run unit) : Run unit :=
  match outcome r with
  | Returned _ =>
      {| after := with_ui (State_isGenerating false) (after r);
         emitted := emitted r ++ [SetIsGenerating false];
         outcome := Returned tt |}
  | Thrown x =>
      let n := retryCount (ui (after r)) + 1 in
      {| after :=
           with_ui (fun s =>
             State_isGenerating false
               (State_status "Failed"
                  (State_error (Some (errorMessage x))
                     (State_retryCount n s))))
             (after r);
         emitted :=
           emitted r ++ [SetRetryCount n; SetError (Some (errorMessage x));
                         SetStatus "Failed"; SetIsGenerating false];
         outcome := Returned tt |}
  end.

(** A computation whose changes to the React state are all among its
    effects: the state it ends in is the replay of what it emitted. *)
Definition Traced {A} (m : Async A) : Prop :=
  forall w, ui (after (m w)) = replay (emitted (m w)) (ui w).

(** The message shown when the encoder is missing. *)
Definition not_ready_message : string :=
  "FFmpeg not ready yet. Please wait a second and try again.".

End Vocabulary.

(* ================================================================== *)
(** * The rest of the component, and the hook that loads the encoder *)
(* ================================================================== *)

Module JSNumber.

(** Truncation towards zero. *)
Definition trunc (x : Q) : Z := if Qle_bool 0 x then Qfloor x else Qceiling x.

(** [a % b] for a divisor other than zero: what is left of [a] once the
    whole multiples of [b] are taken out, with the sign of [a].  The
    operation is exact on the numbers of the engine. *)
Definition rem (a b : Q) : Q := a - b * inject_Z (trunc (a / b)).

(** [Math.min] *)
Definition Math_min (a b : Z) : Z := Z.min a b.

End JSNumber.


(** The keys of [VideoConfig] ([keyof VideoConfig]) and the type of the
    value each one holds ([VideoConfig[K]]). *)
Inductive ConfigKey :=
| K_width
| K_height
| K_duration
| K_fps
| K_title
| K_subtitle
| K_background
| K_gradientStart
| K_gradientEnd
| K_backgroundColor
| K_textColor
| K_accentColor
| K_fontSize
| K_subtitleSize
| K_animation.

Definition ConfigValue (key : ConfigKey) : Type :=
  match key with
  | K_width => Q
  | K_height => Q
  | K_duration => Q
  | K_fps => Q
  | K_title => string
  | K_subtitle => string
  | K_background => Background
  | K_gradientStart => string
  | K_gradientEnd => string
  | K_backgroundColor => string
  | K_textColor => string
  | K_accentColor => string
  | K_fontSize => Q
  | K_subtitleSize => Q
  | K_animation => Animation
  end.

(** [{ ...prev, [key]: value }] *)
Definition config_with (key : ConfigKey) : ConfigValue key -> VideoConfig -> VideoConfig :=
  match key with
  | K_width => fun value prev =>
      {| width := value; height := height prev; duration := duration prev;
         fps := fps prev; title := title prev; subtitle := subtitle prev;
         background := background prev; gradientStart := gradientStart prev;
         gradientEnd := gradientEnd prev;
         backgroundColor := backgroundColor prev;
         textColor := textColor prev; accentColor := accentColor prev;
         fontSize := fontSize prev; subtitleSize := subtitleSize prev;
         animation := animation prev |}
  | K_height => fun value prev =>
      {| width := width prev; height := value; duration := duration prev;
         fps := fps prev; title := title prev; subtitle := subtitle prev;
         background := background prev; gradientStart := gradientStart prev;
         gradientEnd := gradientEnd prev;
         backgroundColor := backgroundColor prev;
         textColor := textColor prev; accentColor := accentColor prev;
         fontSize := fontSize prev; subtitleSize := subtitleSize prev;
         animation := animation prev |}
  | K_duration => fun value prev =>
      {| width := width prev; height := height prev; duration := value;
         fps := fps prev; title := title prev; subtitle := subtitle prev;
         background := background prev; gradientStart := gradientStart prev;
         gradientEnd := gradientEnd prev;
         backgroundColor := backgroundColor prev;
         textColor := textColor prev; accentColor := accentColor prev;
         fontSize := fontSize prev; subtitleSize := subtitleSize prev;
         animation := animation prev |}
  | K_fps => fun value prev =>
      {| width := width prev; height := height prev;
         duration := duration prev; fps := value; title := title prev;
         subtitle := subtitle prev; background := background prev;
         gradientStart := gradientStart prev;
         gradientEnd := gradientEnd prev;
         backgroundColor := backgroundColor prev;
         textColor := textColor prev; accentColor := accentColor prev;
         fontSize := fontSize prev; subtitleSize := subtitleSize prev;
         animation := animation prev |}
  | K_title => fun value prev =>
      {| width := width prev; height := height prev;
         duration := duration prev; fps := fps prev; title := value;
         subtitle := subtitle prev; background := background prev;
         gradientStart := gradientStart prev;
         gradientEnd := gradientEnd prev;
         backgroundColor := backgroundColor prev;
         textColor := textColor prev; accentColor := accentColor prev;
         fontSize := fontSize prev; subtitleSize := subtitleSize prev;
         animation := animation prev |}
  | K_subtitle => fun value prev =>
      {| width := width prev; height := height prev;
         duration := duration prev; fps := fps prev; title := title prev;
         subtitle := value; background := background prev;
         gradientStart := gradientStart prev;
         gradientEnd := gradientEnd prev;
         backgroundColor := backgroundColor prev;
         textColor := textColor prev; accentColor := accentColor prev;
         fontSize := fontSize prev; subtitleSize := subtitleSize prev;
         animation := animation prev |}
  | K_background => fun value prev =>
      {| width := width prev; height := height prev;
         duration := duration prev; fps := fps prev; title := title prev;
         subtitle := subtitle prev; background := value;
         gradientStart := gradientStart prev;
         gradientEnd := gradientEnd prev;
         backgroundColor := backgroundColor prev;
         textColor := textColor prev; accentColor := accentColor prev;
         fontSize := fontSize prev; subtitleSize := subtitleSize prev;
         animation := animation prev |}
  | K_gradientStart => fun value prev =>
      {| width := width prev; height := height prev;
         duration := duration prev; fps := fps prev; title := title prev;
         subtitle := subtitle prev; background := background prev;
         gradientStart := value; gradientEnd := gradientEnd prev;
         backgroundColor := backgroundColor prev;
         textColor := textColor prev; accentColor := accentColor prev;
         fontSize := fontSize prev; subtitleSize := subtitleSize prev;
         animation := animation prev |}
  | K_gradientEnd => fun value prev =>
      {| width := width prev; height := height prev;
         duration := duration prev; fps := fps prev; title := title prev;
         subtitle := subtitle prev; background := background prev;
         gradientStart := gradientStart prev; gradientEnd := value;
         backgroundColor := backgroundColor prev;
         textColor := textColor prev; accentColor := accentColor prev;
         fontSize := fontSize prev; subtitleSize := subtitleSize prev;
         animation := animation prev |}
  | K_backgroundColor => fun value prev =>
      {| width := width prev; height := height prev;
         duration := duration prev; fps := fps prev; title := title prev;
         subtitle := subtitle prev; background := background prev;
         gradientStart := gradientStart prev;
         gradientEnd := gradientEnd prev; backgroundColor := value;
         textColor := textColor prev; accentColor := accentColor prev;
         fontSize := fontSize prev; subtitleSize := subtitleSize prev;
         animation := animation prev |}
  | K_textColor => fun value prev =>
      {| width := width prev; height := height prev;
         duration := duration prev; fps := fps prev; title := title prev;
         subtitle := subtitle prev; background := background prev;
         gradientStart := gradientStart prev;
         gradientEnd := gradientEnd prev;
         backgroundColor := backgroundColor prev; textColor := value;
         accentColor := accentColor prev; fontSize := fontSize prev;
         subtitleSize := subtitleSize prev; animation := animation prev |}
  | K_accentColor => fun value prev =>
      {| width := width prev; height := height prev;
         duration := duration prev; fps := fps prev; title := title prev;
         subtitle := subtitle prev; background := background prev;
         gradientStart := gradientStart prev;
         gradientEnd := gradientEnd prev;
         backgroundColor := backgroundColor prev;
         textColor := textColor prev; accentColor := value;
         fontSize := fontSize prev; subtitleSize := subtitleSize prev;
         animation := animation prev |}
  | K_fontSize => fun value prev =>
      {| width := width prev; height := height prev;
         duration := duration prev; fps := fps prev; title := title prev;
         subtitle := subtitle prev; background := background prev;
         gradientStart := gradientStart prev;
         gradientEnd := gradientEnd prev;
         backgroundColor := backgroundColor prev;
         textColor := textColor prev; accentColor := accentColor prev;
         fontSize := value; subtitleSize := subtitleSize prev;
         animation := animation prev |}
  | K_subtitleSize => fun value prev =>
      {| width := width prev; height := height prev;
         duration := duration prev; fps := fps prev; title := title prev;
         subtitle := subtitle prev; background := background prev;
         gradientStart := gradientStart prev;
         gradientEnd := gradientEnd prev;
         backgroundColor := backgroundColor prev;
         textColor := textColor prev; accentColor := accentColor prev;
         fontSize := fontSize prev; subtitleSize := value;
         animation := animation prev |}
  | K_animation => fun value prev =>
      {| width := width prev; height := height prev;
         duration := duration prev; fps := fps prev; title := title prev;
         subtitle := subtitle prev; background := background prev;
         gradientStart := gradientStart prev;
         gradientEnd := gradientEnd prev;
         backgroundColor := backgroundColor prev;
         textColor := textColor prev; accentColor := accentColor prev;
         fontSize := fontSize prev; subtitleSize := subtitleSize prev;
         animation := value |}
  end.


Section Form.

Context {rt : Runtime}.

(** [onConfigChange]: [setConfig((prev) => ({ ...prev, [key]: value }))] *)
Definition onConfigChange (key : ConfigKey) (value : ConfigValue key) : Async unit :=
  prev <- get (fun w => config (ui w)) ;;
  setConfig (config_with key value prev).

(** The [onChange] handler of the file input. *)
Definition onAudioChange (file : option File) : Async unit :=
  setAudioFile file.

(** [gcd] of [formattedSize]:
    [(a, b) => (b === 0 ? a : gcd(b, a % b))], with [fuel] bounding the
    depth of the recursion; [None] when the bound is reached. *)
Fixpoint gcd_calls (fuel : nat) (a b : Q) : option Q :=
  match fuel with
  | O => None
  | S fuel' =>
      if Qeq_bool b 0 then Some a
      else gcd_calls fuel' b (JSNumber.rem a b)
  end.

(** Each call shrinks the second argument, counted in units of the common
    denominator of the two inputs, so this many calls are enough. *)
Definition gcd (a b : Q) : option Q :=
  gcd_calls (S (Z.to_nat (Z.abs (Qnum b * QDen a)))) a b.

(** [`${Math.round(x / divisor)}`]; a division by zero gives NaN or an
    infinity, which [Math.round] and the template keep. *)
Definition ratio_part (x divisor : Q) : string :=
  if Qeq_bool divisor 0
  then (if Qeq_bool x 0 then "NaN"
        else if Qle_bool 0 x then "Infinity" else "-Infinity")
  else Number_toString (inject_Z (JS.Math_round (x / divisor))).

Definition formattedSize (config : VideoConfig) : option string :=
  match gcd (width config) (height config) with
  | Some divisor =>
      Some (ratio_part (width config) divisor ++ ":"
            ++ ratio_part (height config) divisor)
  | None => None
  end.

(** The width of the progress bar, in percent:
    [Math.min(progress, 100)], drawn when [progress !== null]. *)
Definition barWidth (progress : option Z) : option Z :=
  match progress with
  | Some p => Some (JSNumber.Math_min p 100)
  | None => None
  end.

End Form.

(** ** hooks/useFFmpeg.ts

    The rest of the platform the hook relies on: whether [window] is
    defined, [new FFmpeg()], the download of a file as a [Blob] of a
    given type (the first half of [toBlobURL], below), and
    [ffmpeg.load]. *)
Class Bootstrap {rt : Runtime} := {
  window_defined : bool;
  new_FFmpeg : Encoder;
  fetchBlob : string -> string -> Outcome Blob;
  ffmpeg_load :
    ObjectURL -> ObjectURL -> ObjectURL -> Encoder -> Encoder * Outcome bool
}.

Section UseFFmpeg.

Context {rt : Runtime} {boot : Bootstrap}.

Definition CORE_VERSION : string := "0.12.6".

Definition baseUrl : string :=
  "https://unpkg.com/@ffmpeg/core@" ++ CORE_VERSION ++ "/dist".

Definition setReady (b : bool) : Async unit := fun w =>
  {| after := Build_World (ui w) (ffmpeg w) b (loading w) (registry w);
     emitted := []; outcome := Returned tt |}.

Definition setLoading (b : bool) : Async unit := fun w =>
  {| after := Build_World (ui w) (ffmpeg w) (ready w) b (registry w);
     emitted := []; outcome := Returned tt |}.

(** [if (!ffmpegRef.current) ffmpegRef.current = new FFmpeg()].  The
    component reads the ref through the memoised value of the hook, which
    is recomputed at the render that follows [setLoading(true)], after
    this assignment; the two are one cell here. *)
Definition ensureInstance : Async unit := fun w =>
  match ffmpeg w with
  | Some _ => ret tt w
  | None =>
      {| after := with_ffmpeg (Some new_FFmpeg) w;
         emitted := []; outcome := Returned tt |}
  end.

(** [ffmpeg.load({ coreURL, wasmURL, workerURL })] *)
Definition callLoad (coreURL wasmURL workerURL : ObjectURL) : Async bool := fun w =>
  match ffmpeg w with
  | Some e =>
      let (e', o) := ffmpeg_load coreURL wasmURL workerURL e in
      {| after := with_ffmpeg (Some e') w; emitted := []; outcome := o |}
  | None =>
      {| after := w; emitted := [];
         outcome := Thrown (ErrorObject "Cannot read properties of null") |}
  end.

(** [toBlobURL(url, mimeType)] of [@ffmpeg/util], a dependency of the
    hook that is not among the sources: as the package documents it, the
    file is downloaded, wrapped in a [Blob] of the given type, and
    [URL.createObjectURL(blob)] is returned.  Nothing in the hook or in
    the component revokes the object URL. *)
Definition toBlobURL (url mimeType : string) : Async ObjectURL :=
  blob <- of_outcome (fetchBlob url mimeType) ;;
  createObjectURL blob.

(** [load] *)
Definition load : Async unit := fun w =>
  if ready w || loading w then ret tt w
  else if negb window_defined then ret tt w
  else
    (setLoading true ;;
     ensureInstance ;;
     coreURL <- toBlobURL (baseUrl ++ "/ffmpeg-core.js") "text/javascript" ;;
     wasmURL <- toBlobURL (baseUrl ++ "/ffmpeg-core.wasm") "application/wasm" ;;
     workerURL <- toBlobURL (baseUrl ++ "/ffmpeg-core.worker.js") "text/javascript" ;;
     callLoad coreURL wasmURL workerURL ;;
     setReady true ;;
     setLoading false) w.

(** ** A session at the page *)

(** What can happen at the page between two renders: the effect that
    loads the encoder runs, a button is pressed, or a field of the form
    is edited. *)
Inductive Action :=
| RunLoad
| PressSubmit
| PressReset
| EditConfig (key : ConfigKey) (value : ConfigValue key)
| PickAudio (file : option File).

Definition perform (a : Action) : Async unit :=
  match a with
  | RunLoad => load
  | PressSubmit => pressSubmit
  | PressReset => pressReset
  | EditConfig key value => onConfigChange key value
  | PickAudio file => onAudioChange file
  end.

(** The page when the component is first rendered. *)
Definition freshPage : World :=
  Build_World initialState None false false {| next_id := 0; live := [] |}.

(** The actions performed one after the other, each to its end; an
    exception that escapes an action is not caught by anything and the
    page goes on from the state the action left. *)
Fixpoint session (actions : list Action) (w : World) : Run unit :=
  match actions with
  | [] => {| after := w; emitted := []; outcome := Returned tt |}
  | a :: rest =>
      let r := perform a w in
      let r' := session rest (after r) in
      {| after := after r'; emitted := emitted r ++ emitted r'; outcome := outcome r' |}
  end.

(** ** A render with the form edited while it runs

    [onSubmit] does not await [generateVideo], and the fields of the form
    stay enabled while a render is in flight: between two effects of the
    render the user can edit the form.  Nothing else can happen then:
    both buttons are disabled from the first effect of the render to its
    last, and the effect that loads the encoder returns at its guard,
    since a render only starts when the hook is ready. *)
Inductive Edit :=
| SetField (key : ConfigKey) (value : ConfigValue key)
| SetAudio (file : option File).

Definition edit (e : Edit) : Async unit :=
  match e with
  | SetField key value => onConfigChange key value
  | SetAudio file => onAudioChange file
  end.

(** The edits [edits] made one after the other from the React state [s]:
    the state they leave and their effects.  The handlers of the form
    read and write the React state only; the rest of the world they run
    in is that of [w]. *)
Fixpoint edits_from (w : World) (edits : list Edit) (s : State) : State * list Event :=
  match edits with
  | [] => (s, [])
  | e :: rest =>
      let r := edit e (with_ui (fun _ => s) w) in
      let (s', evs) := edits_from w rest (ui (after r)) in
      (s', (emitted r ++ evs)%list)
  end.

(** The effects [evs] of a render applied to the React state one by one,
    with edits of the form in between: the first list of [during] holds
    the edits made after the first effect and before the second, and so
    on; there is none after the last effect, where the render is over. *)
Fixpoint weave (w : World) (evs : list Event) (during : list (list Edit)) (s : State)
  : State * list Event :=
  match evs with
  | [] => (s, [])
  | ev :: rest =>
      let s1 := apply_event ev s in
      match rest with
      | [] => (s1, [ev])
      | _ :: _ =>
          let (s2, evs2) := edits_from w (hd [] during) s1 in
          let (s3, evs3) := weave w rest (tl during) s2 in
          (s3, (ev :: evs2 ++ evs3)%list)
      end
  end.

(** [generateVideo] started in [w], with the form edited meanwhile.  The
    render itself is the one of [generateVideo]: its callback holds the
    [config] and the [audioFile] of the render it was created in, it
    reads no other cell that an edit writes, and its own updates of the
    React state are the effects replayed here. *)
Definition generateVideo_amid (during : list (list Edit)) : Async unit := fun w =>
  let r := generateVideo w in
  let (s, evs) := weave w (emitted r) during (ui w) in
  {| after := with_ui (fun _ => s) (after r); emitted := evs; outcome := outcome r |}.

(** A press of the submit button, with the edits made while the render
    it starts is in flight. *)
Definition pressSubmit_amid (during : list (list Edit)) : Async unit := fun w =>
  if submitDisabled w then ret tt w
  else if negb (ready w) || loading w then ret tt w
  else generateVideo_amid during w.

(** What happens at the page, one thing after the other: an action made
    while no render is in flight, or a render together with the edits
    made while it runs.  The effect that loads the encoder is taken as
    one step: it neither reads nor writes the React state, so that an
    edit or a Reset made while it runs is one made before it, and Submit
    is disabled until it is over. *)
Inductive Step :=
| Alone (a : Action)
| Rendering (during : list (list Edit)).

Definition perform_step (st : Step) : Async unit :=
  match st with
  | Alone a => perform a
  | Rendering during => pressSubmit_amid during
  end.

Fixpoint live_session (steps : list Step) (w : World) : Run unit :=
  match steps with
  | [] => {| after := w; emitted := []; outcome := Returned tt |}
  | st :: rest =>
      let r := perform_step st w in
      let r' := live_session rest (after r) in
      {| after := after r'; emitted := emitted r ++ emitted r'; outcome := outcome r' |}
  end.

End UseFFmpeg.

(* ================================================================== *)
(** * Further vocabulary *)
(* ================================================================== *)

(** What an effect does to the encoder, with the data left out. *)
Inductive Access :=
| Deleted (path : string)
| Written (path : string)
| Ran (argv : list string)
| ReadBack (path : string).

Definition access_of (ev : Event) : list Access :=
  match ev with
  | DeleteFile path => [Deleted path]
  | WriteFile path _ => [Written path]
  | Exec argv => [Ran argv]
  | ReadFile path => [ReadBack path]
  | _ => []
  end.

Definition accesses (evs : list Event) : list Access := flat_map access_of evs.

Section Plans.

Context {rt : Runtime}.

(** The files the cleanup at the start of an attempt deletes, in order. *)
Definition cleanup_plan (cfg : VideoConfig) (audio : option File) : list Access :=
  (Deleted "output.mp4"
   :: map (fun i => Deleted (frameFileName i)) (Zrange 0 (Z.to_nat (totalFrames cfg))))
  ++ match audioInputName audio with
     | Some a => [Deleted a]
     | None => []
     end.

(** What an attempt then does with the encoder, in order. *)
Definition work_plan (cfg : VideoConfig) (audio : option File) : list Access :=
  map (fun i => Written (frameFileName i)) (Zrange 0 (Z.to_nat (totalFrames cfg)))
  ++ match audioInputName audio with
     | Some a => [Written a]
     | None => []
     end
  ++ [Ran (command cfg (audioInputName audio)); ReadBack "output.mp4"].

(** A computation that, given an encoder, never throws, keeps the
    encoder, and accesses it exactly as listed. *)
Definition Certain {A} (m : Async A) (done : list Access) : Prop :=
  forall w, ffmpeg w <> None ->
    ffmpeg (after (m w)) <> None /\
    accesses (emitted (m w)) = done /\
    exists a, outcome (m w) = Returned a.

(** A computation that, given an encoder, keeps it, first accesses it as
    listed in [sure] and then gets through [plan] in order, as far as its
    first exception; to the end when it returns. *)
Definition Staged {A} (m : Async A) (sure plan : list Access) : Prop :=
  forall w, ffmpeg w <> None ->
    ffmpeg (after (m w)) <> None /\
    exists done rest,
      accesses (emitted (m w)) = (sure ++ done)%list /\
      plan = (done ++ rest)%list /\
      (forall a, outcome (m w) = Returned a -> rest = []).

(** A computation all of whose effects satisfy [P]. *)
Definition Emits {A} (P : Event -> Prop) (m : Async A) : Prop :=
  forall w, Forall P (emitted (m w)).

(** A computation that touches neither the React state nor the object
    URLs and has no effect on the encoder's files that the page sees. *)
Definition Backstage {A} (m : Async A) : Prop :=
  forall w,
    ui (after (m w)) = ui w /\
    registry (after (m w)) = registry w /\
    emitted (m w) = [].

(** The store of object URLs after [k] more of them were created and
    none was revoked, and the effects that did it. *)
Fixpoint grown (k : nat) (g : Registry) : Registry :=
  match k with
  | O => g
  | S k' =>
      let g' := grown k' g in
      {| next_id := S (next_id g'); live := blob_url (next_id g') :: live g' |}
  end.

Fixpoint creations (k : nat) (g : Registry) : list Event :=
  match k with
  | O => []
  | S k' => creations k' g ++ [CreateObjectURL (blob_url (next_id (grown k' g)))]
  end.

(** A computation that leaves the React state alone and whose only
    effects are the creation of object URLs: at most [n] of them, and
    exactly [n] when it returns. *)
Definition Fetching {A} (n : nat) (m : Async A) : Prop :=
  forall w,
    ui (after (m w)) = ui w /\
    exists k,
      (k <= n)%nat /\
      registry (after (m w)) = grown k (registry w) /\
      emitted (m w) = creations k (registry w) /\
      (forall a, outcome (m w) = Returned a -> k = n).

(** A computation that neither reads nor writes the React state of the
    component: run on a page whose React state was changed, it does what
    it does on the page as it was, and leaves the change in place. *)
Definition Offstage {A} (m : Async A) : Prop :=
  forall (f : State -> State) (w : World),
    m (with_ui f w) =
    {| after := with_ui f (after (m w));
       emitted := emitted (m w);
       outcome := outcome (m w) |}.

(** Effects of a render attempt: a status is one of the labels of its own
    phases, a progress value lies between 0 and 100, and neither the
    form fields nor the attempt counter are written. *)
Definition attempt_event (ev : Event) : Prop :=
  match ev with
  | SetStatus s =>
      In s (map label [Preparing; RenderingFrames; TranscodingAudio;
                       Encoding; Finalizing; Done])
  | SetProgress (Some p) => 0 <= p <= 100
  | SetConfig _ | SetAudioFile _ | SetRetryCount _ => False
  | _ => True
  end.

(** The number of failures a list of status labels adds to a count:
    Idle starts again from zero, Failed adds one. *)
Definition count_failures (labels : list string) (start : Z) : Z :=
  fold_left
    (fun n s =>
       if String.eqb s (label Idle) then 0
       else if String.eqb s (label Failed) then n + 1
       else n)
    labels start.

(** Two React states that differ at most in the form: the configuration
    and the selected audio file. *)
Definition same_job (s1 s2 : State) : Prop :=
  previewUrl s1 = previewUrl s2 /\
  status s1 = status s2 /\
  progress s1 = progress s2 /\
  isGenerating s1 = isGenerating s2 /\
  error s1 = error s2 /\
  retryCount s1 = retryCount s2.

(** The object URLs of a page on which Reset has not been pressed: the
    published one, if any, and then the first [k] of the page, which are
    those made by [load]. *)
Definition Slots (k : nat) (w : World) : Prop :=
  live (registry w) =
    (match previewUrl (ui w) with Some u => [u] | None => [] end
     ++ live (grown k {| next_id := 0; live := [] |}))%list /\
  (k <= next_id (registry w))%nat /\
  (forall i, previewUrl (ui w) = Some (blob_url i) ->
             (k <= i < next_id (registry w))%nat).

(** The effects of an edit of the form. *)
Definition is_form_event (ev : Event) : Prop :=
  match ev with
  | SetConfig _ | SetAudioFile _ => True
  | _ => False
  end.

(** What holds of the page whenever no render is in flight. *)
Record Settled (w : World) : Prop := {
  settled_flag : isGenerating (ui w) = false;
  settled_encoder : ready w = true -> ffmpeg w <> None /\ loading w = false;
  settled_status :
    (status (ui w) = label Idle /\ error (ui w) = None /\ progress (ui w) = None
       /\ previewUrl (ui w) = None /\ retryCount (ui w) = 0) \/
    (status (ui w) = label Done /\ error (ui w) = None /\ progress (ui w) = Some 100
       /\ previewUrl (ui w) <> None) \/
    (status (ui w) = label Failed /\ error (ui w) <> None /\ 0 < retryCount (ui w));
  settled_count : 0 <= retryCount (ui w);
  settled_live :
    forall u, previewUrl (ui w) = Some u -> alive u (registry w) = true;
  settled_fresh :
    forall i, In (blob_url i) (live (registry w)) -> (i < next_id (registry w))%nat
}.

End Plans.

(** The number a string of decimal digits stands for, leading zeros
    allowed; none when another character occurs. *)
Definition unpadded (s : string) : option Z :=
  option_map Z.of_uint (NilEmpty.uint_of_string s).

(* ================================================================== *)
(** * The simulated runtime, continued *)
(* ================================================================== *)

Module SimBoot.

(** The network: the three files of the core can be fetched unless the
    wasm binary is the one asked for and [offline] is set. *)
Definition sim_fetchBlob (offline : bool) (url mime : string) : Outcome Blob :=
  if offline && String.eqb mime "application/wasm"
  then Thrown (ErrorObject "TypeError: Failed to fetch")
  else Returned {| blob_type := mime; blob_data := [] |}.

Definition sim_load (coreURL wasmURL workerURL : ObjectURL) (fs : Sim.FS)
  : Sim.FS * Outcome bool :=
  (fs, Returned true).

Definition online : Bootstrap (rt := Sim.runtime) :=
  @Build_Bootstrap Sim.runtime true ([] : Sim.FS) (sim_fetchBlob false) sim_load.

Definition offline : Bootstrap (rt := Sim.runtime) :=
  @Build_Bootstrap Sim.runtime true ([] : Sim.FS) (sim_fetchBlob true) sim_load.

(** The default clip cut down to two frames, entered in the form. *)
Definition shorten : list Action :=
  [EditConfig K_duration (1 : Q); EditConfig K_fps (2 : Q)].

End SimBoot.

(* ================================================================== *)
(** * Properties of the library functions *)
(* ================================================================== *)

Section Strings.

Lemma prefix_empty (s : string) : prefix "" s = true.
Proof. destruct s; reflexivity. Qed.

Lemma prefix_dot (c : ascii) (s : string) :
  prefix "." (String c s) = if ascii_dec "."%char c then true else false.
Proof.
  change (prefix "." (String c s))
    with (match ascii_dec "."%char c with
          | left _ => prefix "" s
          | right _ => false
          end).
  rewrite prefix_empty. reflexivity.
Qed.

Lemma prefix_dot_dot (s : string) : prefix "." (String "." s) = true.
Proof.
  rewrite prefix_dot. destruct (ascii_dec "."%char "."%char); congruence.
Qed.

Lemma lastIndexOf_from_absent (s : string) :
  forall pos, JS.includes s "." = false -> JS.lastIndexOf_from pos s "." = -1.
Proof.
  induction s as [| c s IH]; intros pos H.
  - reflexivity.
  - cbn [JS.includes] in H. apply orb_false_iff in H as [Hc Hs].
    cbn [JS.lastIndexOf_from]. rewrite (IH (pos + 1) Hs), Hc. reflexivity.
Qed.

Lemma includes_dot_app (stem ext : string) :
  JS.includes (stem ++ "." ++ ext) "." = true.
Proof.
  induction stem as [| c stem IH].
  - change (JS.includes (String "." ext) "." = true).
    cbn [JS.includes]. rewrite prefix_dot_dot. reflexivity.
  - change (JS.includes (String c (stem ++ "." ++ ext)) "." = true).
    cbn [JS.includes]. rewrite IH. apply orb_true_r.
Qed.

Lemma lastIndexOf_from_last_dot (stem ext : string) :
  JS.includes ext "." = false ->
  forall pos, 0 <= pos ->
  JS.lastIndexOf_from pos (stem ++ "." ++ ext) "." = pos + Z.of_nat (String.length stem).
Proof.
  intros Hext. induction stem as [| c stem IH]; intros pos Hpos.
  - change (JS.lastIndexOf_from pos (String "." ext) "." = pos + 0).
    cbn [JS.lastIndexOf_from].
    rewrite (lastIndexOf_from_absent ext (pos + 1) Hext), prefix_dot_dot.
    change (0 <=? -1) with false. cbv iota. lia.
  - change (JS.lastIndexOf_from pos (String c (stem ++ "." ++ ext)) "."
            = pos + Z.of_nat (S (String.length stem))).
    cbn [JS.lastIndexOf_from].
    rewrite (IH (pos + 1)) by lia.
    destruct (0 <=? pos + 1 + Z.of_nat (String.length stem)) eqn:E.
    + lia.
    + apply Z.leb_gt in E. lia.
Qed.

Lemma drop_app_length (stem rest : string) :
  JS.drop (String.length stem) (stem ++ rest) = rest.
Proof.
  induction stem as [| c stem IH]; [reflexivity | exact IH].
Qed.

Lemma length_app (a b : string) :
  String.length (a ++ b) = (String.length a + String.length b)%nat.
Proof.
  induction a as [| c a IH]; simpl; [reflexivity | now rewrite IH].
Qed.

Lemma slice_at_stem (stem rest : string) :
  JS.slice (stem ++ rest) (Z.of_nat (String.length stem)) = rest.
Proof.
  unfold JS.slice.
  destruct (Z.of_nat (String.length stem) <? 0) eqn:E.
  - apply Z.ltb_lt in E. lia.
  - rewrite length_app, Z.min_l by lia.
    rewrite Nat2Z.id. apply drop_app_length.
Qed.

(** Every name either has no dot or splits at its last dot. *)
Lemma split_at_last_dot (s : string) :
  JS.includes s "." = false \/
  exists stem ext, s = stem ++ "." ++ ext /\ JS.includes ext "." = false.
Proof.
  induction s as [| c s IH].
  - left. reflexivity.
  - destruct IH as [Hno | (stem & ext & -> & Hext)].
    + destruct (ascii_dec "."%char c) as [<- | Hc].
      * right. exists "", s. split; [reflexivity | exact Hno].
      * left. cbn [JS.includes]. rewrite Hno, prefix_dot.
        destruct (ascii_dec "."%char c); [contradiction | reflexivity].
    + right. exists (String c stem), ext. split; [reflexivity | exact Hext].
Qed.

(** [includes] finds exactly the occurrences of the dot. *)
Lemma includes_dot_iff (s : string) :
  JS.includes s "." = true <-> exists a b, s = a ++ "." ++ b.
Proof.
  split.
  - induction s as [| c s IH]; intros H.
    + discriminate.
    + cbn [JS.includes] in H. apply orb_true_iff in H as [H | H].
      * rewrite prefix_dot in H. destruct (ascii_dec "."%char c) as [<- |]; [| discriminate].
        exists "", s. reflexivity.
      * destruct (IH H) as (a & b & ->). exists (String c a), b. reflexivity.
  - intros (a & b & ->). apply includes_dot_app.
Qed.

End Strings.

(* ================================================================== *)
(** * The staged audio file name *)
(* ================================================================== *)

(** C6.  The staged audio name is [audio_input] followed by the part of
    the original file name that starts at its last dot, with the case of
    the extension kept as it is; it is [audio_input.mp3] when the original
    name has no dot. *)
Theorem audioInputName_extension (f : File) :
  (forall stem ext,
      name f = stem ++ "." ++ ext ->
      JS.includes ext "." = false ->
      audioInputName (Some f) = Some ("audio_input" ++ "." ++ ext)) /\
  (JS.includes (name f) "." = false ->
      audioInputName (Some f) = Some "audio_input.mp3").
Proof.
  split.
  - intros stem ext Hname Hext. unfold audioInputName, JS.lastIndexOf.
    rewrite Hname, includes_dot_app.
    rewrite (lastIndexOf_from_last_dot stem ext Hext 0) by lia.
    rewrite Z.add_0_l, slice_at_stem. reflexivity.
  - intros Hno. unfold audioInputName. rewrite Hno. reflexivity.
Qed.

Lemma audioInputName_extension_witness :
  audioInputName (Some Sim.song) = Some "audio_input.WAV" /\
  audioInputName
    (Some {| name := "track"; file_blob := file_blob Sim.song |}) = Some "audio_input.mp3".
Proof.
  split.
  - apply (proj1 (audioInputName_extension Sim.song) "song" "WAV");
      reflexivity.
  - apply (proj2 (audioInputName_extension
             {| name := "track"; file_blob := file_blob Sim.song |}));
      reflexivity.
Defined.

(* ================================================================== *)
(** * Running asynchronous computations step by step *)
(* ================================================================== *)

(** Normalises a world written with the update functions to its fields. *)
Ltac norm_world :=
  cbv beta iota delta
      [with_ui with_ffmpeg with_registry ui ffmpeg ready loading registry
       State_config State_audioFile State_previewUrl State_status State_progress
       State_isGenerating State_error State_retryCount
       config audioFile previewUrl status progress isGenerating error retryCount
       next_id live].

Section Execution.

Context {rt : Runtime}.

Lemma bind_returned {A B} (m : Async A) (k : A -> Async B) w w1 evs a :
  m w = {| after := w1; emitted := evs; outcome := Returned a |} ->
  bind m k w = prepend evs (k a w1).
Proof.
  intros H. unfold bind, prepend. rewrite H. reflexivity.
Qed.

Lemma bind_thrown {A B} (m : Async A) (k : A -> Async B) w w1 evs x :
  m w = {| after := w1; emitted := evs; outcome := Thrown x |} ->
  bind m k w = {| after := w1; emitted := evs; outcome := Thrown x |}.
Proof.
  intros H. unfold bind. rewrite H. reflexivity.
Qed.

Lemma bind_assoc {A B C} (m : Async A) (f : A -> Async B) (k : B -> Async C) w :
  bind (bind m f) k w = bind m (fun a => bind (f a) k) w.
Proof.
  unfold bind. destruct (outcome (m w)) as [a | x]; cbn [outcome after emitted].
  - destruct (outcome (f a (after (m w)))); cbn [outcome after emitted];
      rewrite ?app_assoc; reflexivity.
  - reflexivity.
Qed.

Lemma bind_set_state {B} ev f (k : unit -> Async B) w :
  bind (set_state ev f) k w = prepend [ev] (k tt (with_ui f w)).
Proof. reflexivity. Qed.

Lemma bind_emit {B} ev (k : unit -> Async B) w :
  bind (emit ev) k w = prepend [ev] (k tt w).
Proof. reflexivity. Qed.

Lemma prepend_nil {A} (r : Run A) : prepend [] r = r.
Proof. destruct r. reflexivity. Qed.

Lemma bind_ret {A B} (a : A) (k : A -> Async B) w :
  bind (ret a) k w = k a w.
Proof. rewrite (bind_returned _ _ _ w [] a eq_refl). apply prepend_nil. Qed.

Lemma bind_get {A B} (f : World -> A) (k : A -> Async B) w :
  bind (get f) k w = k (f w) w.
Proof. rewrite (bind_returned _ _ _ w [] (f w) eq_refl). apply prepend_nil. Qed.

Lemma bind_of_outcome {A B} (o : Outcome A) (k : A -> Async B) w :
  bind (of_outcome o) k w =
  match o with
  | Returned a => k a w
  | Thrown x => {| after := w; emitted := []; outcome := Thrown x |}
  end.
Proof.
  destruct o as [a | x].
  - rewrite (bind_returned _ _ _ w [] a eq_refl). apply prepend_nil.
  - reflexivity.
Qed.

Lemma bind_call {A B} ev (method : Encoder -> Encoder * Outcome A)
    (k : A -> Async B) s e rd ld g :
  bind (call ev method) k (Build_World s (Some e) rd ld g) =
  let (e', o) := method e in
  match o with
  | Returned a => prepend [ev] (k a (Build_World s (Some e') rd ld g))
  | Thrown x =>
      {| after := Build_World s (Some e') rd ld g; emitted := [ev]; outcome := Thrown x |}
  end.
Proof.
  unfold bind, call, prepend. cbn [ffmpeg].
  destruct (method e) as [e' [a | x]]; reflexivity.
Qed.

Lemma call_run {A} ev (method : Encoder -> Encoder * Outcome A) s e rd ld g :
  call ev method (Build_World s (Some e) rd ld g) =
  {| after := Build_World s (Some (fst (method e))) rd ld g;
     emitted := [ev];
     outcome := snd (method e) |}.
Proof.
  unfold call. cbn [ffmpeg]. destruct (method e); reflexivity.
Qed.

Lemma bind_createObjectURL {B} b (k : ObjectURL -> Async B) w :
  bind (createObjectURL b) k w =
  prepend [CreateObjectURL (blob_url (next_id (registry w)))]
    (k (blob_url (next_id (registry w)))
       (with_registry {| next_id := S (next_id (registry w));
                         live := blob_url (next_id (registry w)) :: live (registry w) |} w)).
Proof. reflexivity. Qed.

Lemma bind_revokeObjectURL {B} u (k : unit -> Async B) w :
  bind (revokeObjectURL u) k w =
  prepend [RevokeObjectURL u]
    (k tt (with_registry
             {| next_id := next_id (registry w);
                live := filter (fun v => negb (ObjectURL_eqb v u)) (live (registry w)) |} w)).
Proof. reflexivity. Qed.

Lemma prepend_record {A} evs1 w evs2 (o : Outcome A) :
  prepend evs1 {| after := w; emitted := evs2; outcome := o |} =
  {| after := w; emitted := evs1 ++ evs2; outcome := o |}.
Proof. reflexivity. Qed.

Lemma prepend_prepend {A} evs1 evs2 (r : Run A) :
  prepend evs1 (prepend evs2 r) = prepend (evs1 ++ evs2) r.
Proof. unfold prepend. cbn. now rewrite app_assoc. Qed.

(** A swallowed deletion always completes, whatever the encoder answers. *)
Lemma swallow_deleteFile_run path s e rd ld g :
  exists e',
    swallow (deleteFile path) (Build_World s (Some e) rd ld g) =
    {| after := Build_World s (Some e') rd ld g;
       emitted := [DeleteFile path];
       outcome := Returned tt |}.
Proof.
  unfold swallow, try_catch, deleteFile. rewrite call_run. cbn [outcome after emitted].
  destruct (ffmpeg_deleteFile path e) as [e' [[] | x]]; cbn [fst snd];
    exists e'; reflexivity.
Qed.

(** ** Loops *)

(** More fuel than the distance to the bound changes nothing. *)
Lemma for_from_enough (body : Z -> Async unit) (bound : Z) :
  forall fuel i w,
    (Z.to_nat (bound - i) <= fuel)%nat ->
    for_from fuel i bound body w = for_from (Z.to_nat (bound - i)) i bound body w.
Proof.
  induction fuel as [| fuel IH]; intros i w Hfuel.
  - replace (Z.to_nat (bound - i)) with 0%nat by lia. reflexivity.
  - cbn [for_from]. destruct (i <? bound) eqn:E.
    + apply Z.ltb_lt in E.
      replace (Z.to_nat (bound - i)) with (S (Z.to_nat (bound - (i + 1)))) by lia.
      cbn [for_from]. apply Z.ltb_lt in E. rewrite E.
      unfold bind. destruct (outcome (body i w)); [| reflexivity].
      rewrite IH by lia. reflexivity.
    + apply Z.ltb_ge in E.
      replace (Z.to_nat (bound - i)) with 0%nat by lia. reflexivity.
Qed.

(** The fuel [for_upto] gives its loop is enough: more changes nothing. *)
Lemma for_upto_fuel_adequate (body : Z -> Async unit) (bound : Z) (fuel : nat) w :
  (Z.to_nat bound <= fuel)%nat ->
  for_from fuel 0 bound body w = for_upto bound body w.
Proof.
  intros H. unfold for_upto.
  rewrite (for_from_enough body bound fuel 0 w) by (rewrite Z.sub_0_r; exact H).
  rewrite Z.sub_0_r. reflexivity.
Qed.

(** The cleanup loop completes and only deletes. *)
Lemma cleanup_loop_run (bound : Z) (path : Z -> string) :
  forall fuel i s e rd ld g,
  exists e' dels,
    for_from fuel i bound (fun i => swallow (deleteFile (path i)))
      (Build_World s (Some e) rd ld g) =
    {| after := Build_World s (Some e') rd ld g; emitted := dels; outcome := Returned tt |}
    /\ Forall is_delete dels.
Proof.
  induction fuel as [| fuel IH]; intros i s e rd ld g.
  - exists e, []. split; [reflexivity | constructor].
  - cbn [for_from]. destruct (i <? bound).
    + destruct (swallow_deleteFile_run (path i) s e rd ld g) as [e1 H1].
      rewrite (bind_returned _ _ _ _ _ _ H1).
      destruct (IH (i + 1) s e1 rd ld g) as (e' & dels & H2 & Hdels).
      rewrite H2. exists e', (DeleteFile (path i) :: dels). split.
      * reflexivity.
      * constructor; [exact I | exact Hdels].
    + exists e, []. split; [reflexivity | constructor].
Qed.

(** One call of the frame callback: it writes the frame and, when it
    completes, reports the progress computed from the index. *)
Lemma onFrame_run (T i : Z) (blob : Blob) c a u st p ig er rc e rd ld g :
  exists e' p' evs o,
    onFrame T i blob (Build_World (Build_State c a u st p ig er rc) (Some e) rd ld g) =
    {| after := Build_World (Build_State c a u st p' ig er rc) (Some e') rd ld g;
       emitted := evs;
       outcome := o |}
    /\ Forall is_frame_event evs
    /\ frames evs = []
    /\ (o = Returned tt -> progress_values evs = [reported_progress T i]).
Proof.
  unfold onFrame. rewrite bind_of_outcome.
  destruct (fetchFile blob) as [data | x].
  - unfold writeFile. rewrite bind_call.
    destruct (ffmpeg_writeFile (frameFileName i) data e) as [e1 [[] | x]].
    + exists e1, (Some (reported_progress T i)),
        [WriteFile (frameFileName i) data; SetProgress (Some (reported_progress T i))],
        (Returned tt).
      repeat split; try reflexivity. repeat constructor.
    + exists e1, p, [WriteFile (frameFileName i) data], (Thrown x).
      repeat split; try reflexivity; try discriminate. repeat constructor.
  - exists e, p, [], (Thrown x).
    repeat split; try reflexivity; try discriminate. constructor.
Qed.

Lemma frames_app (evs1 evs2 : list Event) :
  frames (evs1 ++ evs2) = (frames evs1 ++ frames evs2)%list.
Proof. apply flat_map_app. Qed.

Lemma progress_values_app (evs1 evs2 : list Event) :
  progress_values (evs1 ++ evs2) = (progress_values evs1 ++ progress_values evs2)%list.
Proof. apply flat_map_app. Qed.

(** The frame loop: frames are handed over in increasing order from the
    start index; when the loop completes, all of them were, and the
    progress reported after each is the one computed from its index. *)
Lemma frames_loop_run (cfg : VideoConfig) (T : Z) :
  forall fuel i c a u st p ig er rc e rd ld g,
    (fuel = 0%nat \/ i + Z.of_nat fuel <= T) ->
    exists e' p' evs o k,
      for_from fuel i T
        (fun index =>
           emit (OnFrame index) ;;
           onFrame T index (renderFrame cfg index T))
        (Build_World (Build_State c a u st p ig er rc) (Some e) rd ld g) =
      {| after := Build_World (Build_State c a u st p' ig er rc) (Some e') rd ld g;
         emitted := evs;
         outcome := o |}
      /\ Forall is_frame_event evs
      /\ frames evs = Zrange i k
      /\ (k <= fuel)%nat
      /\ (o = Returned tt ->
          k = fuel /\ progress_values evs = map (reported_progress T) (Zrange i fuel)).
Proof.
  induction fuel as [| fuel IH]; intros i c a u st p ig er rc e rd ld g Hfuel.
  - exists e, p, [], (Returned tt), 0%nat.
    repeat split; try reflexivity; constructor.
  - destruct Hfuel as [Hfuel | Hfuel]; [discriminate |].
    cbn [for_from]. replace (i <? T) with true by (symmetry; apply Z.ltb_lt; lia).
    rewrite bind_assoc, bind_emit. cbv beta.
    + destruct (onFrame_run T i (renderFrame cfg i T) c a u st p ig er rc e rd ld g)
        as (e1 & p1 & evs1 & o1 & H1 & Hev1 & Hfr1 & Hpr1).
      destruct o1 as [[] | x].
      * rewrite (bind_returned _ _ _ _ _ _ H1).
        destruct (IH (i + 1) c a u st p1 ig er rc e1 rd ld g)
          as (e2 & p2 & evs2 & o2 & k2 & H2 & Hev2 & Hfr2 & Hk2 & Hok2);
          [right; lia |].
        rewrite H2. exists e2, p2, (OnFrame i :: evs1 ++ evs2), o2, (S k2).
        split; [reflexivity |]. split; [| split; [| split]].
        -- constructor; [exact I |]. apply Forall_app. split; assumption.
        -- change (frames (OnFrame i :: evs1 ++ evs2))
             with (i :: frames (evs1 ++ evs2)).
           rewrite frames_app, Hfr1, Hfr2. reflexivity.
        -- lia.
        -- intros Ho. destruct (Hok2 Ho) as [-> Hp2]. split; [reflexivity |].
           change (progress_values (OnFrame i :: evs1 ++ evs2))
             with (progress_values (evs1 ++ evs2)).
           rewrite progress_values_app, (Hpr1 eq_refl), Hp2. reflexivity.
      * rewrite (bind_thrown _ _ _ _ _ _ H1).
        exists e1, p1, (OnFrame i :: evs1), (Thrown x), 1%nat.
        split; [reflexivity |]. split; [| split; [| split]].
        -- constructor; [exact I | exact Hev1].
        -- change (frames (OnFrame i :: evs1)) with (i :: frames evs1).
           rewrite Hfr1. reflexivity.
        -- lia.
        -- discriminate.
Qed.

(** ** The stages of [generateVideo] *)

(** The frame stage as a whole: nothing at all when there is no frame to
    produce, else the check of the configuration and then the loop. *)
Lemma frames_stage_run (cfg : VideoConfig) (T : Z) c a u st p ig er rc e rd ld g :
  exists e' p' evs o k,
    generateFrames cfg T padLength (onFrame T)
      (Build_World (Build_State c a u st p ig er rc) (Some e) rd ld g) =
    {| after := Build_World (Build_State c a u st p' ig er rc) (Some e') rd ld g;
       emitted := evs;
       outcome := o |}
    /\ Forall is_frame_event evs
    /\ frames evs = Zrange 0 k
    /\ (k <= Z.to_nat T)%nat
    /\ (o = Returned tt ->
        k = Z.to_nat T /\
        progress_values evs = map (reported_progress T) (Zrange 0 (Z.to_nat T))).
Proof.
  unfold generateFrames. destruct (T <=? 0) eqn:E.
  - apply Z.leb_le in E. exists e, p, [], (Returned tt), 0%nat.
    replace (Z.to_nat T) with 0%nat by lia.
    repeat split; try reflexivity; constructor.
  - apply Z.leb_gt in E. rewrite bind_of_outcome.
    destruct (checkConfig cfg) as [[] | x].
    + unfold for_upto. apply frames_loop_run. right. lia.
    + exists e, p, [], (Thrown x), 0%nat.
      split; [reflexivity |]. split; [constructor |]. split; [reflexivity |].
      split; [lia | discriminate].
Qed.

Lemma audioInputName_truthy (f : File) :
  exists rest, audioInputName (Some f) = Some (String "a" rest).
Proof. eexists. reflexivity. Qed.

Lemma audio_cleanup_run (audio : option File) s e rd ld g :
  exists e' dels,
    JS.if_truthy (audioInputName audio) (fun a => swallow (deleteFile a)) (ret tt)
      (Build_World s (Some e) rd ld g) =
    {| after := Build_World s (Some e') rd ld g; emitted := dels; outcome := Returned tt |}
    /\ Forall is_delete dels.
Proof.
  destruct audio as [f |].
  - destruct (audioInputName_truthy f) as [rest ->]. cbn [JS.if_truthy].
    destruct (swallow_deleteFile_run (String "a" rest) s e rd ld g) as [e' ->].
    exists e', [DeleteFile (String "a" rest)]. split; [reflexivity | repeat constructor].
  - exists e, []. split; [reflexivity | constructor].
Qed.

Lemma audio_stage_run (audio : option File) (argv : list string)
    c a u st p ig er rc e rd ld g :
  exists e' st' evs o,
    JS.if_truthy (audioInputName audio)
      (fun a0 =>
         match audio with
         | Some f =>
             setStatus "Transcoding audio" ;;
             audioData <- of_outcome (fetchFile (file_blob f)) ;;
             writeFile a0 audioData
         | None => ret tt
         end)
      (ret tt)
      (Build_World (Build_State c a u st p ig er rc) (Some e) rd ld g) =
    {| after := Build_World (Build_State c a u st' p ig er rc) (Some e') rd ld g;
       emitted := evs;
       outcome := o |}
    /\ Forall (is_quiet argv) evs
    /\ (o = Returned tt -> exists data, evs = audio_events audio data).
Proof.
  destruct audio as [f |].
  - unfold audio_events. destruct (audioInputName_truthy f) as [rest ->].
    cbn [JS.if_truthy]. unfold setStatus. rewrite bind_set_state. norm_world.
    rewrite bind_of_outcome.
    destruct (fetchFile (file_blob f)) as [data | x].
    + unfold writeFile. rewrite call_run.
      exists (fst (ffmpeg_writeFile (String "a" rest) data e)), "Transcoding audio",
        [SetStatus "Transcoding audio"; WriteFile (String "a" rest) data],
        (snd (ffmpeg_writeFile (String "a" rest) data e)).
      split; [reflexivity |]. split; [repeat constructor |].
      intros _. exists data. reflexivity.
    + exists e, "Transcoding audio", [SetStatus "Transcoding audio"], (Thrown x).
      split; [reflexivity |]. split; [repeat constructor | discriminate].
  - exists e, st, [], (Returned tt).
    split; [reflexivity |]. split; [constructor |].
    intros _. exists []. reflexivity.
Qed.

Lemma AttemptRun_eq cfg audio w (r r' : Run unit) :
  AttemptRun cfg audio w r -> r = r' -> AttemptRun cfg audio w r'.
Proof. intros H <-. exact H. Qed.

Lemma quiet_of_delete argv (evs : list Event) :
  Forall is_delete evs -> Forall (is_quiet argv) evs.
Proof.
  apply Forall_impl. intros [] H; try contradiction; exact I.
Qed.

Lemma quiet_of_frame_event argv (evs : list Event) :
  Forall is_frame_event evs -> Forall (is_quiet argv) evs.
Proof.
  apply Forall_impl. intros [] H; try contradiction; exact I.
Qed.

Ltac quiet :=
  repeat first
    [ apply Forall_nil
    | assumption
    | apply quiet_of_delete; assumption
    | apply quiet_of_frame_event; assumption
    | apply Forall_cons; [first [exact I | reflexivity] |]
    | apply Forall_app; split ].

Ltac failed :=
  rewrite !prepend_record; cbn [app];
  apply attempt_failed; quiet.

Lemma attempt_run (cfg : VideoConfig) (audio : option File) (w : World) (e : Encoder) :
  ffmpeg w = Some e ->
  AttemptRun cfg audio w (attempt cfg audio w).
Proof.
  destruct w as [[c a u st p ig er rc] f rd ld [nid lv]]. cbn [ffmpeg]. intros ->.
  unfold attempt, setIsGenerating, setError, setProgress, setStatus.
  repeat (rewrite bind_set_state; norm_world).
  destruct (swallow_deleteFile_run "output.mp4"
              (Build_State c a u "Preparing workspace" None true None rc) e rd ld
              (Build_Registry nid lv))
    as [e1 H1].
  rewrite (bind_returned _ _ _ _ _ _ H1); clear H1.
  unfold for_upto.
  destruct (cleanup_loop_run (totalFrames cfg) frameFileName
              (Z.to_nat (totalFrames cfg)) 0
              (Build_State c a u "Preparing workspace" None true None rc) e1 rd ld
              (Build_Registry nid lv))
    as (e2 & dels2 & H2 & Hdels2).
  rewrite (bind_returned _ _ _ _ _ _ H2); clear H2.
  destruct (audio_cleanup_run audio
              (Build_State c a u "Preparing workspace" None true None rc) e2 rd ld
              (Build_Registry nid lv))
    as (e3 & dels3 & H3 & Hdels3).
  rewrite (bind_returned _ _ _ _ _ _ H3); clear H3.
  rewrite bind_set_state; norm_world.
  destruct (frames_stage_run cfg (totalFrames cfg)
              c a u "Rendering frames" None true None rc e3 rd ld
              (Build_Registry nid lv))
    as (e4 & p4 & fevs & o4 & k4 & H4 & Hfevs & Hframes & Hk4 & Hok4).
  destruct o4 as [[] | x].
  2:{ rewrite (bind_thrown _ _ _ _ _ _ H4). failed. }
  rewrite (bind_returned _ _ _ _ _ _ H4); clear H4.
  destruct (Hok4 eq_refl) as [-> Hprog]; clear Hok4 Hk4.
  destruct (audio_stage_run audio (command cfg (audioInputName audio))
              c a u "Rendering frames" p4 true None rc e4 rd ld
              (Build_Registry nid lv))
    as (e5 & st5 & aevs & o5 & H5 & Haevs & Hok5).
  destruct o5 as [[] | x].
  2:{ rewrite (bind_thrown _ _ _ _ _ _ H5). failed. }
  rewrite (bind_returned _ _ _ _ _ _ H5); clear H5.
  destruct (Hok5 eq_refl) as [data ->]; clear Hok5.
  rewrite bind_set_state; norm_world.
  unfold exec. rewrite bind_call.
  destruct (ffmpeg_exec (command cfg (audioInputName audio)) e5) as [e6 [code | x]].
  2:{ failed. }
  repeat (rewrite bind_set_state; norm_world).
  unfold readFile. rewrite bind_call.
  destruct (ffmpeg_readFile "output.mp4" e6) as [e7 [outputData | x]].
  2:{ failed. }
  cbv beta. rewrite bind_createObjectURL; norm_world.
  unfold setPreviewUrl_with. rewrite bind_assoc, bind_get; norm_world.
  rewrite !bind_assoc.
  destruct u as [old |].
  - rewrite bind_revokeObjectURL; norm_world. rewrite bind_ret.
    unfold setPreviewUrl. repeat (rewrite bind_set_state; norm_world).
    unfold set_state; norm_world.
    eapply AttemptRun_eq.
    + apply (attempt_done cfg audio _ e7 (DeleteFile "output.mp4" :: dels2 ++ dels3)
               fevs data); try assumption.
      constructor; [exact I |]. apply Forall_app. split; assumption.
    + rewrite !prepend_record. unfold replaced, revoke_events.
      cbn [ui registry previewUrl next_id live config
           audioFile retryCount ready loading].
      f_equal. cbn [app]. rewrite <- !app_assoc. reflexivity.
  - rewrite bind_ret. rewrite bind_ret.
    unfold setPreviewUrl. repeat (rewrite bind_set_state; norm_world).
    unfold set_state; norm_world.
    eapply AttemptRun_eq.
    + apply (attempt_done cfg audio _ e7 (DeleteFile "output.mp4" :: dels2 ++ dels3)
               fevs data); try assumption.
      constructor; [exact I |]. apply Forall_app. split; assumption.
    + rewrite !prepend_record. unfold replaced, revoke_events.
      cbn [ui registry previewUrl next_id live config
           audioFile retryCount ready loading].
      f_equal. cbn [app]. rewrite <- !app_assoc. reflexivity.
Qed.

End Execution.

(* ================================================================== *)
(** * The progress reported while frames are rendered *)
(* ================================================================== *)

Section Progress.

Lemma reported_progress_mono (T i j : Z) :
  0 < T -> i <= j -> reported_progress T i <= reported_progress T j.
Proof.
  intros HT Hij. unfold reported_progress, JS.Math_round.
  apply Qfloor_resp_le. apply Qplus_le_l.
  apply Qmult_le_compat_r; [| discriminate].
  unfold Qdiv. apply Qmult_le_compat_r.
  - rewrite <- Zle_Qle. lia.
  - apply Qinv_le_0_compat. change 0%Q with (inject_Z 0). rewrite <- Zle_Qle. lia.
Qed.

Lemma reported_progress_upper (T i : Z) :
  0 < T -> i + 1 <= T -> reported_progress T i <= 50.
Proof.
  intros HT Hi. unfold reported_progress, JS.Math_round.
  apply Z.le_trans with (Qfloor (50 + (1 # 2))); [| apply Z.leb_le; reflexivity].
  apply Qfloor_resp_le. apply Qplus_le_l.
  assert (Hq : (inject_Z (i + 1) / inject_Z T <= 1)%Q).
  { apply Qle_shift_div_r.
    - change 0%Q with (inject_Z 0). rewrite <- Zlt_Qlt. exact HT.
    - rewrite Qmult_1_l. rewrite <- Zle_Qle. exact Hi. }
  generalize dependent (inject_Z (i + 1) / inject_Z T)%Q. intros q Hq. lra.
Qed.

(** The last frame brings the progress to the end of its range. *)
Lemma reported_progress_last (T : Z) :
  0 < T -> reported_progress T (T - 1) = 50.
Proof.
  intros HT. unfold reported_progress, JS.Math_round.
  replace (T - 1 + 1) with T by lia.
  transitivity (Qfloor (50 + (1 # 2))); [| reflexivity].
  apply Qfloor_comp. unfold Qdiv. rewrite Qmult_inv_r; [reflexivity |].
  intros H. unfold Qeq in H. cbn in H. lia.
Qed.

Lemma Zrange_In (k : nat) : forall start j, In j (Zrange start k) -> start <= j < start + Z.of_nat k.
Proof.
  induction k as [| k IH]; intros start j H.
  - contradiction.
  - cbn [Zrange] in H. destruct H as [<- | H]; [lia |].
    apply IH in H. lia.
Qed.


(** The values reported for the frames, followed by the two checkpoints,
    never decrease. *)
Lemma progress_sorted (T : Z) (k : nat) :
  forall i, 0 <= i -> Z.of_nat k = 0 \/ i + Z.of_nat k <= T ->
  StronglySorted Z.le (map (reported_progress T) (Zrange i k) ++ [90; 100]).
Proof.
  induction k as [| k IH]; intros i Hi0 Hi.
  - repeat constructor; lia.
  - destruct Hi as [Hi | Hi]; [lia |].
    cbn [Zrange map app]. constructor.
    + apply IH; lia.
    + apply Forall_forall. intros v Hv. apply in_app_or in Hv as [Hv | Hv].
      * apply in_map_iff in Hv as (j & <- & Hj). apply Zrange_In in Hj.
        apply reported_progress_mono; lia.
      * assert (reported_progress T i <= 50) by (apply reported_progress_upper; lia).
        destruct Hv as [<- | [<- | []]]; lia.
Qed.

End Progress.

(* ================================================================== *)
(** * The outcome of a render attempt *)
(* ================================================================== *)

Section Outcomes.

Context {rt : Runtime}.

Lemma generateVideo_unfold (w : World) (e : Encoder) :
  ffmpeg w = Some e ->
  generateVideo w = finish (attempt (config (ui w)) (audioFile (ui w)) w).
Proof.
  intros H. unfold generateVideo. rewrite H.
  unfold try_finally, try_catch, finish.
  destruct (attempt (config (ui w)) (audioFile (ui w)) w) as [w1 evs [[] | x]].
  - reflexivity.
  - cbn [outcome after emitted]. unfold onFailure.
    rewrite bind_get. unfold setRetryCount, setError. rewrite !bind_set_state.
    cbn [prepend setStatus setIsGenerating set_state outcome after emitted].
    f_equal. rewrite <- app_assoc. reflexivity.
Qed.

Lemma generateVideo_not_ready (w : World) :
  ffmpeg w = None ->
  generateVideo w =
  {| after := with_ui (State_error (Some not_ready_message)) w;
     emitted := [SetError (Some not_ready_message)];
     outcome := Returned tt |}.
Proof.
  intros H. unfold generateVideo. rewrite H. reflexivity.
Qed.

Lemma flat_map_Forall_nil {A B} (P : A -> Prop) (f : A -> list B) (l : list A) :
  (forall a, P a -> f a = []) -> Forall P l -> flat_map f l = [].
Proof.
  intros Hf H. induction H as [| a l Ha _ IH]; cbn [flat_map].
  - reflexivity.
  - rewrite (Hf a Ha), IH. reflexivity.
Qed.

Lemma statuses_app (evs1 evs2 : list Event) :
  statuses (evs1 ++ evs2) = (statuses evs1 ++ statuses evs2)%list.
Proof. apply flat_map_app. Qed.

Lemma execs_app (evs1 evs2 : list Event) :
  execs (evs1 ++ evs2) = (execs evs1 ++ execs evs2)%list.
Proof. apply flat_map_app. Qed.

Lemma generating_flags_app (evs1 evs2 : list Event) :
  generating_flags (evs1 ++ evs2) = (generating_flags evs1 ++ generating_flags evs2)%list.
Proof. apply flat_map_app. Qed.

Lemma published_app (evs1 evs2 : list Event) :
  published (evs1 ++ evs2) = (published evs1 ++ published evs2)%list.
Proof. apply flat_map_app. Qed.

Lemma revoked_app (evs1 evs2 : list Event) :
  revoked (evs1 ++ evs2) = (revoked evs1 ++ revoked evs2)%list.
Proof. apply flat_map_app. Qed.

Lemma statuses_delete evs : Forall is_delete evs -> statuses evs = [].
Proof. apply flat_map_Forall_nil. intros [] H; try contradiction; reflexivity. Qed.

Lemma statuses_frame_event evs : Forall is_frame_event evs -> statuses evs = [].
Proof.
  apply flat_map_Forall_nil. intros [] H; try contradiction; try reflexivity.
Qed.

Lemma progress_values_delete evs : Forall is_delete evs -> progress_values evs = [].
Proof. apply flat_map_Forall_nil. intros [] H; try contradiction; reflexivity. Qed.


Lemma execs_delete evs : Forall is_delete evs -> execs evs = [].
Proof. apply flat_map_Forall_nil. intros [] H; try contradiction; reflexivity. Qed.

Lemma execs_frame_event evs : Forall is_frame_event evs -> execs evs = [].
Proof.
  apply flat_map_Forall_nil. intros [] H; try contradiction; try reflexivity.
Qed.

Lemma generating_flags_quiet argv evs :
  Forall (is_quiet argv) evs -> generating_flags evs = [].
Proof. apply flat_map_Forall_nil. intros [] H; try contradiction; reflexivity. Qed.

Lemma published_quiet argv evs : Forall (is_quiet argv) evs -> published evs = [].
Proof. apply flat_map_Forall_nil. intros [] H; try contradiction; reflexivity. Qed.

Lemma revoked_quiet argv evs : Forall (is_quiet argv) evs -> revoked evs = [].
Proof. apply flat_map_Forall_nil. intros [] H; try contradiction; reflexivity. Qed.

Lemma execs_quiet argv evs :
  Forall (is_quiet argv) evs -> forall a, In a (execs evs) -> a = argv.
Proof.
  intros H. induction H as [| ev evs Hev _ IH]; intros a Ha.
  - contradiction.
  - unfold execs in Ha, IH. cbn [flat_map] in Ha.
    apply in_app_or in Ha as [Ha | Ha]; [| exact (IH a Ha)].
    destruct ev; try contradiction. destruct Ha as [<- | []]. exact Hev.
Qed.

Lemma statuses_audio_events (audio : option File) (data : Bytes) :
  statuses (audio_events audio data) =
  match audio with
  | Some _ => ["Transcoding audio"]
  | None => []
  end.
Proof. destruct audio; reflexivity. Qed.

Lemma progress_values_audio_events (audio : option File) (data : Bytes) :
  progress_values (audio_events audio data) = [].
Proof. destruct audio; reflexivity. Qed.


Lemma execs_audio_events (audio : option File) (data : Bytes) :
  execs (audio_events audio data) = [].
Proof. destruct audio; reflexivity. Qed.

Lemma last_app_two (l : list Z) (a b d : Z) : last (l ++ [a; b]) d = b.
Proof.
  induction l as [| x l IH]; [reflexivity |].
  cbn [app]. destruct (l ++ [a; b])%list eqn:E.
  - destruct l; discriminate.
  - rewrite <- IH. reflexivity.
Qed.

(** C1.  A render attempt whose [try] block completes shows the labels of
    Preparing, RenderingFrames, Encoding, Finalizing and Done in that
    order (with the audio label between the second and the third when a
    file is selected, and no other label); the numeric progress values it
    reports never decrease and end with 100; and it leaves the status at
    Done and the progress at 100. *)
Theorem successful_attempt_phases (w : World) (e : Encoder) :
  ffmpeg w = Some e ->
  outcome (attempt (config (ui w)) (audioFile (ui w)) w) = Returned tt ->
  let r := generateVideo w in
  subsequence
    (map label [Preparing; RenderingFrames; Encoding; Finalizing; Done])
    (statuses (emitted r)) = true /\
  statuses (emitted r) =
    ([label Preparing; label RenderingFrames]
     ++ match audioFile (ui w) with
        | Some _ => [label TranscodingAudio]
        | None => []
        end
     ++ [label Encoding; label Finalizing; label Done])%list /\
  StronglySorted Z.le (progress_values (emitted r)) /\
  last (progress_values (emitted r)) 0 = 100 /\
  status (ui (after r)) = label Done /\
  progress (ui (after r)) = Some 100.
Proof.
  intros Hff Hok r. subst r. rewrite (generateVideo_unfold w e Hff).
  pose proof (attempt_run (config (ui w)) (audioFile (ui w)) w e Hff) as Hrun.
  destruct Hrun as [st p e' evs x Hq | e' dels fevs data Hdels Hfevs Hframes Hprog];
    [discriminate |].
  unfold finish. cbn [outcome emitted after with_ui ui State_isGenerating status progress].
  assert (Hst : statuses
            (([SetIsGenerating true; SetError None; SetProgress None;
               SetStatus "Preparing workspace"]
              ++ dels ++ [SetStatus "Rendering frames"] ++ fevs
              ++ audio_events (audioFile (ui w)) data
              ++ [SetStatus "Encoding video";
                  Exec (command (config (ui w)) (audioInputName (audioFile (ui w))));
                  SetProgress (Some 90); SetStatus "Finalizing";
                  ReadFile "output.mp4";
                  CreateObjectURL (blob_url (next_id (registry w)))]
              ++ revoke_events (previewUrl (ui w))
              ++ [SetPreviewUrl (Some (blob_url (next_id (registry w))));
                  SetProgress (Some 100); SetStatus "Done"])
             ++ [SetIsGenerating false])
          = (["Preparing workspace"; "Rendering frames"]
             ++ match audioFile (ui w) with
                | Some _ => ["Transcoding audio"]
                | None => []
                end
             ++ ["Encoding video"; "Finalizing"; "Done"])%list).
  { rewrite !statuses_app.
    rewrite (statuses_delete dels Hdels), (statuses_frame_event fevs Hfevs),
      statuses_audio_events.
    destruct (previewUrl (ui w)); destruct (audioFile (ui w)); reflexivity. }
  assert (Hpv : progress_values
            (([SetIsGenerating true; SetError None; SetProgress None;
               SetStatus "Preparing workspace"]
              ++ dels ++ [SetStatus "Rendering frames"] ++ fevs
              ++ audio_events (audioFile (ui w)) data
              ++ [SetStatus "Encoding video";
                  Exec (command (config (ui w)) (audioInputName (audioFile (ui w))));
                  SetProgress (Some 90); SetStatus "Finalizing";
                  ReadFile "output.mp4";
                  CreateObjectURL (blob_url (next_id (registry w)))]
              ++ revoke_events (previewUrl (ui w))
              ++ [SetPreviewUrl (Some (blob_url (next_id (registry w))));
                  SetProgress (Some 100); SetStatus "Done"])
             ++ [SetIsGenerating false])
          = (map (reported_progress (totalFrames (config (ui w))))
               (Zrange 0 (Z.to_nat (totalFrames (config (ui w)))))
             ++ [90; 100])%list).
  { rewrite !progress_values_app.
    rewrite (progress_values_delete dels Hdels), Hprog, progress_values_audio_events.
    destruct (previewUrl (ui w)); cbn; rewrite ?app_nil_r; reflexivity. }
  rewrite Hst, Hpv. repeat split.
  - destruct (audioFile (ui w)); reflexivity.
  - apply progress_sorted; lia.
  - apply last_app_two.
Qed.

(** C4.  When an encoder is present, [generateVideo] itself never throws
    and always leaves the in-flight flag cleared; and whenever its [try]
    block throws, at whatever step, the status becomes Failed, the message
    of the exception is recorded as the error, and the attempt counter is
    one more than before. *)
Theorem failure_semantics (w : World) (e : Encoder) :
  ffmpeg w = Some e ->
  let r := generateVideo w in
  outcome r = Returned tt /\
  isGenerating (ui (after r)) = false /\
  forall x,
    outcome (attempt (config (ui w)) (audioFile (ui w)) w) = Thrown x ->
    status (ui (after r)) = label Failed /\
    error (ui (after r)) = Some (errorMessage x) /\
    retryCount (ui (after r)) = retryCount (ui w) + 1.
Proof.
  intros Hff r. subst r. rewrite (generateVideo_unfold w e Hff).
  pose proof (attempt_run (config (ui w)) (audioFile (ui w)) w e Hff) as Hrun.
  destruct Hrun as [st p e' evs x' Hq | e' dels fevs data Hdels Hfevs Hframes Hprog];
    unfold finish; cbn [outcome after emitted].
  - split; [reflexivity | split; [reflexivity |]].
    intros x Hx. injection Hx as <-. repeat split; reflexivity.
  - split; [reflexivity | split; [reflexivity |]].
    intros x Hx. discriminate Hx.
Qed.

(** C10.  When the [try] block throws, the published object URL is the
    one that was published before, the browser's store of object URLs is
    unchanged (so a handle that was live stays live), no object URL is
    published or revoked, and the form fields are untouched; the effects
    of the attempt end with those of the [catch] and [finally] blocks. *)
Theorem failed_attempt_keeps_handle (w : World) (e : Encoder) (x : Exn) :
  ffmpeg w = Some e ->
  outcome (attempt (config (ui w)) (audioFile (ui w)) w) = Thrown x ->
  let r := generateVideo w in
  previewUrl (ui (after r)) = previewUrl (ui w) /\
  registry (after r) = registry w /\
  (forall u, previewUrl (ui w) = Some u ->
             alive u (registry w) = true ->
             previewUrl (ui (after r)) = Some u /\ alive u (registry (after r)) = true) /\
  published (emitted r) = [] /\
  revoked (emitted r) = [] /\
  config (ui (after r)) = config (ui w) /\
  audioFile (ui (after r)) = audioFile (ui w) /\
  exists evs,
    emitted r =
      (evs ++ [SetRetryCount (retryCount (ui w) + 1);
               SetError (Some (errorMessage x));
               SetStatus (label Failed);
               SetIsGenerating false])%list.
Proof.
  intros Hff Hx r. subst r. rewrite (generateVideo_unfold w e Hff).
  pose proof (attempt_run (config (ui w)) (audioFile (ui w)) w e Hff) as Hrun.
  destruct Hrun as [st p e' evs x' Hq | e' dels fevs data Hdels Hfevs Hframes Hprog];
    [| discriminate Hx].
  injection Hx as ->.
  unfold finish; cbn [outcome after emitted with_ui ui registry previewUrl
                      State_isGenerating State_status State_error State_retryCount
                      config audioFile retryCount].
  split; [reflexivity |]. split; [reflexivity |].
  split; [intros u Hu Ha; split; assumption |].
  split.
  { change (SetIsGenerating true :: evs) with ([SetIsGenerating true] ++ evs)%list.
    rewrite !published_app, (published_quiet _ evs Hq). reflexivity. }
  split.
  { change (SetIsGenerating true :: evs) with ([SetIsGenerating true] ++ evs)%list.
    rewrite !revoked_app, (revoked_quiet _ evs Hq). reflexivity. }
  split; [reflexivity |]. split; [reflexivity |].
  eexists. reflexivity.
Qed.

Lemma command_shape (cfg : VideoConfig) (audio : option File) :
  command cfg (audioInputName audio) =
    (["-y"; "-framerate"; Number_toString (fps cfg); "-i"; "frame_%05d.png"]
     ++ match audioInputName audio with
        | Some a => ["-i"; a; "-shortest"]
        | None => []
        end
     ++ ["-c:v"; "libx264"; "-profile:v"; "main";
         "-pix_fmt"; "yuv420p"; "-preset"; "medium"]
     ++ match audioInputName audio with
        | Some _ => ["-c:a"; "aac"; "-b:a"; "192k"]
        | None => []
        end
     ++ ["output.mp4"])%list.
Proof.
  destruct audio as [f |].
  - destruct (audioInputName_truthy f) as [rest ->]. reflexivity.
  - reflexivity.
Qed.

(** C5.  The argument vector built for the encoder is, in this order:
    [-y], [-framerate], the configured fps as text, [-i], the frame
    pattern; then [-i], the staged audio name and [-shortest] exactly when
    an audio file is selected; then the eight fixed video options; then
    the four fixed audio options exactly when an audio file is selected;
    then [output.mp4].  Every run of the encoder during [generateVideo]
    is given exactly this vector, and an attempt whose [try] block
    completes runs the encoder exactly once. *)
Theorem encoder_arguments (w : World) :
  let cfg := config (ui w) in
  let audio := audioFile (ui w) in
  let expected :=
    (["-y"; "-framerate"; Number_toString (fps cfg); "-i"; "frame_%05d.png"]
     ++ match audioInputName audio with
        | Some a => ["-i"; a; "-shortest"]
        | None => []
        end
     ++ ["-c:v"; "libx264"; "-profile:v"; "main";
         "-pix_fmt"; "yuv420p"; "-preset"; "medium"]
     ++ match audioInputName audio with
        | Some _ => ["-c:a"; "aac"; "-b:a"; "192k"]
        | None => []
        end
     ++ ["output.mp4"])%list in
  (audioInputName audio = None <-> audio = None) /\
  command cfg (audioInputName audio) = expected /\
  (forall argv, In argv (execs (emitted (generateVideo w))) -> argv = expected) /\
  (ffmpeg w <> None ->
   outcome (attempt cfg audio w) = Returned tt ->
   execs (emitted (generateVideo w)) = [expected]).
Proof.
  intros cfg audio expected.
  assert (Hcmd : command cfg (audioInputName audio) = expected)
    by apply command_shape.
  split; [| split; [exact Hcmd | rewrite <- Hcmd; clear Hcmd expected]].
  { destruct audio; split; intros H; try discriminate H; reflexivity. }
  destruct (ffmpeg w) as [e |] eqn:Hff.
  - rewrite (generateVideo_unfold w e Hff).
    pose proof (attempt_run cfg audio w e Hff) as Hrun. fold cfg audio.
    destruct Hrun as [st p e' evs x Hq | e' dels fevs data Hdels Hfevs Hframes Hprog];
      unfold finish; cbn [outcome after emitted].
    + split.
      * intros argv Hin.
        change (SetIsGenerating true :: evs) with ([SetIsGenerating true] ++ evs)%list in Hin.
        rewrite !execs_app in Hin. cbn [execs flat_map app] in Hin.
        rewrite app_nil_r in Hin. exact (execs_quiet _ evs Hq argv Hin).
      * intros _ Hx. discriminate Hx.
    + assert (Hex : execs
                (([SetIsGenerating true; SetError None; SetProgress None;
                   SetStatus "Preparing workspace"]
                  ++ dels ++ [SetStatus "Rendering frames"] ++ fevs
                  ++ audio_events audio data
                  ++ [SetStatus "Encoding video";
                      Exec (command cfg (audioInputName audio));
                      SetProgress (Some 90); SetStatus "Finalizing";
                      ReadFile "output.mp4";
                      CreateObjectURL (blob_url (next_id (registry w)))]
                  ++ revoke_events (previewUrl (ui w))
                  ++ [SetPreviewUrl (Some (blob_url (next_id (registry w))));
                      SetProgress (Some 100); SetStatus "Done"])
                 ++ [SetIsGenerating false])
              = [command cfg (audioInputName audio)]).
      { rewrite !execs_app.
        rewrite (execs_delete dels Hdels), (execs_frame_event fevs Hfevs),
          execs_audio_events.
        destruct (previewUrl (ui w)); reflexivity. }
      rewrite Hex. split.
      * intros argv [<- | []]. reflexivity.
      * intros _ _. reflexivity.
  - rewrite (generateVideo_not_ready w Hff). cbn [emitted]. split.
    + intros argv [].
    + intros H. contradiction H. reflexivity.
Qed.

(** ** The frame count *)







(** The flag is set by the first effect of an attempt and cleared by its
    last, and is not written in between: it is set for as long as the
    attempt is in flight. *)
Lemma generating_flag_brackets_attempt (w : World) (e : Encoder) :
  ffmpeg w = Some e ->
  generating_flags (emitted (generateVideo w)) = [true; false] /\
  exists evs,
    emitted (generateVideo w) = (SetIsGenerating true :: evs ++ [SetIsGenerating false])%list.
Proof.
  intros Hff. rewrite (generateVideo_unfold w e Hff).
  pose proof (attempt_run (config (ui w)) (audioFile (ui w)) w e Hff) as Hrun.
  destruct Hrun as [st p e' evs x Hq | e' dels fevs data Hdels Hfevs Hframes Hprog];
    unfold finish; cbn [outcome after emitted].
  - split.
    + change (SetIsGenerating true :: evs) with ([SetIsGenerating true] ++ evs)%list.
      rewrite !generating_flags_app, (generating_flags_quiet _ evs Hq). reflexivity.
    + exists (evs ++ [SetRetryCount (retryCount (ui w) + 1);
                      SetError (Some (errorMessage x)); SetStatus "Failed"])%list.
      cbn [app]. rewrite <- app_assoc. reflexivity.
  - split.
    + rewrite !generating_flags_app.
      rewrite (generating_flags_quiet [] dels (quiet_of_delete _ _ Hdels)),
        (generating_flags_quiet [] fevs (quiet_of_frame_event _ _ Hfevs)).
      destruct (audioFile (ui w)); destruct (previewUrl (ui w)); reflexivity.
    + exists ([SetError None; SetProgress None; SetStatus "Preparing workspace"]
              ++ dels ++ [SetStatus "Rendering frames"] ++ fevs
              ++ audio_events (audioFile (ui w)) data
              ++ [SetStatus "Encoding video";
                  Exec (command (config (ui w)) (audioInputName (audioFile (ui w))));
                  SetProgress (Some 90); SetStatus "Finalizing";
                  ReadFile "output.mp4";
                  CreateObjectURL (blob_url (next_id (registry w)))]
              ++ revoke_events (previewUrl (ui w))
              ++ [SetPreviewUrl (Some (blob_url (next_id (registry w))));
                  SetProgress (Some 100); SetStatus "Done"])%list.
      reflexivity.
Qed.

(** A press of Reset is likewise ignored while the flag is set. *)
Lemma reset_rejected_while_generating (w : World) :
  isGenerating (ui w) = true -> pressReset w = idle tt w.
Proof.
  intros H. unfold pressReset, resetDisabled. rewrite H. reflexivity.
Qed.

Lemma last_cons_default {A} (l : list A) :
  forall a d, last (a :: l) d = last l a.
Proof.
  induction l as [| x l IH]; intros a d.
  - reflexivity.
  - change (last (a :: x :: l) d) with (last (x :: l) d).
    rewrite (IH x d), (IH x a). reflexivity.
Qed.

Lemma isGenerating_replay (evs : list Event) :
  forall s, isGenerating (replay evs s) = last (generating_flags evs) (isGenerating s).
Proof.
  unfold replay. induction evs as [| ev evs IH]; intros s.
  - reflexivity.
  - cbn [fold_left]. rewrite IH.
    destruct ev; try reflexivity.
    change (generating_flags (SetIsGenerating b :: evs))
      with (b :: generating_flags evs).
    rewrite last_cons_default. reflexivity.
Qed.

(** After any proper, non-empty part of the effects of an attempt, the
    in-flight flag is set. *)
Lemma in_flight_flag_set (w : World) (e : Encoder) (pre post : list Event) :
  ffmpeg w = Some e ->
  emitted (generateVideo w) = (pre ++ post)%list ->
  pre <> [] -> post <> [] ->
  isGenerating (replay pre (ui w)) = true.
Proof.
  intros Hff Hsplit Hpre Hpost.
  destruct (generating_flag_brackets_attempt w e Hff) as [Hflags [evs Hev]].
  rewrite Hsplit in Hflags, Hev. rewrite generating_flags_app in Hflags.
  destruct pre as [| ev pre]; [contradiction |].
  cbn [app] in Hev. injection Hev as -> Hev.
  destruct (exists_last Hpost) as (post' & y & ->).
  rewrite app_assoc in Hev. apply app_inj_tail in Hev as [_ ->].
  rewrite generating_flags_app in Hflags.
  change (generating_flags (SetIsGenerating true :: pre))
    with (true :: generating_flags pre) in Hflags.
  change (generating_flags [SetIsGenerating false]) with [false] in Hflags.
  rewrite isGenerating_replay.
  change (generating_flags (SetIsGenerating true :: pre))
    with (true :: generating_flags pre).
  destruct (generating_flags pre) as [| b l]; [reflexivity |].
  cbn [app] in Hflags. injection Hflags as Hb Hl.
  destruct l; destruct (generating_flags post'); discriminate.
Qed.

(** C8.  While the in-flight flag is set, the submit button is disabled
    and a press of it starts nothing: the world is unchanged and no effect
    is performed.  The flag is set at every point strictly inside a render
    attempt, so a press at any such point is rejected and no second
    attempt starts while one is in flight. *)
Theorem submit_rejected_while_generating (w : World) :
  (isGenerating (ui w) = true ->
     submitDisabled w = true /\ pressSubmit w = idle tt w) /\
  (forall (e : Encoder) (pre post : list Event) (w' : World),
     ffmpeg w = Some e ->
     emitted (generateVideo w) = (pre ++ post)%list ->
     pre <> [] -> post <> [] ->
     ui w' = replay pre (ui w) ->
     pressSubmit w' = idle tt w').
Proof.
  assert (Hgate : forall v : World,
             isGenerating (ui v) = true ->
             submitDisabled v = true /\ pressSubmit v = idle tt v).
  { intros v H. unfold pressSubmit, submitDisabled. rewrite H.
    rewrite !orb_true_r. split; reflexivity. }
  split; [apply Hgate |].
  intros e pre post w' Hff Hsplit Hpre Hpost Hui.
  apply Hgate. rewrite Hui.
  exact (in_flight_flag_set w e pre post Hff Hsplit Hpre Hpost).
Qed.

(** ** The effects account for every change of the React state *)

Lemma replay_app (evs1 evs2 : list Event) (s : State) :
  replay (evs1 ++ evs2) s = replay evs2 (replay evs1 s).
Proof. apply fold_left_app. Qed.

Lemma traced_ret {A} (a : A) : Traced (ret a).
Proof. intros w. reflexivity. Qed.

Lemma traced_get {A} (f : World -> A) : Traced (get f).
Proof. intros w. reflexivity. Qed.

Lemma traced_of_outcome {A} (o : Outcome A) : Traced (of_outcome o).
Proof. intros w. reflexivity. Qed.

Lemma traced_set_state (ev : Event) (f : State -> State) :
  (forall s, f s = apply_event ev s) -> Traced (set_state ev f).
Proof. intros H w. cbn. apply H. Qed.

Lemma traced_call {A} (ev : Event) (method : Encoder -> Encoder * Outcome A) :
  (forall s, apply_event ev s = s) -> Traced (call ev method).
Proof.
  intros H w. unfold call. destruct (ffmpeg w) as [e |].
  - destruct (method e) as [e' o]. cbn. symmetry. apply H.
  - reflexivity.
Qed.

Lemma traced_bind {A B} (m : Async A) (k : A -> Async B) :
  Traced m -> (forall a, Traced (k a)) -> Traced (bind m k).
Proof.
  intros Hm Hk w. unfold bind. specialize (Hm w).
  destruct (outcome (m w)) as [a | x]; cbn [after emitted].
  - rewrite replay_app, <- Hm. apply Hk.
  - exact Hm.
Qed.

Lemma traced_try_catch {A} (m : Async A) (h : Exn -> Async A) :
  Traced m -> (forall x, Traced (h x)) -> Traced (try_catch m h).
Proof.
  intros Hm Hh w. unfold try_catch. specialize (Hm w).
  destruct (outcome (m w)) as [a | x]; cbn [after emitted].
  - exact Hm.
  - rewrite replay_app, <- Hm. apply Hh.
Qed.

Lemma traced_try_finally {A} (m : Async A) (f : Async unit) :
  Traced m -> Traced f -> Traced (try_finally m f).
Proof.
  intros Hm Hf w. unfold try_finally. cbn [after emitted].
  rewrite replay_app, <- (Hm w). apply Hf.
Qed.

Lemma traced_for_from (bound : Z) (body : Z -> Async unit) :
  (forall i, Traced (body i)) ->
  forall fuel i, Traced (for_from fuel i bound body).
Proof.
  intros Hbody. induction fuel as [| fuel IH]; intros i.
  - apply traced_ret.
  - cbn [for_from]. destruct (i <? bound).
    + apply traced_bind; [apply Hbody | intros _; apply IH].
    + apply traced_ret.
Qed.

Lemma traced_if_truthy {A} (v : option string) (yes : string -> Async A) (no : Async A) :
  (forall a, Traced (yes a)) -> Traced no -> Traced (JS.if_truthy v yes no).
Proof.
  intros Hyes Hno. destruct v as [[| c r] |]; [exact Hno | apply Hyes | exact Hno].
Qed.

Lemma traced_emit_frame (i : Z) : Traced (emit (OnFrame i)).
Proof. intros w. reflexivity. Qed.

Lemma traced_createObjectURL (b : Blob) : Traced (createObjectURL b).
Proof. intros w. reflexivity. Qed.

Lemma traced_revokeObjectURL (u : ObjectURL) : Traced (revokeObjectURL u).
Proof. intros w. reflexivity. Qed.

Ltac traced :=
  repeat match goal with
    | |- forall _, _ => intro
    | |- Traced (ret _) => apply traced_ret
    | |- Traced (get _) => apply traced_get
    | |- Traced (of_outcome _) => apply traced_of_outcome
    | |- Traced (emit (OnFrame _)) => apply traced_emit_frame
    | |- Traced (createObjectURL _) => apply traced_createObjectURL
    | |- Traced (revokeObjectURL _) => apply traced_revokeObjectURL
    | |- Traced (set_state _ _) => apply traced_set_state; intros ?; reflexivity
    | |- Traced (call _ _) => apply traced_call; intros ?; reflexivity
    | |- Traced (JS.if_truthy _ _ _) => apply traced_if_truthy
    | |- Traced (for_from _ _ _ _) => apply traced_for_from
    | |- Traced (try_catch _ _) => apply traced_try_catch
    | |- Traced (try_finally _ _) => apply traced_try_finally
    | |- Traced (bind _ _) => apply traced_bind
    | |- Traced (match ?o with _ => _ end) => destruct o
    end.

Lemma traced_attempt (cfg : VideoConfig) (audio : option File) :
  Traced (attempt cfg audio).
Proof.
  unfold attempt, generateFrames, for_upto, onFrame, swallow, setPreviewUrl_with,
    setIsGenerating, setError, setProgress, setStatus, setPreviewUrl,
    deleteFile, writeFile, readFile, exec.
  traced.
Qed.

(** The state in which [generateVideo] ends is the replay of its effects. *)
Lemma generateVideo_replay (w : World) :
  ui (after (generateVideo w)) = replay (emitted (generateVideo w)) (ui w).
Proof.
  assert (Hfail : forall x, Traced (onFailure x)).
  { intros x. unfold onFailure, setRetryCount, setError, setStatus. traced. }
  assert (Hfin : Traced (setIsGenerating false)).
  { unfold setIsGenerating. traced. }
  unfold generateVideo. destruct (ffmpeg w).
  - exact (traced_try_finally _ _
             (traced_try_catch _ _ (traced_attempt _ _) Hfail) Hfin w).
  - exact (traced_set_state _ _ (fun s => eq_refl) w).
Qed.

(** What [reset] does: every cell it writes goes back to its initial
    value, and the browser's store of object URLs is not touched. *)
Lemma reset_run (w : World) :
  reset w =
  {| after :=
       Build_World
         (Build_State defaultConfig None None "Idle" None (isGenerating (ui w)) None 0)
         (ffmpeg w) (ready w) (loading w) (registry w);
     emitted := [SetConfig defaultConfig; SetAudioFile None; SetPreviewUrl None;
                 SetStatus "Idle"; SetProgress None; SetError None; SetRetryCount 0];
     outcome := Returned tt |}.
Proof. reflexivity. Qed.

(** An object URL is published only by an attempt whose [try] block
    completed, and then exactly once, after the output file was read. *)
Lemma published_only_on_success (w : World) (e : Encoder) :
  ffmpeg w = Some e ->
  published (emitted (generateVideo w)) =
  match outcome (attempt (config (ui w)) (audioFile (ui w)) w) with
  | Returned _ => [Some (blob_url (next_id (registry w)))]
  | Thrown _ => []
  end.
Proof.
  intros Hff. rewrite (generateVideo_unfold w e Hff).
  pose proof (attempt_run (config (ui w)) (audioFile (ui w)) w e Hff) as Hrun.
  destruct Hrun as [st p e' evs x Hq | e' dels fevs data Hdels Hfevs Hframes Hprog];
    unfold finish; cbn [outcome after emitted].
  - change (SetIsGenerating true :: evs) with ([SetIsGenerating true] ++ evs)%list.
    rewrite !published_app, (published_quiet _ evs Hq). reflexivity.
  - rewrite !published_app.
    rewrite (published_quiet [] dels (quiet_of_delete _ _ Hdels)),
      (published_quiet [] fevs (quiet_of_frame_event _ _ Hfevs)).
    destruct (audioFile (ui w)); destruct (previewUrl (ui w)); reflexivity.
Qed.

(** A render whose [try] block completes keeps the invariant that the
    published object URL is the only live one. *)
Lemma render_keeps_single_slot (w : World) (e : Encoder) :
  ffmpeg w = Some e ->
  single_slot w ->
  outcome (attempt (config (ui w)) (audioFile (ui w)) w) = Returned tt ->
  single_slot (after (generateVideo w)) /\
  previewUrl (ui (after (generateVideo w))) = Some (blob_url (next_id (registry w))).
Proof.
  intros Hff [Hlive Hfresh] Hok. rewrite (generateVideo_unfold w e Hff).
  pose proof (attempt_run (config (ui w)) (audioFile (ui w)) w e Hff) as Hrun.
  destruct Hrun as [st p e' evs x Hq | e' dels fevs data Hdels Hfevs Hframes Hprog];
    [discriminate Hok |].
  unfold finish, single_slot, replaced.
  cbn [outcome after with_ui ui registry previewUrl State_isGenerating live next_id].
  split; [| reflexivity]. split.
  - rewrite Hlive. destruct (previewUrl (ui w)) as [[old] |].
    + assert (Hold : (old < next_id (registry w))%nat).
      { apply Hfresh. rewrite Hlive. left. reflexivity. }
      cbn [filter ObjectURL_eqb negb].
      replace (Nat.eqb (next_id (registry w)) old) with false
        by (symmetry; apply Nat.eqb_neq; lia).
      rewrite Nat.eqb_refl. reflexivity.
    + reflexivity.
  - intros i Hi.
    assert (Hin : In (blob_url i) (blob_url (next_id (registry w)) :: live (registry w))).
    { destruct (previewUrl (ui w)); [apply filter_In in Hi as [Hi _] |]; exact Hi. }
    destruct Hin as [Heq | Hin].
    + injection Heq as <-. lia.
    + apply Hfresh in Hin. lia.
Qed.

End Outcomes.

(* ================================================================== *)
(** * The component at work on the simulated runtime *)
(* ================================================================== *)

Lemma successful_attempt_phases_witness :
  ffmpeg (Sim.loaded (Sim.clip 1 2) None) = Some [] /\
  outcome (attempt (Sim.clip 1 2) None (Sim.loaded (Sim.clip 1 2) None)) = Returned tt /\
  statuses (emitted (generateVideo (Sim.loaded (Sim.clip 1 2) None))) =
    ["Preparing workspace"; "Rendering frames"; "Encoding video"; "Finalizing"; "Done"] /\
  StronglySorted Z.le
    (progress_values (emitted (generateVideo (Sim.loaded (Sim.clip 1 2) None)))) /\
  progress (ui (after (generateVideo (Sim.loaded (Sim.clip 1 2) None)))) = Some 100.
Proof.
  assert (H1 : ffmpeg (Sim.loaded (Sim.clip 1 2) None) = Some []) by reflexivity.
  assert (H2 : outcome (attempt (config (ui (Sim.loaded (Sim.clip 1 2) None)))
                          (audioFile (ui (Sim.loaded (Sim.clip 1 2) None)))
                          (Sim.loaded (Sim.clip 1 2) None)) = Returned tt)
    by (vm_compute; reflexivity).
  destruct (successful_attempt_phases (rt := Sim.runtime)
              (Sim.loaded (Sim.clip 1 2) None) [] H1 H2)
    as (_ & Hst & Hsorted & _ & _ & Hp).
  split; [exact H1 |]. split; [exact H2 |].
  split; [exact Hst |]. split; [exact Hsorted | exact Hp].
Defined.

Lemma failure_semantics_witness :
  ffmpeg (Sim.loaded (Sim.flattened (Sim.clip 1 2)) None) = Some [] /\
  outcome (attempt (Sim.flattened (Sim.clip 1 2)) None
             (Sim.loaded (Sim.flattened (Sim.clip 1 2)) None)) = Thrown Sim.render_error /\
  status (ui (after (generateVideo (Sim.loaded (Sim.flattened (Sim.clip 1 2)) None))))
    = "Failed" /\
  error (ui (after (generateVideo (Sim.loaded (Sim.flattened (Sim.clip 1 2)) None))))
    = Some "RenderError: invalid dimensions" /\
  retryCount (ui (after (generateVideo (Sim.loaded (Sim.flattened (Sim.clip 1 2)) None))))
    = 1 /\
  isGenerating (ui (after (generateVideo (Sim.loaded (Sim.flattened (Sim.clip 1 2)) None))))
    = false.
Proof.
  assert (H1 : ffmpeg (Sim.loaded (Sim.flattened (Sim.clip 1 2)) None) = Some [])
    by reflexivity.
  assert (H2 : outcome
                 (attempt (config (ui (Sim.loaded (Sim.flattened (Sim.clip 1 2)) None)))
                    (audioFile (ui (Sim.loaded (Sim.flattened (Sim.clip 1 2)) None)))
                    (Sim.loaded (Sim.flattened (Sim.clip 1 2)) None))
               = Thrown Sim.render_error)
    by (vm_compute; reflexivity).
  destruct (failure_semantics (rt := Sim.runtime)
              (Sim.loaded (Sim.flattened (Sim.clip 1 2)) None) [] H1)
    as (_ & Hflag & Hfail).
  destruct (Hfail Sim.render_error H2) as (Hst & Herr & Hcount).
  split; [exact H1 |]. split; [exact H2 |].
  split; [exact Hst |]. split; [exact Herr |]. split; [exact Hcount | exact Hflag].
Defined.

Lemma failed_attempt_keeps_handle_witness :
  ffmpeg Sim.rendered_then_flattened = Some (Sim.files_of Sim.rendered_then_flattened) /\
  outcome (attempt (config (ui Sim.rendered_then_flattened))
             (audioFile (ui Sim.rendered_then_flattened))
             Sim.rendered_then_flattened)
    = Thrown Sim.render_error /\
  previewUrl (ui Sim.rendered_then_flattened) = Some (blob_url 0) /\
  alive (blob_url 0) (registry Sim.rendered_then_flattened) = true /\
  previewUrl (ui (after (generateVideo Sim.rendered_then_flattened))) = Some (blob_url 0) /\
  alive (blob_url 0) (registry (after (generateVideo Sim.rendered_then_flattened))) = true.
Proof.
  assert (H1 : ffmpeg Sim.rendered_then_flattened
               = Some (Sim.files_of Sim.rendered_then_flattened))
    by (vm_compute; reflexivity).
  assert (H2 : outcome (attempt (config (ui Sim.rendered_then_flattened))
                          (audioFile (ui Sim.rendered_then_flattened))
                          Sim.rendered_then_flattened)
               = Thrown Sim.render_error)
    by (vm_compute; reflexivity).
  assert (H3 : previewUrl (ui Sim.rendered_then_flattened) = Some (blob_url 0))
    by (vm_compute; reflexivity).
  assert (H4 : alive (blob_url 0) (registry Sim.rendered_then_flattened) = true)
    by (vm_compute; reflexivity).
  destruct (failed_attempt_keeps_handle (rt := Sim.runtime)
              Sim.rendered_then_flattened
              (Sim.files_of Sim.rendered_then_flattened) Sim.render_error H1 H2)
    as (_ & _ & Hkeep & _).
  destruct (Hkeep (blob_url 0) H3 H4) as [Hurl Halive].
  split; [exact H1 |]. split; [exact H2 |].
  split; [exact H3 |]. split; [exact H4 |]. split; [exact Hurl | exact Halive].
Defined.

Lemma encoder_arguments_witness :
  In ["-y"; "-framerate"; "2"; "-i"; "frame_%05d.png";
      "-i"; "audio_input.WAV"; "-shortest";
      "-c:v"; "libx264"; "-profile:v"; "main"; "-pix_fmt"; "yuv420p";
      "-preset"; "medium";
      "-c:a"; "aac"; "-b:a"; "192k";
      "output.mp4"]
     (execs (emitted (generateVideo (Sim.loaded (Sim.clip 1 2) (Some Sim.song))))) /\
  ffmpeg (Sim.loaded (Sim.clip 1 2) (Some Sim.song)) <> None /\
  outcome (attempt (Sim.clip 1 2) (Some Sim.song)
             (Sim.loaded (Sim.clip 1 2) (Some Sim.song))) = Returned tt /\
  command (rt := Sim.runtime) (Sim.clip 1 2) (audioInputName (Some Sim.song)) =
    ["-y"; "-framerate"; "2"; "-i"; "frame_%05d.png";
     "-i"; "audio_input.WAV"; "-shortest";
     "-c:v"; "libx264"; "-profile:v"; "main"; "-pix_fmt"; "yuv420p";
     "-preset"; "medium";
     "-c:a"; "aac"; "-b:a"; "192k";
     "output.mp4"] /\
  execs (emitted (generateVideo (Sim.loaded (Sim.clip 1 2) (Some Sim.song)))) =
    [command (rt := Sim.runtime) (Sim.clip 1 2) (audioInputName (Some Sim.song))].
Proof.
  assert (H1 : In ["-y"; "-framerate"; "2"; "-i"; "frame_%05d.png";
                   "-i"; "audio_input.WAV"; "-shortest";
                   "-c:v"; "libx264"; "-profile:v"; "main"; "-pix_fmt"; "yuv420p";
                   "-preset"; "medium";
                   "-c:a"; "aac"; "-b:a"; "192k";
                   "output.mp4"]
                (execs (emitted (generateVideo
                                   (Sim.loaded (Sim.clip 1 2) (Some Sim.song))))))
    by (vm_compute; left; reflexivity).
  assert (H2 : ffmpeg (Sim.loaded (Sim.clip 1 2) (Some Sim.song)) <> None)
    by discriminate.
  assert (H3 : outcome (attempt (Sim.clip 1 2) (Some Sim.song)
                          (Sim.loaded (Sim.clip 1 2) (Some Sim.song))) = Returned tt)
    by (vm_compute; reflexivity).
  destruct (encoder_arguments (rt := Sim.runtime)
              (Sim.loaded (Sim.clip 1 2) (Some Sim.song)))
    as (_ & Hcmd & Hall & Honce).
  split; [exact H1 |]. split; [exact H2 |]. split; [exact H3 |].
  split.
  - exact (eq_trans Hcmd (eq_sym (Hall _ H1))).
  - exact (eq_trans (Honce H2 H3) (f_equal (fun argv => [argv]) (eq_sym Hcmd))).
Defined.




Lemma submit_rejected_while_generating_witness :
  isGenerating (ui Sim.rendering) = true /\
  pressSubmit Sim.rendering = idle tt Sim.rendering /\
  ffmpeg (Sim.loaded (Sim.clip 1 2) None) = Some [] /\
  emitted (generateVideo (Sim.loaded (Sim.clip 1 2) None))
    = (Sim.first_effects ++ Sim.remaining_effects)%list /\
  Sim.first_effects <> [] /\
  Sim.remaining_effects <> [] /\
  status (ui Sim.mid_render) = "Preparing workspace" /\
  pressSubmit Sim.mid_render = idle tt Sim.mid_render.
Proof.
  assert (H1 : isGenerating (ui Sim.rendering) = true) by reflexivity.
  assert (H2 : ffmpeg (Sim.loaded (Sim.clip 1 2) None) = Some []) by reflexivity.
  assert (H3 : emitted (generateVideo (Sim.loaded (Sim.clip 1 2) None))
               = (Sim.first_effects ++ Sim.remaining_effects)%list)
    by (vm_compute; reflexivity).
  assert (H4 : Sim.first_effects <> []) by (vm_compute; discriminate).
  assert (H5 : Sim.remaining_effects <> []) by (vm_compute; discriminate).
  assert (H6 : ui Sim.mid_render
               = replay Sim.first_effects (ui (Sim.loaded (Sim.clip 1 2) None)))
    by reflexivity.
  split; [exact H1 |].
  split; [exact (proj2 (proj1 (submit_rejected_while_generating (rt := Sim.runtime)
                                 Sim.rendering) H1)) |].
  split; [exact H2 |]. split; [exact H3 |]. split; [exact H4 |]. split; [exact H5 |].
  split; [vm_compute; reflexivity |].
  exact (proj2 (submit_rejected_while_generating (rt := Sim.runtime)
                  (Sim.loaded (Sim.clip 1 2) None))
           [] Sim.first_effects Sim.remaining_effects Sim.mid_render H2 H3 H4 H5 H6).
Defined.

(** C7, the defect.  After a render has published an object URL, Reset
    clears the published URL but revokes nothing: the URL stays live in
    the browser with nothing left that refers to it. *)
Lemma reset_leaks_handle :
  previewUrl (ui Sim.rendered) = Some (blob_url 0) /\
  alive (blob_url 0) (registry Sim.rendered) = true /\
  resetDisabled Sim.rendered = false /\
  previewUrl (ui (after (pressReset Sim.rendered))) = None /\
  revoked (emitted (pressReset Sim.rendered)) = [] /\
  alive (blob_url 0) (registry (after (pressReset Sim.rendered))) = true.
Proof.
  vm_compute. repeat split; reflexivity.
Qed.

(** C3, the defect.  A render, Reset, and a second render leave two live
    object URLs: the first one was never revoked, because Reset had
    emptied the cell from which the second render takes the URL to
    revoke. *)
Lemma reset_then_render_leaves_two_handles :
  status (ui Sim.rendered) = "Done" /\
  status (ui (after (pressSubmit Sim.rendered_then_reset))) = "Done" /\
  previewUrl (ui (after (pressSubmit Sim.rendered_then_reset))) = Some (blob_url 1) /\
  revoked (emitted (pressSubmit Sim.rendered_then_reset)) = [] /\
  live (registry (after (pressSubmit Sim.rendered_then_reset)))
    = [blob_url 1; blob_url 0] /\
  alive (blob_url 0) (registry (after (pressSubmit Sim.rendered_then_reset))) = true.
Proof.
  vm_compute. repeat split; reflexivity.
Qed.

(* ================================================================== *)
(** * What a render attempt never emits *)
(* ================================================================== *)

Section Emissions.

Context {rt : Runtime}.

Lemma emits_ret {A} P (a : A) : Emits P (ret a).
Proof. intros w. constructor. Qed.

Lemma emits_get {A} P (f : World -> A) : Emits P (get f).
Proof. intros w. constructor. Qed.

Lemma emits_of_outcome {A} P (o : Outcome A) : Emits P (of_outcome o).
Proof. intros w. constructor. Qed.

Lemma emits_emit (P : Event -> Prop) ev : P ev -> Emits P (emit ev).
Proof. intros H w. repeat constructor. exact H. Qed.

Lemma emits_set_state (P : Event -> Prop) ev f : P ev -> Emits P (set_state ev f).
Proof. intros H w. repeat constructor. exact H. Qed.

Lemma emits_call {A} (P : Event -> Prop) ev (method : Encoder -> Encoder * Outcome A) :
  P ev -> Emits P (call ev method).
Proof.
  intros H w. unfold call. destruct (ffmpeg w) as [e |].
  - destruct (method e). repeat constructor. exact H.
  - constructor.
Qed.

Lemma emits_createObjectURL (P : Event -> Prop) b :
  (forall u, P (CreateObjectURL u)) -> Emits P (createObjectURL b).
Proof. intros H w. repeat constructor. apply H. Qed.

Lemma emits_revokeObjectURL (P : Event -> Prop) u :
  P (RevokeObjectURL u) -> Emits P (revokeObjectURL u).
Proof. intros H w. repeat constructor. exact H. Qed.

Lemma emits_bind {A B} P (m : Async A) (k : A -> Async B) :
  Emits P m -> (forall a, Emits P (k a)) -> Emits P (bind m k).
Proof.
  intros Hm Hk w. unfold bind. specialize (Hm w).
  destruct (outcome (m w)) as [a | x]; cbn [emitted].
  - apply Forall_app. split; [exact Hm | apply Hk].
  - exact Hm.
Qed.

Lemma emits_try_catch {A} P (m : Async A) (h : Exn -> Async A) :
  Emits P m -> (forall x, Emits P (h x)) -> Emits P (try_catch m h).
Proof.
  intros Hm Hh w. unfold try_catch. specialize (Hm w).
  destruct (outcome (m w)) as [a | x]; cbn [emitted].
  - exact Hm.
  - apply Forall_app. split; [exact Hm | apply Hh].
Qed.

Lemma emits_try_finally {A} P (m : Async A) (f : Async unit) :
  Emits P m -> Emits P f -> Emits P (try_finally m f).
Proof.
  intros Hm Hf w. unfold try_finally. cbn [emitted].
  apply Forall_app. split; [apply Hm | apply Hf].
Qed.

Lemma emits_if_truthy {A} P (v : option string) (yes : string -> Async A) (no : Async A) :
  (forall a, Emits P (yes a)) -> Emits P no -> Emits P (JS.if_truthy v yes no).
Proof.
  intros Hyes Hno. destruct v as [[| c r] |]; [exact Hno | apply Hyes | exact Hno].
Qed.

(** In a loop, the body only runs on indices from the start up to the
    bound. *)
Lemma emits_for_from P (lo bound : Z) (body : Z -> Async unit) :
  (forall i, lo <= i < bound -> Emits P (body i)) ->
  forall fuel i, lo <= i -> Emits P (for_from fuel i bound body).
Proof.
  intros Hbody. induction fuel as [| fuel IH]; intros i Hi.
  - apply emits_ret.
  - cbn [for_from]. destruct (i <? bound) eqn:E.
    + apply Z.ltb_lt in E.
      apply emits_bind; [apply Hbody; lia | intros _; apply IH; lia].
    + apply emits_ret.
Qed.

Lemma reported_progress_lower (T i : Z) :
  0 < T -> 0 <= i -> 0 <= reported_progress T i.
Proof.
  intros HT Hi. unfold reported_progress, JS.Math_round.
  change 0 with (Qfloor 0) at 1. apply Qfloor_resp_le.
  assert (Hq : (0 <= inject_Z (i + 1) / inject_Z T)%Q).
  { apply Qle_shift_div_l.
    - change 0%Q with (inject_Z 0). rewrite <- Zlt_Qlt. exact HT.
    - rewrite Qmult_0_l. change 0%Q with (inject_Z 0). rewrite <- Zle_Qle. lia. }
  generalize dependent (inject_Z (i + 1) / inject_Z T)%Q. intros q Hq. lra.
Qed.

Ltac emits :=
  repeat match goal with
    | |- forall _, _ => intro
    | |- Emits _ (ret _) => apply emits_ret
    | |- Emits _ (get _) => apply emits_get
    | |- Emits _ (of_outcome _) => apply emits_of_outcome
    | |- Emits _ (emit _) => apply emits_emit
    | |- Emits _ (createObjectURL _) => apply emits_createObjectURL
    | |- Emits _ (revokeObjectURL _) => apply emits_revokeObjectURL
    | |- Emits _ (set_state _ _) => apply emits_set_state
    | |- Emits _ (call _ _) => apply emits_call
    | |- Emits _ (JS.if_truthy _ _ _) => apply emits_if_truthy
    | |- Emits _ (try_catch _ _) => apply emits_try_catch
    | |- Emits _ (try_finally _ _) => apply emits_try_finally
    | |- Emits _ (bind _ _) => apply emits_bind
    | |- Emits _ (match ?o with _ => _ end) => destruct o
    end.

Lemma emits_attempt (cfg : VideoConfig) (audio : option File) :
  Emits attempt_event (attempt cfg audio).
Proof.
  unfold attempt, generateFrames, for_upto, swallow, setPreviewUrl_with,
    setIsGenerating, setError, setProgress, setStatus, setPreviewUrl,
    deleteFile, writeFile, readFile, exec.
  emits.
  all: try exact I.
  all: try (cbn; tauto).
  all: try (cbn; lia).
  - apply (emits_for_from _ 0); [| lia]. intros i Hi. emits. exact I.
  - apply (emits_for_from _ 0); [| lia]. intros i Hi. unfold onFrame, writeFile, setProgress.
    emits; try exact I.
    change (0 <= reported_progress (totalFrames cfg) i <= 100).
    split.
    + apply reported_progress_lower; lia.
    + pose proof (reported_progress_upper (totalFrames cfg) i). lia.
Qed.

End Emissions.

(* ================================================================== *)
(** * Sessions at the page *)
(* ================================================================== *)

Ltac simpl_page :=
  cbn [after outcome emitted with_ui with_ffmpeg with_registry set_state
       ui ffmpeg ready loading registry
       State_config State_audioFile State_previewUrl State_status State_progress
       State_isGenerating State_error State_retryCount
       config audioFile previewUrl status progress isGenerating error retryCount].

Section Sessions.

Context {rt : Runtime} {boot : Bootstrap}.

Lemma progress_values_attempt_event (evs : list Event) :
  Forall attempt_event evs ->
  Forall (fun p => 0 <= p <= 100) (progress_values evs).
Proof.
  intros H. induction H as [| ev evs Hev _ IH]; [constructor |].
  change (ev :: evs) with ([ev] ++ evs)%list. rewrite progress_values_app.
  apply Forall_app. split; [| exact IH].
  destruct ev; try constructor. destruct p; repeat constructor; apply Hev.
Qed.

Lemma statuses_attempt_event (evs : list Event) :
  Forall attempt_event evs ->
  Forall (fun s => In s (map label [Preparing; RenderingFrames; TranscodingAudio;
                                    Encoding; Finalizing; Done]))
    (statuses evs).
Proof.
  intros H. induction H as [| ev evs Hev _ IH]; [constructor |].
  change (ev :: evs) with ([ev] ++ evs)%list. rewrite statuses_app.
  apply Forall_app. split; [| exact IH].
  destruct ev; try constructor; [exact Hev | constructor].
Qed.

Lemma count_failures_app (l1 l2 : list string) (n : Z) :
  count_failures (l1 ++ l2) n = count_failures l2 (count_failures l1 n).
Proof. apply fold_left_app. Qed.

Lemma count_failures_neutral (l : list string) :
  Forall (fun s => In s (map label [Preparing; RenderingFrames; TranscodingAudio;
                                    Encoding; Finalizing; Done])) l ->
  forall n, count_failures l n = n.
Proof.
  intros H. induction H as [| s l Hs _ IH]; intros n; [reflexivity |].
  unfold count_failures. cbn [fold_left]. fold (count_failures l).
  cbn in Hs.
  destruct Hs as [<- | [<- | [<- | [<- | [<- | [<- | []]]]]]]; apply IH.
Qed.

(** The effects of [generateVideo] are those of its [try] block followed
    by those of the [catch] and [finally] blocks. *)
Lemma generateVideo_emitted (w : World) (e : Encoder) :
  ffmpeg w = Some e ->
  emitted (generateVideo w) =
  (emitted (attempt (config (ui w)) (audioFile (ui w)) w)
   ++ match outcome (attempt (config (ui w)) (audioFile (ui w)) w) with
      | Returned _ => [SetIsGenerating false]
      | Thrown x =>
          [SetRetryCount (retryCount (ui w) + 1); SetError (Some (errorMessage x));
           SetStatus "Failed"; SetIsGenerating false]
      end)%list.
Proof.
  intros Hff. rewrite (generateVideo_unfold w e Hff).
  pose proof (attempt_run (config (ui w)) (audioFile (ui w)) w e Hff) as Hrun.
  destruct Hrun; reflexivity.
Qed.

Lemma generateVideo_progress_range (w : World) :
  Forall (fun p => 0 <= p <= 100) (progress_values (emitted (generateVideo w))).
Proof.
  destruct (ffmpeg w) as [e |] eqn:Hff.
  - rewrite (generateVideo_emitted w e Hff), progress_values_app.
    apply Forall_app. split.
    + apply progress_values_attempt_event, emits_attempt.
    + destruct (outcome (attempt (config (ui w)) (audioFile (ui w)) w)); constructor.
  - rewrite (generateVideo_not_ready w Hff). constructor.
Qed.

(** The attempt counter after [generateVideo] is the count of failures
    among the labels it showed, started from the counter before. *)
Lemma generateVideo_counts (w : World) :
  retryCount (ui (after (generateVideo w))) =
  count_failures (statuses (emitted (generateVideo w))) (retryCount (ui w)).
Proof.
  destruct (ffmpeg w) as [e |] eqn:Hff.
  - rewrite (generateVideo_emitted w e Hff), statuses_app, count_failures_app.
    rewrite (count_failures_neutral _
               (statuses_attempt_event _ (emits_attempt _ _ w))).
    rewrite (generateVideo_unfold w e Hff).
    pose proof (attempt_run (config (ui w)) (audioFile (ui w)) w e Hff) as Hrun.
    destruct Hrun; reflexivity.
  - rewrite (generateVideo_not_ready w Hff). reflexivity.
Qed.

Lemma pressSubmit_cases (w : World) :
  pressSubmit w = idle tt w \/
  (submitDisabled w = false /\ pressSubmit w = generateVideo w).
Proof.
  unfold pressSubmit, onSubmit, submitDisabled.
  destruct (negb (ready w) || loading w) eqn:E; cbn [orb].
  - left. reflexivity.
  - destruct (isGenerating (ui w)); [left | right; split]; reflexivity.
Qed.

Lemma pressReset_cases (w : World) :
  pressReset w = idle tt w \/ pressReset w = reset w.
Proof.
  unfold pressReset. destruct (resetDisabled w); [left | right]; reflexivity.
Qed.

Lemma backstage_bind {A B} (m : Async A) (k : A -> Async B) :
  Backstage m -> (forall a, Backstage (k a)) -> Backstage (bind m k).
Proof.
  intros Hm Hk w. unfold bind. destruct (Hm w) as (Hu & Hg & He).
  destruct (outcome (m w)) as [a | x]; cbn [after emitted].
  - destruct (Hk a (after (m w))) as (Hu' & Hg' & He').
    rewrite Hu', Hg', He', He, Hu, Hg. repeat split.
  - repeat split; assumption.
Qed.

Lemma backstage_of_outcome {A} (o : Outcome A) : Backstage (of_outcome o).
Proof. intros w. repeat split. Qed.

Lemma backstage_setReady b : Backstage (setReady b).
Proof. intros w. repeat split. Qed.

Lemma backstage_setLoading b : Backstage (setLoading b).
Proof. intros w. repeat split. Qed.

Lemma backstage_ensureInstance : Backstage ensureInstance.
Proof. intros w. unfold ensureInstance. destruct (ffmpeg w); repeat split. Qed.

Lemma backstage_callLoad c m k : Backstage (callLoad c m k).
Proof.
  intros w. unfold callLoad. destruct (ffmpeg w) as [e |]; [| repeat split].
  destruct (ffmpeg_load c m k e). repeat split.
Qed.

(** ** The object URLs made by [load] *)

Lemma grown_grown (k2 k1 : nat) (g : Registry) :
  grown k2 (grown k1 g) = grown (k2 + k1) g.
Proof. induction k2 as [| k2 IH]; [reflexivity | cbn [grown Nat.add]; rewrite IH; reflexivity]. Qed.

Lemma creations_app (k2 k1 : nat) (g : Registry) :
  (creations k1 g ++ creations k2 (grown k1 g))%list = creations (k2 + k1) g.
Proof.
  induction k2 as [| k2 IH]; [apply app_nil_r |].
  cbn [creations Nat.add]. rewrite app_assoc, IH, grown_grown. reflexivity.
Qed.

Lemma next_id_grown (k : nat) (g : Registry) :
  next_id (grown k g) = (k + next_id g)%nat.
Proof. induction k as [| k IH]; [reflexivity | cbn [grown next_id]; rewrite IH; reflexivity]. Qed.

Lemma live_grown (k : nat) (g : Registry) (u : ObjectURL) :
  In u (live (grown k g)) <->
  In u (live g) \/ exists i, (next_id g <= i < k + next_id g)%nat /\ u = blob_url i.
Proof.
  induction k as [| k IH].
  - cbn [grown]. split; [intros H; left; exact H |].
    intros [H | (i & Hi & _)]; [exact H | lia].
  - cbn [grown live]. rewrite next_id_grown. split.
    + intros [<- | H].
      * right. exists (k + next_id g)%nat. split; [lia | reflexivity].
      * apply IH in H as [H | (i & Hi & ->)]; [left; exact H |].
        right. exists i. split; [lia | reflexivity].
    + intros [H | (i & Hi & ->)].
      * right. apply IH. left. exact H.
      * destruct (Nat.eq_dec i (k + next_id g)) as [-> | Hne]; [left; reflexivity |].
        right. apply IH. right. exists i. split; [lia | reflexivity].
Qed.

Lemma length_live_grown (k : nat) (g : Registry) :
  List.length (live (grown k g)) = (k + List.length (live g))%nat.
Proof. induction k as [| k IH]; [reflexivity | cbn [grown live List.length]; rewrite IH; reflexivity]. Qed.

Lemma creations_silent {B} (f : Event -> list B) (k : nat) (g : Registry) :
  (forall u, f (CreateObjectURL u) = []) -> flat_map f (creations k g) = [].
Proof.
  intros Hf. induction k as [| k IH]; [reflexivity |].
  cbn [creations]. rewrite flat_map_app, IH. cbn [flat_map app]. rewrite Hf. reflexivity.
Qed.

Lemma fetching_backstage {A} (m : Async A) : Backstage m -> Fetching 0 m.
Proof.
  intros Hm w. destruct (Hm w) as (Hu & Hg & He). split; [exact Hu |].
  exists 0%nat. split; [lia |]. split; [exact Hg |]. split; [exact He |].
  intros _ _. reflexivity.
Qed.

Lemma fetching_bind {A B} (n1 n2 : nat) (m : Async A) (k : A -> Async B) :
  Fetching n1 m -> (forall a, Fetching n2 (k a)) -> Fetching (n1 + n2) (bind m k).
Proof.
  intros Hm Hk w. destruct (Hm w) as (Hu & k1 & Hk1 & Hg & He & Hret).
  unfold bind. destruct (outcome (m w)) as [a | x] eqn:Ho; cbn [after emitted outcome].
  - destruct (Hk a (after (m w))) as (Hu' & k2 & Hk2 & Hg' & He' & Hret').
    split; [rewrite Hu'; exact Hu |].
    exists (k2 + k1)%nat. split; [lia |].
    split; [rewrite Hg', Hg; apply grown_grown |].
    split; [rewrite He', He, Hg; apply creations_app |].
    intros b Hb. rewrite (Hret a eq_refl), (Hret' b Hb). lia.
  - split; [exact Hu |]. exists k1. split; [lia |].
    split; [exact Hg |]. split; [exact He |]. intros b Hb. discriminate Hb.
Qed.

(** Each call of [toBlobURL] that completes leaves one more object URL in
    the store. *)
Lemma fetching_toBlobURL (url mimeType : string) : Fetching 1 (toBlobURL url mimeType).
Proof.
  intros w. unfold toBlobURL. rewrite bind_of_outcome.
  destruct (fetchBlob url mimeType) as [blob | x].
  - split; [reflexivity |]. exists 1%nat. split; [lia |].
    split; [reflexivity |]. split; [reflexivity |]. intros _ _. reflexivity.
  - split; [reflexivity |]. exists 0%nat. split; [lia |].
    split; [reflexivity |]. split; [reflexivity |]. intros a Ha. discriminate Ha.
Qed.

(** [load] neither reads nor writes the React state of the component: a
    change of that state made while [load] runs (an edit of the form, a
    press of Reset; Submit is disabled until [load] is over) is the same
    change made before [load] starts.  A session can therefore take
    [load] as one step. *)
Lemma load_with_ui : Offstage load.
Proof.
  assert (Hbind : forall A B (m : Async A) (k : A -> Async B),
             Offstage m -> (forall a, Offstage (k a)) -> Offstage (bind m k)).
  { intros A B m k Hm Hk f w. unfold bind. rewrite (Hm f w). cbn [outcome after emitted].
    destruct (outcome (m w)) as [a | x]; [| reflexivity].
    rewrite (Hk a f (after (m w))). reflexivity. }
  assert (Hfetch : forall url mime, Offstage (toBlobURL url mime)).
  { intros url mime. apply Hbind; [intros f w; reflexivity | intros blob f w; reflexivity]. }
  intros f w. unfold load.
  change (ready (with_ui f w)) with (ready w).
  change (loading (with_ui f w)) with (loading w).
  destruct (ready w || loading w); [reflexivity |].
  destruct (negb window_defined); [reflexivity |].
  revert f w.
  apply Hbind; [intros f w; reflexivity | intros _].
  apply Hbind.
  { intros f w. unfold ensureInstance.
    change (ffmpeg (with_ui f w)) with (ffmpeg w).
    destruct (ffmpeg w); reflexivity. }
  intros _.
  apply Hbind; [apply Hfetch | intros coreURL].
  apply Hbind; [apply Hfetch | intros wasmURL].
  apply Hbind; [apply Hfetch | intros workerURL].
  apply Hbind.
  { intros f w. unfold callLoad.
    change (ffmpeg (with_ui f w)) with (ffmpeg w).
    destruct (ffmpeg w) as [e |]; [| reflexivity].
    destruct (ffmpeg_load coreURL wasmURL workerURL e). reflexivity. }
  intros _.
  apply Hbind; [intros f w; reflexivity | intros _].
  intros f w. reflexivity.
Qed.

(** What [load] does to the page: the React state is left alone, and
    object URLs are only created, three of them when [load] had work to
    do and completed. *)
Lemma load_page (w : World) :
  ui (after (load w)) = ui w /\
  exists k,
    (k <= 3)%nat /\
    registry (after (load w)) = grown k (registry w) /\
    emitted (load w) = creations k (registry w) /\
    (ready w = false -> loading w = false -> window_defined = true ->
     forall a, outcome (load w) = Returned a -> k = 3%nat) /\
    (ready w || loading w = true -> k = 0%nat).
Proof.
  unfold load. destruct (ready w || loading w) eqn:Hguard.
  { split; [reflexivity |]. exists 0%nat. split; [lia |].
    split; [reflexivity |]. split; [reflexivity |].
    split; [| reflexivity].
    intros Hr Hl. rewrite Hr, Hl in Hguard. discriminate Hguard. }
  destruct window_defined eqn:Hwin; cbn [negb].
  2:{ split; [reflexivity |]. exists 0%nat. split; [lia |].
      split; [reflexivity |]. split; [reflexivity |].
      split; [| discriminate]. intros _ _ H. discriminate H. }
  match goal with
  | |- context [after (?m w)] => assert (H : Fetching 3 m)
  end.
  { apply (fetching_bind 0 3); [apply fetching_backstage, backstage_setLoading | intros _].
    apply (fetching_bind 0 3); [apply fetching_backstage, backstage_ensureInstance | intros _].
    apply (fetching_bind 1 2); [apply fetching_toBlobURL | intros coreURL].
    apply (fetching_bind 1 1); [apply fetching_toBlobURL | intros wasmURL].
    apply (fetching_bind 1 0); [apply fetching_toBlobURL | intros workerURL].
    apply (fetching_bind 0 0); [apply fetching_backstage, backstage_callLoad | intros _].
    apply (fetching_bind 0 0); [apply fetching_backstage, backstage_setReady | intros _].
    apply fetching_backstage, backstage_setLoading. }
  destruct (H w) as (Hu & k & Hk & Hg & He & Hret).
  split; [exact Hu |]. exists k. split; [exact Hk |].
  split; [exact Hg |]. split; [exact He |].
  split; [intros _ _ _; exact Hret | discriminate].
Qed.

Lemma ObjectURL_eqb_eq (a b : ObjectURL) : ObjectURL_eqb a b = true <-> a = b.
Proof.
  destruct a as [i], b as [j]. cbn. rewrite Nat.eqb_eq.
  split; [intros -> | intros H; injection H]; trivial.
Qed.

Lemma alive_In (u : ObjectURL) (g : Registry) : alive u g = true <-> In u (live g).
Proof.
  unfold alive. rewrite existsb_exists. split.
  - intros (v & Hin & Heq). apply ObjectURL_eqb_eq in Heq. subst v. exact Hin.
  - intros Hin. exists u. split; [exact Hin | apply ObjectURL_eqb_eq; reflexivity].
Qed.

(** The handle a render publishes is live once the handle it replaces has
    been revoked, because the browser never hands out the same URL twice. *)
Lemma alive_replaced (old : option ObjectURL) (g : Registry) :
  (forall u, old = Some u -> alive u g = true) ->
  (forall i, In (blob_url i) (live g) -> (i < next_id g)%nat) ->
  alive (blob_url (next_id g)) (replaced old g) = true /\
  (forall i, In (blob_url i) (live (replaced old g)) -> (i < next_id (replaced old g))%nat).
Proof.
  intros Hlive Hfresh. split.
  - apply alive_In. unfold replaced. cbn [live].
    destruct old as [[o] |]; [| left; reflexivity].
    apply filter_In. split; [left; reflexivity |].
    assert (Ho : (o < next_id g)%nat).
    { apply Hfresh. apply alive_In. apply Hlive. reflexivity. }
    cbn. apply negb_true_iff. apply Nat.eqb_neq. lia.
  - intros i Hi. unfold replaced in Hi |- *. cbn [live next_id] in Hi |- *.
    assert (Hin : In (blob_url i) (blob_url (next_id g) :: live g)).
    { destruct old; [apply filter_In in Hi as [Hi _] |]; exact Hi. }
    destruct Hin as [Heq | Hin].
    + injection Heq as <-. lia.
    + apply Hfresh in Hin. lia.
Qed.


Lemma settled_generateVideo (w : World) :
  Settled w -> submitDisabled w = false -> Settled (after (generateVideo w)).
Proof.
  intros [Hflag Henc Hstatus Hcount Hlive Hfresh] Hen.
  unfold submitDisabled in Hen.
  apply orb_false_iff in Hen as [Hen _]. apply orb_false_iff in Hen as [Hready Hload].
  apply negb_false_iff in Hready.
  destruct (Henc Hready) as [Hff _].
  destruct (ffmpeg w) as [e |] eqn:Hffe; [clear Hff | contradiction Hff; reflexivity].
  rewrite (generateVideo_unfold w e Hffe).
  pose proof (attempt_run (config (ui w)) (audioFile (ui w)) w e Hffe) as Hrun.
  destruct Hrun as [st p e' evs x Hq | e' dels fevs data Hdels Hfevs Hframes Hprog];
    unfold finish; cbn [outcome after]; cbv zeta;
    cbn [after with_ui ui ffmpeg ready loading registry
         State_isGenerating State_status State_error State_retryCount
         config audioFile previewUrl status progress isGenerating error retryCount].
  - constructor; simpl_page.
    + reflexivity.
    + intros _. split; [discriminate | exact Hload].
    + right. right. split; [reflexivity |]. split; [discriminate | lia].
    + lia.
    + exact Hlive.
    + exact Hfresh.
  - destruct (alive_replaced (previewUrl (ui w)) (registry w)) as [Hnew Hfr].
    { intros u Hu. apply Hlive. exact Hu. }
    { exact Hfresh. }
    constructor; simpl_page.
    + reflexivity.
    + intros _. split; [discriminate | exact Hload].
    + right. left. repeat split; discriminate.
    + exact Hcount.
    + intros u Hu. injection Hu as <-. exact Hnew.
    + exact Hfr.
Qed.

Lemma settled_reset (w : World) : Settled w -> Settled (after (reset w)).
Proof.
  intros [Hflag Henc Hstatus Hcount Hlive Hfresh]. rewrite reset_run.
  constructor; simpl_page.
  - exact Hflag.
  - exact Henc.
  - left. repeat split.
  - lia.
  - discriminate.
  - exact Hfresh.
Qed.

Lemma settled_edit (w : World) (f : State -> State) ev :
  (forall s, previewUrl (f s) = previewUrl s /\ status (f s) = status s /\
             progress (f s) = progress s /\ isGenerating (f s) = isGenerating s /\
             error (f s) = error s /\ retryCount (f s) = retryCount s) ->
  Settled w -> Settled (after (set_state ev f w)).
Proof.
  intros Hf [Hflag Henc Hstatus Hcount Hlive Hfresh].
  destruct (Hf (ui w)) as (Hu & Hs & Hp & Hg & He & Hr).
  constructor; simpl_page;
    rewrite ?Hu, ?Hs, ?Hp, ?Hg, ?He, ?Hr; assumption.
Qed.

(** The effects of [load] are invisible to every reading of a list of
    effects that ignores the creation of object URLs. *)
Lemma load_silent {B} (f : Event -> list B) (w : World) :
  (forall u, f (CreateObjectURL u) = []) -> flat_map f (emitted (load w)) = [].
Proof.
  intros Hf. destruct (load_page w) as (_ & k & _ & _ & -> & _).
  apply creations_silent, Hf.
Qed.

Lemma bind_toBlobURL {B} (url mimeType : string) (k : ObjectURL -> Async B)
    s e rd ld g :
  bind (toBlobURL url mimeType) k (Build_World s e rd ld g) =
  match fetchBlob url mimeType with
  | Returned _ =>
      prepend [CreateObjectURL (blob_url (next_id g))]
        (k (blob_url (next_id g)) (Build_World s e rd ld (grown 1 g)))
  | Thrown x =>
      {| after := Build_World s e rd ld g; emitted := []; outcome := Thrown x |}
  end.
Proof.
  unfold toBlobURL. rewrite bind_assoc, bind_of_outcome.
  destruct (fetchBlob url mimeType); [rewrite bind_createObjectURL |]; reflexivity.
Qed.

(** What [load] leaves behind when it has work to do: the encoder is in
    place either way; the hook is ready when [load] completed, and still
    loading when it threw. *)
Lemma load_run (w : World) :
  ready w = false -> loading w = false -> window_defined = true ->
  ffmpeg (after (load w)) <> None /\
  ((exists a, outcome (load w) = Returned a) /\
     ready (after (load w)) = true /\ loading (after (load w)) = false
   \/
   (exists x, outcome (load w) = Thrown x) /\
     ready (after (load w)) = false /\ loading (after (load w)) = true).
Proof.
  intros Hr Hl Hw. unfold load. rewrite Hr, Hl, Hw. cbn [orb negb].
  destruct w as [s f rd ld g]. cbn [ready loading] in Hr, Hl. subst rd ld.
  rewrite (bind_returned (setLoading true) _ _ _ _ _ eq_refl).
  assert (Hinst : exists e,
             ensureInstance (Build_World s f false true g) =
             {| after := Build_World s (Some e) false true g;
                emitted := []; outcome := Returned tt |}).
  { unfold ensureInstance. cbn [ffmpeg].
    destruct f as [e |]; [exists e | exists new_FFmpeg]; reflexivity. }
  destruct Hinst as [e Hinst].
  rewrite (bind_returned _ _ _ _ _ _ Hinst). rewrite !prepend_nil.
  rewrite bind_toBlobURL. destruct (fetchBlob _ _) as [coreBlob | x].
  2:{ cbn. split; [discriminate |]. right. repeat split. exists x. reflexivity. }
  rewrite bind_toBlobURL. destruct (fetchBlob _ _) as [wasmBlob | x].
  2:{ cbn. split; [discriminate |]. right. repeat split. exists x. reflexivity. }
  rewrite bind_toBlobURL. destruct (fetchBlob _ _) as [workerBlob | x].
  2:{ cbn. split; [discriminate |]. right. repeat split. exists x. reflexivity. }
  cbn [prepend after outcome].
  set (g3 := grown 1 (grown 1 (grown 1 g))).
  set (coreURL := blob_url (next_id g)).
  set (wasmURL := blob_url (next_id (grown 1 g))).
  set (workerURL := blob_url (next_id (grown 1 (grown 1 g)))).
  assert (Hcall : callLoad coreURL wasmURL workerURL (Build_World s (Some e) false true g3) =
                  {| after := Build_World s
                                (Some (fst (ffmpeg_load coreURL wasmURL workerURL e)))
                                false true g3;
                     emitted := [];
                     outcome := snd (ffmpeg_load coreURL wasmURL workerURL e) |}).
  { unfold callLoad. cbn [ffmpeg].
    destruct (ffmpeg_load coreURL wasmURL workerURL e); reflexivity. }
  destruct (ffmpeg_load coreURL wasmURL workerURL e) as [e' [b | x]];
    cbn [fst snd] in Hcall.
  - rewrite (bind_returned _ _ _ _ _ _ Hcall). cbn.
    split; [discriminate |]. left. repeat split. exists tt. reflexivity.
  - rewrite (bind_thrown _ _ _ _ _ _ Hcall). cbn.
    split; [discriminate |]. right. repeat split. exists x. reflexivity.
Qed.

Lemma settled_load (w : World) : Settled w -> Settled (after (load w)).
Proof.
  intros Hs.
  destruct (load_page w) as (Hu & k & _ & Hg & _).
  destruct (ready w || loading w) eqn:Hguard.
  { unfold load. rewrite Hguard. exact Hs. }
  destruct window_defined eqn:Hwin.
  2:{ unfold load. rewrite Hguard, Hwin. exact Hs. }
  apply orb_false_iff in Hguard as [Hr Hl].
  destruct (load_run w Hr Hl Hwin) as [Hff Hcases].
  destruct Hs as [Hflag Henc Hstatus Hcount Hlive Hfresh].
  constructor; rewrite ?Hu, ?Hg; try assumption.
  - intros Hready. split; [exact Hff |].
    destruct Hcases as [(_ & _ & Hl') | (_ & Hr' & _)]; [exact Hl' | congruence].
  - intros u Hpub. apply alive_In, live_grown. left. apply alive_In, Hlive, Hpub.
  - intros i Hi. rewrite next_id_grown.
    apply live_grown in Hi as [Hi | (j & Hj & E)];
      [apply Hfresh in Hi; lia | injection E as ->; lia].
Qed.

Lemma settled_perform (a : Action) (w : World) :
  Settled w -> Settled (after (perform a w)).
Proof.
  intros Hs. destruct a as [| | | key value | file]; cbn [perform].
  - apply settled_load. exact Hs.
  - destruct (pressSubmit_cases w) as [-> | [Hen ->]];
      [exact Hs | apply settled_generateVideo; assumption].
  - destruct (pressReset_cases w) as [-> | ->];
      [exact Hs | apply settled_reset; exact Hs].
  - unfold onConfigChange. rewrite bind_get. unfold setConfig.
    apply settled_edit; [| exact Hs]. intros s. repeat split.
  - unfold onAudioChange, setAudioFile.
    apply settled_edit; [| exact Hs]. intros s. repeat split.
Qed.

Lemma settled_freshPage : Settled freshPage.
Proof.
  constructor; cbn; try discriminate; try reflexivity; try lia.
  all: try (left; repeat split; reflexivity).
  all: try (intros i []).
Qed.

Lemma settled_session (actions : list Action) :
  forall w, Settled w -> Settled (after (session actions w)).
Proof.
  induction actions as [| a rest IH]; intros w Hs; cbn [session after].
  - exact Hs.
  - apply IH. apply settled_perform. exact Hs.
Qed.

(** ** Edits of the form while a render is in flight *)

Lemma same_job_refl (s : State) : same_job s s.
Proof. repeat split. Qed.

Lemma same_job_trans (s1 s2 s3 : State) :
  same_job s1 s2 -> same_job s2 s3 -> same_job s1 s3.
Proof.
  intros (H1 & H2 & H3 & H4 & H5 & H6) (K1 & K2 & K3 & K4 & K5 & K6).
  repeat split; congruence.
Qed.

Lemma apply_event_same_job (ev : Event) (s s0 : State) :
  same_job s s0 -> same_job (apply_event ev s) (apply_event ev s0).
Proof.
  intros (H1 & H2 & H3 & H4 & H5 & H6).
  destruct ev; repeat split; cbn; assumption.
Qed.

Lemma form_event_same_job (ev : Event) (s : State) :
  is_form_event ev -> same_job (apply_event ev s) s.
Proof. destruct ev; intros []; repeat split. Qed.

Lemma replay_same_job (evs : list Event) :
  forall s s0, same_job s s0 -> same_job (replay evs s) (replay evs s0).
Proof.
  unfold replay. induction evs as [| ev evs IH]; intros s s0 H; [exact H |].
  cbn [fold_left]. apply IH, apply_event_same_job, H.
Qed.

(** An edit is one update of the form, and nothing else. *)
Lemma edit_run (e : Edit) (w : World) :
  exists ev,
    is_form_event ev /\
    edit e w =
    {| after := with_ui (apply_event ev) w; emitted := [ev]; outcome := Returned tt |}.
Proof.
  destruct e as [key value | file].
  - exists (SetConfig (config_with key value (config (ui w)))). split; [exact I |].
    unfold edit, onConfigChange. rewrite bind_get. reflexivity.
  - exists (SetAudioFile file). split; [exact I | reflexivity].
Qed.

Lemma edits_from_spec (w : World) (edits : list Edit) :
  forall s,
    Forall is_form_event (snd (edits_from w edits s)) /\
    fst (edits_from w edits s) = replay (snd (edits_from w edits s)) s /\
    same_job (fst (edits_from w edits s)) s.
Proof.
  induction edits as [| e rest IH]; intros s.
  - cbn. split; [constructor |]. split; [reflexivity | apply same_job_refl].
  - cbn [edits_from].
    destruct (edit_run e (with_ui (fun _ => s) w)) as (ev & Hev & ->).
    cbn [after emitted].
    change (ui (with_ui (apply_event ev) (with_ui (fun _ => s) w)))
      with (apply_event ev s).
    destruct (IH (apply_event ev s)) as (Hform & Hreplay & Hjob).
    destruct (edits_from w rest (apply_event ev s)) as [s' evs].
    cbn [fst snd] in *. split; [constructor; assumption |]. split.
    + exact Hreplay.
    + apply (same_job_trans _ _ _ Hjob), form_event_same_job, Hev.
Qed.

Lemma weave_cons (w : World) (ev ev2 : Event) (rest : list Event) during s :
  weave w (ev :: ev2 :: rest) during s =
  (fst (weave w (ev2 :: rest) (tl during)
          (fst (edits_from w (hd [] during) (apply_event ev s)))),
   (ev :: snd (edits_from w (hd [] during) (apply_event ev s))
       ++ snd (weave w (ev2 :: rest) (tl during)
                 (fst (edits_from w (hd [] during) (apply_event ev s)))))%list).
Proof.
  change (weave w (ev :: ev2 :: rest) during s)
    with (let (s2, evs2) := edits_from w (hd [] during) (apply_event ev s) in
          let (s3, evs3) := weave w (ev2 :: rest) (tl during) s2 in
          (s3, (ev :: evs2 ++ evs3)%list)).
  destruct (edits_from w (hd [] during) (apply_event ev s)) as [s2 evs2].
  cbn [fst snd].
  destruct (weave w (ev2 :: rest) (tl during) s2) as [s3 evs3].
  reflexivity.
Qed.

(** The state a woven run ends in is the replay of its effects; it
    differs from the replay of the effects of the render at most in the
    form; and the edits add effects of the form only. *)
Lemma weave_spec (w : World) (evs : list Event) :
  forall during s,
    fst (weave w evs during s) = replay (snd (weave w evs during s)) s /\
    (forall s0, same_job s s0 -> same_job (fst (weave w evs during s)) (replay evs s0)) /\
    (forall B (f : Event -> list B),
       (forall ev, is_form_event ev -> f ev = []) ->
       flat_map f (snd (weave w evs during s)) = flat_map f evs).
Proof.
  induction evs as [| ev rest IH]; intros during s.
  - cbn. split; [reflexivity |]. split; [intros s0 H; exact H | reflexivity].
  - destruct rest as [| ev2 rest'].
    + cbn. split; [reflexivity |].
      split; [intros s0 H; apply apply_event_same_job, H | reflexivity].
    + remember (ev2 :: rest') as rest eqn:Erest.
      assert (Hstep : weave w (ev :: rest) during s =
                      (fst (weave w rest (tl during)
                              (fst (edits_from w (hd [] during) (apply_event ev s)))),
                       ev :: snd (edits_from w (hd [] during) (apply_event ev s))
                          ++ snd (weave w rest (tl during)
                                    (fst (edits_from w (hd [] during) (apply_event ev s)))))%list).
      { subst rest. apply weave_cons. }
      rewrite Hstep. cbn [fst snd].
      destruct (edits_from_spec w (hd [] during) (apply_event ev s))
        as (Hform & Hreplay & Hjob).
      set (s2 := fst (edits_from w (hd [] during) (apply_event ev s))) in *.
      set (evs2 := snd (edits_from w (hd [] during) (apply_event ev s))) in *.
      destruct (IH (tl during) s2) as (IHreplay & IHjob & IHflat).
      split; [| split].
      * change (ev :: evs2 ++ snd (weave w rest (tl during) s2))%list
          with ([ev] ++ evs2 ++ snd (weave w rest (tl during) s2))%list.
        rewrite !replay_app. change (replay [ev] s) with (apply_event ev s).
        rewrite <- Hreplay. exact IHreplay.
      * intros s0 H. change (replay (ev :: rest) s0) with (replay rest (apply_event ev s0)).
        apply IHjob. apply (same_job_trans _ _ _ Hjob), apply_event_same_job, H.
      * intros B f Hf.
        change (ev :: evs2 ++ snd (weave w rest (tl during) s2))%list
          with ([ev] ++ evs2 ++ snd (weave w rest (tl during) s2))%list.
        rewrite !flat_map_app, (IHflat B f Hf).
        assert (Hnil : flat_map f evs2 = []).
        { clear - Hform Hf. induction Hform as [| x l Hx _ IHl]; [reflexivity |].
          cbn [flat_map]. rewrite (Hf x Hx), IHl. reflexivity. }
        rewrite Hnil. cbn [flat_map app]. rewrite app_nil_r. reflexivity.
Qed.

(** Edits are only made between two effects of the render: the first and
    the last effect of a woven run are those of the render. *)
Lemma weave_last (w : World) (l : list Event) (z : Event) :
  forall during s, exists pre, snd (weave w (l ++ [z]) during s) = (pre ++ [z])%list.
Proof.
  induction l as [| x l IH]; intros during s.
  - exists []. reflexivity.
  - assert (Hcons : exists y l', (l ++ [z])%list = y :: l').
    { destruct l as [| y l']; [exists z, [] | exists y, (l' ++ [z])%list]; reflexivity. }
    destruct Hcons as (y & l' & Hcons).
    cbn [app]. rewrite Hcons, weave_cons, <- Hcons. cbn [snd].
    destruct (IH (tl during) (fst (edits_from w (hd [] during) (apply_event x s))))
      as [pre ->].
    exists (x :: snd (edits_from w (hd [] during) (apply_event x s)) ++ pre)%list.
    cbn [app]. rewrite <- app_assoc. reflexivity.
Qed.

Lemma weave_shape (w : World) (a z : Event) (mid : list Event) during s :
  exists mid', snd (weave w (a :: mid ++ [z]) during s) = (a :: mid' ++ [z])%list.
Proof.
  assert (Hcons : exists y l', (mid ++ [z])%list = y :: l').
  { destruct mid as [| y l']; [exists z, [] | exists y, (l' ++ [z])%list]; reflexivity. }
  destruct Hcons as (y & l' & Hcons).
  rewrite Hcons, weave_cons, <- Hcons. cbn [snd].
  destruct (weave_last w mid z (tl during)
              (fst (edits_from w (hd [] during) (apply_event a s)))) as [pre ->].
  exists (snd (edits_from w (hd [] during) (apply_event a s)) ++ pre)%list.
  rewrite <- app_assoc. reflexivity.
Qed.

(** A render with edits in between differs from the render alone at most
    in the form and in the effects of the form. *)
Lemma generateVideo_amid_run (during : list (list Edit)) (w : World) :
  let r := generateVideo_amid during w in
  same_job (ui (after r)) (ui (after (generateVideo w))) /\
  ffmpeg (after r) = ffmpeg (after (generateVideo w)) /\
  ready (after r) = ready (after (generateVideo w)) /\
  loading (after r) = loading (after (generateVideo w)) /\
  registry (after r) = registry (after (generateVideo w)) /\
  outcome r = outcome (generateVideo w) /\
  ui (after r) = replay (emitted r) (ui w) /\
  emitted r = snd (weave w (emitted (generateVideo w)) during (ui w)) /\
  (forall B (f : Event -> list B),
     (forall ev, is_form_event ev -> f ev = []) ->
     flat_map f (emitted r) = flat_map f (emitted (generateVideo w))).
Proof.
  intros r. subst r. unfold generateVideo_amid.
  destruct (weave_spec w (emitted (generateVideo w)) during (ui w))
    as (Hreplay & Hjob & Hflat).
  destruct (weave w (emitted (generateVideo w)) during (ui w)) as [s evs].
  cbn [fst snd after emitted outcome] in *.
  unfold with_ui. cbn [ui ffmpeg ready loading registry].
  split; [rewrite generateVideo_replay; apply Hjob, same_job_refl |].
  repeat (split; [reflexivity |]).
  split; [exact Hreplay |]. split; [reflexivity | exact Hflat].
Qed.

Lemma settled_same_job (w1 w2 : World) :
  same_job (ui w1) (ui w2) ->
  ffmpeg w1 = ffmpeg w2 -> ready w1 = ready w2 -> loading w1 = loading w2 ->
  registry w1 = registry w2 ->
  Settled w2 -> Settled w1.
Proof.
  intros (H1 & H2 & H3 & H4 & H5 & H6) Hf Hr Hl Hg
         [Hflag Henc Hstatus Hcount Hlive Hfresh].
  constructor; rewrite ?H1, ?H2, ?H3, ?H4, ?H5, ?H6, ?Hf, ?Hr, ?Hl, ?Hg; assumption.
Qed.

Lemma pressSubmit_amid_cases (during : list (list Edit)) (w : World) :
  pressSubmit_amid during w = idle tt w \/
  submitDisabled w = false /\ pressSubmit_amid during w = generateVideo_amid during w.
Proof.
  unfold pressSubmit_amid. destruct (submitDisabled w) eqn:E; [left; reflexivity |].
  right. split; [reflexivity |]. unfold submitDisabled in E.
  apply orb_false_iff in E as [E _]. rewrite E. reflexivity.
Qed.

Lemma settled_perform_step (st : Step) (w : World) :
  Settled w -> Settled (after (perform_step st w)).
Proof.
  intros Hs. destruct st as [a | during]; cbn [perform_step].
  - apply settled_perform, Hs.
  - destruct (pressSubmit_amid_cases during w) as [-> | [Hen ->]]; [exact Hs |].
    destruct (generateVideo_amid_run during w) as (Hjob & Hf & Hr & Hl & Hg & _).
    apply (settled_same_job _ (after (generateVideo w)) Hjob Hf Hr Hl Hg).
    apply settled_generateVideo; assumption.
Qed.

Lemma settled_live_session (steps : list Step) :
  forall w, Settled w -> Settled (after (live_session steps w)).
Proof.
  induction steps as [| st rest IH]; intros w Hs; cbn [live_session after].
  - exact Hs.
  - apply IH, settled_perform_step, Hs.
Qed.

(** Between a first effect that sets the flag and a last one that clears
    it, with no other write of the flag, the flag is set. *)
Lemma flag_set_inside (evs mid pre post : list Event) (s : State) :
  generating_flags evs = [true; false] ->
  evs = (SetIsGenerating true :: mid ++ [SetIsGenerating false])%list ->
  evs = (pre ++ post)%list ->
  pre <> [] -> post <> [] ->
  isGenerating (replay pre s) = true.
Proof.
  intros Hflags Hev Hsplit Hpre Hpost.
  rewrite Hsplit in Hflags, Hev. rewrite generating_flags_app in Hflags.
  destruct pre as [| ev pre]; [contradiction |].
  cbn [app] in Hev. injection Hev as -> Hev.
  destruct (exists_last Hpost) as (post' & y & ->).
  rewrite app_assoc in Hev. apply app_inj_tail in Hev as [_ ->].
  rewrite generating_flags_app in Hflags.
  change (generating_flags (SetIsGenerating true :: pre))
    with (true :: generating_flags pre) in Hflags.
  change (generating_flags [SetIsGenerating false]) with [false] in Hflags.
  rewrite isGenerating_replay.
  change (generating_flags (SetIsGenerating true :: pre))
    with (true :: generating_flags pre).
  destruct (generating_flags pre) as [| b l]; [reflexivity |].
  cbn [app] in Hflags. injection Hflags as Hb Hl.
  destruct l; destruct (generating_flags post'); discriminate.
Qed.

(** The same holds of a render with edits of the form in between. *)
Lemma in_flight_amid (during : list (list Edit)) (w : World) (e : Encoder)
    (pre post : list Event) :
  ffmpeg w = Some e ->
  emitted (generateVideo_amid during w) = (pre ++ post)%list ->
  pre <> [] -> post <> [] ->
  isGenerating (replay pre (ui w)) = true.
Proof.
  intros Hff Hsplit Hpre Hpost.
  destruct (generateVideo_amid_run during w) as (_ & _ & _ & _ & _ & _ & _ & Hev & Hflat).
  destruct (generating_flag_brackets_attempt w e Hff) as [Hflags [mid Hmid]].
  destruct (weave_shape w (SetIsGenerating true) (SetIsGenerating false) mid
              during (ui w)) as [mid' Hshape].
  rewrite <- Hmid, <- Hev in Hshape.
  apply (flag_set_inside (emitted (generateVideo_amid during w)) mid' pre post);
    try assumption.
  unfold generating_flags. rewrite Hflat; [exact Hflags |].
  intros ev Hform. destruct ev; try contradiction; reflexivity.
Qed.

End Sessions.

Section SessionProperties.

Context {rt : Runtime} {boot : Bootstrap}.

(** X1.  A render is in flight from the first effect of
    [generateVideo] to its last, the edits of the form made meanwhile
    included: at every moment strictly inside, the in-flight flag is set.
    At every other moment of a session that starts at the fresh page,
    that is whenever no render is in flight, the flag is clear and the
    status, error, progress, published URL and attempt counter agree:
    Idle goes with no error, no progress, no published URL and a counter
    of zero; Done with no error, a progress of 100 and a published URL;
    Failed with an error and a positive counter.  The status is then
    never the label of an intermediate phase. *)
Theorem session_status_consistent (steps : list Step) :
  let w := after (live_session steps freshPage) in
  (isGenerating (ui w) = false /\
   ((status (ui w) = label Idle /\ error (ui w) = None /\ progress (ui w) = None
       /\ previewUrl (ui w) = None /\ retryCount (ui w) = 0) \/
    (status (ui w) = label Done /\ error (ui w) = None /\ progress (ui w) = Some 100
       /\ previewUrl (ui w) <> None) \/
    (status (ui w) = label Failed /\ error (ui w) <> None /\ 0 < retryCount (ui w)))) /\
  (forall during pre post,
     submitDisabled w = false ->
     emitted (pressSubmit_amid during w) = (pre ++ post)%list ->
     pre <> [] -> post <> [] ->
     isGenerating (replay pre (ui w)) = true).
Proof.
  intros w. subst w.
  destruct (settled_live_session steps freshPage settled_freshPage)
    as [Hflag Henc Hstatus _ _ _].
  split; [split; [exact Hflag | exact Hstatus] |].
  intros during pre post Hen Hsplit Hpre Hpost.
  set (w := after (live_session steps freshPage)) in *.
  destruct (pressSubmit_amid_cases during w) as [Hidle | [_ Hrun]].
  { rewrite Hidle in Hsplit. cbn [idle emitted] in Hsplit.
    destruct pre; [contradiction Hpre; reflexivity | discriminate Hsplit]. }
  rewrite Hrun in Hsplit.
  unfold submitDisabled in Hen.
  apply orb_false_iff in Hen as [Hen _]. apply orb_false_iff in Hen as [Hready _].
  apply negb_false_iff in Hready.
  destruct (Henc Hready) as [Hff _].
  destruct (ffmpeg w) as [e |] eqn:Hffe; [| contradiction Hff; reflexivity].
  apply (in_flight_amid during w e pre post Hffe Hsplit Hpre Hpost).
Qed.

(** X2.  In any session that starts at the fresh page, the object URL
    offered for preview and download is always live: the component never
    publishes, or keeps published, a URL that has been revoked. *)
Theorem session_published_handle_live (actions : list Action) (u : ObjectURL) :
  previewUrl (ui (after (session actions freshPage))) = Some u ->
  alive u (registry (after (session actions freshPage))) = true.
Proof.
  destruct (settled_session actions freshPage settled_freshPage) as [_ _ _ _ Hlive _].
  apply Hlive.
Qed.

(** X3.  In any session that starts at the fresh page, a press of the
    submit button either does nothing or runs the [try] block with an
    encoder in place: whenever the button is enabled the encoder exists,
    so the not-ready branch of [generateVideo] is never taken from the
    form. *)
Theorem session_submit_has_encoder (actions : list Action) :
  let w := after (session actions freshPage) in
  (submitDisabled w = false -> ffmpeg w <> None) /\
  (pressSubmit w = idle tt w \/
   exists e, ffmpeg w = Some e /\
             pressSubmit w = finish (attempt (config (ui w)) (audioFile (ui w)) w)).
Proof.
  intros w. subst w.
  destruct (settled_session actions freshPage settled_freshPage) as [_ Henc _ _ _ _].
  set (w := after (session actions freshPage)) in *.
  assert (H : submitDisabled w = false -> ffmpeg w <> None).
  { intros Hen. unfold submitDisabled in Hen.
    apply orb_false_iff in Hen as [Hen _]. apply orb_false_iff in Hen as [Hready _].
    apply negb_false_iff in Hready. apply (Henc Hready). }
  split; [exact H |].
  destruct (pressSubmit_cases w) as [Hidle | [Hen Hrun]]; [left; exact Hidle | right].
  destruct (ffmpeg w) as [e |] eqn:Hff; [| contradiction (H Hen); reflexivity].
  exists e. split; [reflexivity |].
  rewrite Hrun. apply (generateVideo_unfold w e Hff).
Qed.

Lemma perform_counts (a : Action) (w : World) :
  retryCount (ui (after (perform a w))) =
  count_failures (statuses (emitted (perform a w))) (retryCount (ui w)).
Proof.
  destruct a as [| | | key value | file]; cbn [perform].
  - destruct (load_page w) as (-> & _). unfold statuses.
    rewrite load_silent by reflexivity. reflexivity.
  - destruct (pressSubmit_cases w) as [-> | [_ ->]];
      [reflexivity | apply generateVideo_counts].
  - destruct (pressReset_cases w) as [-> | ->]; [reflexivity |].
    rewrite reset_run. reflexivity.
  - reflexivity.
  - reflexivity.
Qed.

(** X4.  Over any session, from any page, the attempt counter at the end
    is the number of Failed labels shown since the last Idle label (that
    is since the last Reset), added to the counter at the start when
    there was no Reset: every failed attempt counts once, and a
    successful render leaves the counter as it is. *)
Theorem session_counter (actions : list Action) :
  forall w,
    retryCount (ui (after (session actions w))) =
    count_failures (statuses (emitted (session actions w))) (retryCount (ui w)).
Proof.
  induction actions as [| a rest IH]; intros w; cbn [session after emitted].
  - reflexivity.
  - rewrite statuses_app, count_failures_app, <- perform_counts. apply IH.
Qed.

Lemma perform_progress_range (a : Action) (w : World) :
  Forall (fun p => 0 <= p <= 100) (progress_values (emitted (perform a w))).
Proof.
  destruct a as [| | | key value | file]; cbn [perform].
  - unfold progress_values. rewrite load_silent by reflexivity. constructor.
  - destruct (pressSubmit_cases w) as [-> | [_ ->]];
      [constructor | apply generateVideo_progress_range].
  - destruct (pressReset_cases w) as [-> | ->]; [constructor |].
    rewrite reset_run. constructor.
  - constructor.
  - constructor.
Qed.

(** X5.  Every progress value reported, by [generateVideo] in any world
    and over any session, lies between 0 and 100; the clamp of the
    progress bar therefore never changes the value it draws. *)
Theorem progress_always_in_range :
  (forall w,
     Forall (fun p => 0 <= p <= 100 /\ barWidth (Some p) = Some p)
       (progress_values (emitted (generateVideo w)))) /\
  (forall actions w,
     Forall (fun p => 0 <= p <= 100 /\ barWidth (Some p) = Some p)
       (progress_values (emitted (session actions w)))).
Proof.
  assert (Hclamp : forall l,
             Forall (fun p => 0 <= p <= 100) l ->
             Forall (fun p => 0 <= p <= 100 /\ barWidth (Some p) = Some p) l).
  { intros l. apply Forall_impl. intros p Hp. split; [exact Hp |].
    unfold barWidth, JSNumber.Math_min. f_equal. lia. }
  split.
  - intros w. apply Hclamp, generateVideo_progress_range.
  - intros actions w. apply Hclamp. revert w.
    induction actions as [| a rest IH]; intros w; cbn [session emitted].
    + constructor.
    + rewrite progress_values_app. apply Forall_app.
      split; [apply perform_progress_range | apply IH].
Qed.

(** X6.  When [load] has work to do and completes, the hook is ready and
    no longer loading, the encoder is in place and the React state is
    untouched.  Its three calls of [toBlobURL] have each created an
    object URL; these are its only effects, none of the three is revoked,
    and the URLs that were live before still are.  The submit button is
    then disabled only by a render in flight, and a second [load] does
    nothing. *)
Theorem load_completes (w : World) :
  ready w = false -> loading w = false -> window_defined = true ->
  outcome (load w) = Returned tt ->
  let n := next_id (registry w) in
  ready (after (load w)) = true /\
  loading (after (load w)) = false /\
  ffmpeg (after (load w)) <> None /\
  ui (after (load w)) = ui w /\
  emitted (load w) =
    [CreateObjectURL (blob_url n); CreateObjectURL (blob_url (S n));
     CreateObjectURL (blob_url (S (S n)))] /\
  live (registry (after (load w))) =
    blob_url (S (S n)) :: blob_url (S n) :: blob_url n :: live (registry w) /\
  next_id (registry (after (load w))) = S (S (S n)) /\
  submitDisabled (after (load w)) = isGenerating (ui w) /\
  load (after (load w)) = idle tt (after (load w)).
Proof.
  intros Hr Hl Hw Hok n. subst n.
  destruct (load_page w) as (Hu & k & _ & Hg & He & Hfull & _).
  rewrite (Hfull Hr Hl Hw tt Hok) in Hg, He.
  destruct (load_run w Hr Hl Hw) as [Hff [(_ & Hr' & Hl') | ([x Hx] & _)]];
    [| congruence].
  split; [exact Hr' |]. split; [exact Hl' |]. split; [exact Hff |].
  split; [exact Hu |]. split; [rewrite He; reflexivity |].
  split; [rewrite Hg; reflexivity |]. split; [rewrite Hg; reflexivity |].
  split.
  - unfold submitDisabled. rewrite Hr', Hl', Hu. reflexivity.
  - unfold load at 1. rewrite Hr'. reflexivity.
Qed.

Lemma perform_while_loading (a : Action) (w : World) :
  loading w = true ->
  loading (after (perform a w)) = true /\
  ready (after (perform a w)) = ready w /\
  accesses (emitted (perform a w)) = [] /\
  generating_flags (emitted (perform a w)) = [].
Proof.
  intros Hl. destruct a as [| | | key value | file]; cbn [perform].
  - unfold load. rewrite Hl, orb_true_r. repeat split; assumption.
  - unfold pressSubmit, submitDisabled. rewrite Hl, orb_true_r. cbn [orb].
    repeat split; assumption.
  - destruct (pressReset_cases w) as [-> | ->]; [repeat split; assumption |].
    rewrite reset_run. repeat split; assumption.
  - repeat split; assumption.
  - repeat split; assumption.
Qed.

Lemma accesses_app (evs1 evs2 : list Event) :
  accesses (evs1 ++ evs2) = (accesses evs1 ++ accesses evs2)%list.
Proof. apply flat_map_app. Qed.

(** X7.  When [load] throws, at whichever of its steps, the hook is left
    loading and not ready, and nothing ever clears that: over any later
    session [load] is skipped, the submit button stays disabled, no
    render attempt starts and the encoder is never accessed. *)
Theorem load_failure_is_final (w : World) (x : Exn) (actions : list Action) :
  outcome (load w) = Thrown x ->
  let r := session actions (after (load w)) in
  loading (after (load w)) = true /\
  ready (after (load w)) = false /\
  loading (after r) = true /\
  ready (after r) = false /\
  submitDisabled (after r) = true /\
  load (after r) = idle tt (after r) /\
  accesses (emitted r) = [] /\
  generating_flags (emitted r) = [].
Proof.
  intros Hx r. subst r.
  assert (Hstart : loading (after (load w)) = true /\ ready (after (load w)) = false).
  { destruct (ready w || loading w) eqn:Hguard.
    { unfold load in Hx. rewrite Hguard in Hx. discriminate Hx. }
    destruct window_defined eqn:Hwin.
    2:{ unfold load in Hx. rewrite Hguard, Hwin in Hx. discriminate Hx. }
    apply orb_false_iff in Hguard as [Hr Hl].
    destruct (load_run w Hr Hl Hwin) as [_ [([a Ha] & _) | (_ & Hr' & Hl')]];
      [congruence | split; assumption]. }
  destruct Hstart as [Hl Hr]. split; [exact Hl |]. split; [exact Hr |].
  generalize dependent (after (load w)). clear Hx w. intros w Hl Hr.
  revert w Hl Hr. induction actions as [| a rest IH]; intros w Hl Hr.
  - cbn [session after emitted]. repeat split; try assumption.
    + unfold submitDisabled. rewrite Hl, orb_true_r. reflexivity.
    + unfold load. rewrite Hl, orb_true_r. reflexivity.
  - cbn [session after emitted].
    destruct (perform_while_loading a w Hl) as (Hl' & Hr' & Hacc & Hflags).
    rewrite Hr in Hr'.
    destruct (IH (after (perform a w)) Hl' Hr') as (H1 & H2 & H3 & H4 & H5 & H6).
    rewrite accesses_app, generating_flags_app, Hacc, Hflags, H5, H6.
    repeat split; assumption.
Qed.

End SessionProperties.

Lemma session_status_consistent_witness :
  let steps := [Alone RunLoad;
                Alone (EditConfig K_duration (1 : Q)); Alone (EditConfig K_fps (15 : Q));
                Rendering [[]; [SetField K_title "Edited"%string]]] in
  let w := after (live_session (boot := SimBoot.online) steps freshPage) in
  let evs := emitted (pressSubmit_amid [[SetField K_subtitle "Again"%string]] w) in
  status (ui w) = "Done"%string /\
  title (config (ui w)) = "Edited"%string /\
  isGenerating (ui w) = false /\
  submitDisabled w = false /\
  firstn 3 evs <> [] /\ skipn 3 evs <> [] /\
  isGenerating (replay (firstn 3 evs) (ui w)) = true /\
  subtitle (config (replay (firstn 3 evs) (ui w))) = "Again"%string.
Proof.
  intros steps w evs.
  assert (Hen : submitDisabled w = false) by (vm_compute; reflexivity).
  assert (Hpre : firstn 3 evs <> []) by (vm_compute; discriminate).
  assert (Hpost : skipn 3 evs <> []) by (vm_compute; discriminate).
  split; [vm_compute; reflexivity |].
  split; [vm_compute; reflexivity |].
  split; [vm_compute; reflexivity |].
  split; [exact Hen |].
  split; [exact Hpre |].
  split; [exact Hpost |].
  split; [| vm_compute; reflexivity].
  exact (proj2 (session_status_consistent (boot := SimBoot.online) steps)
           [[SetField K_subtitle "Again"%string]] (firstn 3 evs) (skipn 3 evs)
           Hen (eq_sym (firstn_skipn 3 evs)) Hpre Hpost).
Defined.

Lemma session_published_handle_live_witness :
  let w := after (session (boot := SimBoot.online)
                    (RunLoad :: SimBoot.shorten ++ [PressSubmit]) freshPage) in
  previewUrl (ui w) = Some (blob_url 3) /\
  alive (blob_url 3) (registry w) = true.
Proof.
  split; [vm_compute; reflexivity |].
  apply (session_published_handle_live (boot := SimBoot.online)
           (RunLoad :: SimBoot.shorten ++ [PressSubmit]) (blob_url 3)).
  vm_compute. reflexivity.
Defined.

Lemma session_submit_has_encoder_witness :
  let w := after (session (boot := SimBoot.online) [RunLoad] freshPage) in
  submitDisabled w = false /\ ffmpeg w <> None.
Proof.
  split; [vm_compute; reflexivity |].
  apply (proj1 (session_submit_has_encoder (boot := SimBoot.online) [RunLoad])).
  vm_compute. reflexivity.
Defined.

Lemma load_completes_witness :
  let w := freshPage (rt := Sim.runtime) in
  outcome (load (boot := SimBoot.online) w) = Returned tt /\
  ready (after (load (boot := SimBoot.online) w)) = true /\
  live (registry (after (load (boot := SimBoot.online) w)))
    = [blob_url 2; blob_url 1; blob_url 0] /\
  submitDisabled (after (load (boot := SimBoot.online) w)) = false.
Proof.
  split; [vm_compute; reflexivity |].
  destruct (load_completes (boot := SimBoot.online) freshPage)
    as (Hr & _ & _ & _ & _ & Hlive & _ & Hs & _); try (vm_compute; reflexivity).
  split; [exact Hr |]. split; [exact Hlive | exact Hs].
Defined.

Lemma load_failure_is_final_witness :
  let w := freshPage (rt := Sim.runtime) in
  let r := session (boot := SimBoot.offline) [PressSubmit; RunLoad; PressSubmit]
             (after (load (boot := SimBoot.offline) w)) in
  outcome (load (boot := SimBoot.offline) w)
    = Thrown (ErrorObject "TypeError: Failed to fetch") /\
  submitDisabled (after r) = true /\
  accesses (emitted r) = [].
Proof.
  split; [vm_compute; reflexivity |].
  destruct (load_failure_is_final (boot := SimBoot.offline) freshPage
              (ErrorObject "TypeError: Failed to fetch")
              [PressSubmit; RunLoad; PressSubmit])
    as (_ & _ & _ & _ & Hs & _ & Ha & _); [vm_compute; reflexivity |].
  split; [exact Hs | exact Ha].
Defined.

(* ================================================================== *)
(** * The encoder accesses of a render attempt *)
(* ================================================================== *)

Section Accesses.

Context {rt : Runtime}.

Lemma certain_ret {A} (a : A) : Certain (ret a) [].
Proof. intros w Hw. repeat split; [exact Hw | exists a; reflexivity]. Qed.

Lemma certain_get {A} (f : World -> A) : Certain (get f) [].
Proof. intros w Hw. repeat split; [exact Hw | eexists; reflexivity]. Qed.

Lemma certain_set_state ev f : access_of ev = [] -> Certain (set_state ev f) [].
Proof.
  intros Hev w Hw. split; [exact Hw |]. split; [| exists tt; reflexivity].
  unfold accesses. cbn [set_state emitted flat_map]. rewrite Hev. reflexivity.
Qed.

Lemma certain_emit ev : access_of ev = [] -> Certain (emit ev) [].
Proof.
  intros Hev w Hw. split; [exact Hw |]. split; [| exists tt; reflexivity].
  unfold accesses. cbn [emit emitted flat_map]. rewrite Hev. reflexivity.
Qed.

Lemma certain_createObjectURL b : Certain (createObjectURL b) [].
Proof. intros w Hw. repeat split; [exact Hw | eexists; reflexivity]. Qed.

Lemma certain_revokeObjectURL u : Certain (revokeObjectURL u) [].
Proof. intros w Hw. repeat split; [exact Hw | eexists; reflexivity]. Qed.

Lemma certain_swallow_deleteFile path :
  Certain (swallow (deleteFile path)) [Deleted path].
Proof.
  intros [s [e |] rd ld g] Hw; [| contradiction Hw; reflexivity].
  destruct (swallow_deleteFile_run path s e rd ld g) as [e' ->].
  repeat split; [discriminate | exists tt; reflexivity].
Qed.

Lemma certain_bind {A B} (m : Async A) (k : A -> Async B) d1 d2 :
  Certain m d1 -> (forall a, Certain (k a) d2) -> Certain (bind m k) (d1 ++ d2).
Proof.
  intros Hm Hk w Hw. destruct (Hm w Hw) as (Hf & Hacc & a & Ha).
  destruct (Hk a (after (m w)) Hf) as (Hf' & Hacc' & b & Hb).
  unfold bind. rewrite Ha. cbn [after emitted outcome].
  rewrite accesses_app, Hacc, Hacc'.
  repeat split; [exact Hf' | exists b; exact Hb].
Qed.

(** A loop whose bodies never throw runs over every index from the start
    to the bound. *)
Lemma certain_for_from (bound : Z) (body : Z -> Async unit) (d : Z -> list Access) :
  (forall i, Certain (body i) (d i)) ->
  forall n i, n = Z.to_nat (bound - i) ->
    Certain (for_from n i bound body) (flat_map d (Zrange i n)).
Proof.
  intros Hbody. induction n as [| n IH]; intros i Hn.
  - apply certain_ret.
  - cbn [for_from Zrange flat_map].
    replace (i <? bound) with true by (symmetry; apply Z.ltb_lt; lia).
    apply certain_bind; [apply Hbody | intros _; apply IH; lia].
Qed.

Lemma flat_map_singleton {A B} (f : A -> B) (l : list A) :
  flat_map (fun a => [f a]) l = map f l.
Proof. induction l as [| a l IH]; [reflexivity | cbn; rewrite IH; reflexivity]. Qed.

Lemma staged_of_certain {A} (m : Async A) d : Certain m d -> Staged m [] d.
Proof.
  intros Hm w Hw. destruct (Hm w Hw) as (Hf & Hacc & _).
  split; [exact Hf |]. exists d, []. rewrite app_nil_r.
  split; [exact Hacc | split; [reflexivity | intros _ _; reflexivity]].
Qed.

Lemma staged_of_outcome {A} (o : Outcome A) : Staged (of_outcome o) [] [].
Proof.
  intros w Hw. split; [exact Hw |]. exists [], [].
  split; [reflexivity | split; [reflexivity | intros _ _; reflexivity]].
Qed.

Lemma staged_call {A} ev (method : Encoder -> Encoder * Outcome A) :
  Staged (call ev method) [] (access_of ev).
Proof.
  intros [s [e |] rd ld g] Hw; [| contradiction Hw; reflexivity].
  rewrite call_run. cbn [after emitted outcome ffmpeg].
  split; [discriminate |]. exists (access_of ev), [].
  unfold accesses. cbn [flat_map]. rewrite !app_nil_r.
  split; [reflexivity | split; [reflexivity | intros _ _; reflexivity]].
Qed.

Lemma staged_bind {A B} (m : Async A) (k : A -> Async B) p1 p2 :
  Staged m [] p1 -> (forall a, Staged (k a) [] p2) -> Staged (bind m k) [] (p1 ++ p2).
Proof.
  intros Hm Hk w Hw.
  destruct (Hm w Hw) as (Hf & done1 & rest1 & Hacc & Hplan & Hret).
  unfold bind. destruct (outcome (m w)) as [a | x] eqn:Ho; cbn [after emitted outcome].
  - destruct (Hk a (after (m w)) Hf) as (Hf' & done2 & rest2 & Hacc' & Hplan' & Hret').
    split; [exact Hf' |]. exists (p1 ++ done2)%list, rest2.
    rewrite accesses_app, Hacc, Hacc'.
    specialize (Hret a eq_refl). subst rest1. rewrite app_nil_r in Hplan. subst p1.
    cbn [app]. rewrite <- app_assoc, <- Hplan'.
    split; [reflexivity | split; [reflexivity | exact Hret']].
  - split; [exact Hf |]. exists done1, (rest1 ++ p2)%list.
    rewrite Hacc, app_assoc, <- Hplan.
    split; [reflexivity | split; [reflexivity | intros a Ha; discriminate Ha]].
Qed.

Lemma staged_certain_bind {A B} (m : Async A) (k : A -> Async B) d sure plan :
  Certain m d -> (forall a, Staged (k a) sure plan) ->
  Staged (bind m k) (d ++ sure) plan.
Proof.
  intros Hm Hk w Hw. destruct (Hm w Hw) as (Hf & Hacc & a & Ha).
  destruct (Hk a (after (m w)) Hf) as (Hf' & done & rest & Hacc' & Hplan & Hret).
  unfold bind. rewrite Ha. cbn [after emitted outcome].
  split; [exact Hf' |]. exists done, rest.
  rewrite accesses_app, Hacc, Hacc', <- app_assoc.
  split; [reflexivity | split; [exact Hplan | exact Hret]].
Qed.

Lemma staged_step {A B} (m : Async A) (k : A -> Async B) sure plan :
  Certain m [] -> (forall a, Staged (k a) sure plan) -> Staged (bind m k) sure plan.
Proof. apply (staged_certain_bind m k []). Qed.

(** A loop stops at the first body that throws. *)
Lemma staged_for_from (bound : Z) (body : Z -> Async unit) (p : Z -> list Access) :
  (forall i, Staged (body i) [] (p i)) ->
  forall n i, n = Z.to_nat (bound - i) ->
    Staged (for_from n i bound body) [] (flat_map p (Zrange i n)).
Proof.
  intros Hbody. induction n as [| n IH]; intros i Hn.
  - apply staged_of_certain, certain_ret.
  - cbn [for_from Zrange flat_map].
    replace (i <? bound) with true by (symmetry; apply Z.ltb_lt; lia).
    apply staged_bind; [apply Hbody | intros _; apply IH; lia].
Qed.

Lemma staged_onFrame (T index : Z) (blob : Blob) :
  Staged (onFrame T index blob) [] [Written (frameFileName index)].
Proof.
  unfold onFrame. cbv zeta.
  apply (staged_bind _ _ [] [Written (frameFileName index)]);
    [apply staged_of_outcome | intros data].
  apply (staged_bind _ _ [Written (frameFileName index)] []);
    [apply staged_call | intros _].
  apply staged_of_certain, certain_set_state. reflexivity.
Qed.

Lemma staged_generateFrames (cfg : VideoConfig) (T : Z) :
  Staged (generateFrames cfg T padLength (onFrame T)) []
    (map (fun i => Written (frameFileName i)) (Zrange 0 (Z.to_nat T))).
Proof.
  unfold generateFrames. destruct (T <=? 0) eqn:E.
  { apply Z.leb_le in E. replace (Z.to_nat T) with 0%nat by lia.
    apply staged_of_certain, certain_ret. }
  rewrite <- flat_map_singleton.
  apply (staged_bind _ _ []
           (flat_map (fun i => [Written (frameFileName i)]) (Zrange 0 (Z.to_nat T))));
    [apply staged_of_outcome | intros _].
  unfold for_upto.
  apply (staged_for_from T _ (fun i => [Written (frameFileName i)])).
  - intros i.
    apply staged_step; [apply certain_emit; reflexivity | intros _].
    apply staged_onFrame.
  - f_equal. lia.
Qed.

Lemma staged_audio (audio : option File) :
  Staged
    (JS.if_truthy (audioInputName audio)
       (fun a =>
          match audio with
          | Some f =>
              setStatus "Transcoding audio" ;;
              audioData <- of_outcome (fetchFile (file_blob f)) ;;
              writeFile a audioData
          | None => ret tt
          end)
       (ret tt))
    []
    match audioInputName audio with
    | Some a => [Written a]
    | None => []
    end.
Proof.
  destruct audio as [f |].
  - destruct (audioInputName_truthy f) as [rest ->]. cbn [JS.if_truthy].
    apply staged_step; [apply certain_set_state; reflexivity | intros _].
    apply (staged_bind _ _ [] [_]); [apply staged_of_outcome | intros data].
    apply staged_call.
  - apply staged_of_certain, certain_ret.
Qed.

Lemma staged_eq {A} (m : Async A) sure sure' plan plan' :
  Staged m sure plan -> sure = sure' -> plan = plan' -> Staged m sure' plan'.
Proof. intros H <- <-. exact H. Qed.

Lemma certain_publish (url : ObjectURL) :
  Certain
    (setPreviewUrl_with (fun oldUrl =>
       match oldUrl with
       | Some old => revokeObjectURL old
       | None => ret tt
       end ;;
       ret (Some url)) ;;
     setProgress (Some 100) ;;
     setStatus "Done")
    [].
Proof.
  apply (certain_bind _ _ [] []).
  - unfold setPreviewUrl_with.
    apply (certain_bind _ _ [] []); [apply certain_get | intros old].
    apply (certain_bind _ _ [] []).
    + apply (certain_bind _ _ [] []); [| intros _; apply certain_ret].
      destruct old as [u |]; [apply certain_revokeObjectURL | apply certain_ret].
    + intros new. apply certain_set_state. reflexivity.
  - intros _. apply (certain_bind _ _ [] []); intros;
      apply certain_set_state; reflexivity.
Qed.

Lemma staged_attempt (cfg : VideoConfig) (audio : option File) :
  Staged (attempt cfg audio) (cleanup_plan cfg audio) (work_plan cfg audio).
Proof.
  unfold attempt. cbv zeta.
  do 4 (apply staged_step; [apply certain_set_state; reflexivity | intros _]).
  eapply staged_eq.
  - apply staged_certain_bind; [apply certain_swallow_deleteFile | intros _].
    apply staged_certain_bind.
    { apply (certain_for_from (totalFrames cfg) _ (fun i => [Deleted (frameFileName i)])).
      - intros i. apply certain_swallow_deleteFile.
      - f_equal. lia. }
    intros _.
    apply (staged_certain_bind _ _
             match audioInputName audio with Some a => [Deleted a] | None => [] end []).
    { destruct audio as [f |].
      - destruct (audioInputName_truthy f) as [rest ->]. cbn [JS.if_truthy].
        apply certain_swallow_deleteFile.
      - apply certain_ret. }
    intros _.
    apply staged_step; [apply certain_set_state; reflexivity | intros _].
    apply staged_bind; [apply staged_generateFrames | intros _].
    apply staged_bind; [apply staged_audio | intros _].
    apply staged_step; [apply certain_set_state; reflexivity | intros _].
    apply staged_bind; [apply staged_call | intros _].
    do 2 (apply staged_step; [apply certain_set_state; reflexivity | intros _]).
    apply staged_bind; [apply staged_call | intros outputData].
    cbv zeta. apply staged_of_certain.
    apply (certain_bind _ _ [] []); [apply certain_createObjectURL | intros url].
    apply certain_publish.
  - unfold cleanup_plan. rewrite flat_map_singleton, app_nil_r. reflexivity.
  - unfold work_plan. cbn [access_of app]. reflexivity.
Qed.

End Accesses.

(* ================================================================== *)
(** * Names of the files in the encoder *)
(* ================================================================== *)

Section FileNames.

Context {rt : Runtime}.

Lemma Number_toString_integer (i : Z) :
  Z.abs i < 10 ^ 21 -> Number_toString (inject_Z i) = JS.digits i.
Proof.
  intros Hi. unfold Number_toString, JS.is_plain_integer.
  rewrite Qfloor_Z.
  replace (Qeq_bool (inject_Z i) (inject_Z i)) with true
    by (symmetry; apply Qeq_bool_iff; reflexivity).
  replace (Z.abs i <? 10 ^ 21) with true by (symmetry; apply Z.ltb_lt; exact Hi).
  reflexivity.
Qed.

Lemma unpadded_digits (i : Z) : 0 <= i -> unpadded (JS.digits i) = Some i.
Proof.
  intros Hi. destruct i as [| p | p]; [reflexivity | | lia].
  unfold JS.digits, unpadded. cbn [Z.to_int NilZero.string_of_int].
  pose proof (DecimalZ.of_to (Z.pos p)) as Hp. cbn [Z.to_int Z.of_int] in Hp.
  destruct (Pos.to_uint p) eqn:E; try discriminate Hp;
    unfold NilZero.string_of_uint; rewrite NilEmpty.usu; cbn [option_map];
    rewrite Hp; reflexivity.
Qed.

Lemma unpadded_zero (s : string) : unpadded (String "0" s) = unpadded s.
Proof.
  unfold unpadded. cbn [NilEmpty.uint_of_string].
  destruct (NilEmpty.uint_of_string s); reflexivity.
Qed.

Lemma unpadded_cycle (k : nat) (s : string) :
  unpadded (JS.cycle k "0" "" ++ s) = unpadded s.
Proof.
  induction k as [| k IH]; [reflexivity |].
  cbn [JS.cycle append]. rewrite unpadded_zero. exact IH.
Qed.

Lemma unpadded_padStart (n : nat) (s : string) :
  unpadded (JS.padStart s n "0") = unpadded s.
Proof.
  unfold JS.padStart. destruct (n <=? String.length s)%nat; [reflexivity |].
  destruct (n - String.length s)%nat as [| k]; [reflexivity |].
  cbn [JS.cycle append]. rewrite unpadded_zero. apply unpadded_cycle.
Qed.

Lemma append_cancel_r (t s1 s2 : string) : (s1 ++ t = s2 ++ t)%string -> s1 = s2.
Proof.
  assert (Hlen : forall a b : string, String.length (a ++ b) = (String.length a + String.length b)%nat).
  { induction a as [| c a IH]; intros b; [reflexivity | cbn; rewrite IH; reflexivity]. }
  revert s2. induction s1 as [| c s1 IH]; intros [| c2 s2] H.
  - reflexivity.
  - apply (f_equal String.length) in H. cbn in H. rewrite Hlen in H. lia.
  - apply (f_equal String.length) in H. cbn in H. rewrite Hlen in H. lia.
  - cbn in H. injection H as -> H. f_equal. apply IH, H.
Qed.

(** The index can be read back from the name of a frame file. *)
Lemma frameFileName_index (i : Z) :
  0 <= i < 10 ^ 21 ->
  exists padded,
    frameFileName i = ("frame_" ++ padded ++ ".png")%string /\ unpadded padded = Some i.
Proof.
  intros Hi. unfold frameFileName.
  rewrite Number_toString_integer by lia.
  eexists. split; [reflexivity |].
  rewrite unpadded_padStart. apply unpadded_digits. lia.
Qed.

Lemma frameFileName_inj (i j : Z) :
  0 <= i < 10 ^ 21 -> 0 <= j < 10 ^ 21 ->
  frameFileName i = frameFileName j -> i = j.
Proof.
  intros Hi Hj H.
  destruct (frameFileName_index i Hi) as (pi & Ei & Ui).
  destruct (frameFileName_index j Hj) as (pj & Ej & Uj).
  rewrite Ei, Ej in H. cbn [append] in H.
  injection H as H. apply append_cancel_r in H. congruence.
Qed.

End FileNames.

(* ================================================================== *)
(** * What a render does with the encoder's files *)
(* ================================================================== *)

Section Workspace.

Context {rt : Runtime}.

(** The [catch] and [finally] blocks do not touch the encoder. *)
Lemma accesses_generateVideo (w : World) (e : Encoder) :
  ffmpeg w = Some e ->
  accesses (emitted (generateVideo w)) =
  accesses (emitted (attempt (config (ui w)) (audioFile (ui w)) w)).
Proof.
  intros Hff. rewrite (generateVideo_emitted w e Hff), accesses_app.
  destruct (outcome (attempt (config (ui w)) (audioFile (ui w)) w));
    cbn; apply app_nil_r.
Qed.

Lemma shown_error_of_throw (w : World) (e : Encoder) (x : Exn) :
  ffmpeg w = Some e ->
  outcome (attempt (config (ui w)) (audioFile (ui w)) w) = Thrown x ->
  error (ui (after (generateVideo w))) = Some (errorMessage x).
Proof.
  intros Hff Hx. rewrite (generateVideo_unfold w e Hff).
  unfold finish. rewrite Hx. reflexivity.
Qed.

(** X8.  With an encoder in place, the encoder accesses of a render are,
    in this order: the whole cleanup (output.mp4, every frame file below
    the frame count, the audio input if a file is selected, each deleted
    whether or not it exists), then the work plan (one write per frame
    in index order, the write of the audio input, the one encoder run,
    the read of output.mp4) as far as the first access that fails.  A
    render that ends with no error shown got through the whole plan. *)
Theorem render_access_plan (w : World) :
  ffmpeg w <> None ->
  exists done rest,
    accesses (emitted (generateVideo w)) =
      (cleanup_plan (config (ui w)) (audioFile (ui w)) ++ done)%list /\
    work_plan (config (ui w)) (audioFile (ui w)) = (done ++ rest)%list /\
    (error (ui (after (generateVideo w))) = None -> rest = []).
Proof.
  intros Hw. destruct (ffmpeg w) as [e |] eqn:Hff; [| contradiction Hw; reflexivity].
  assert (Hsome : ffmpeg w <> None) by (rewrite Hff; discriminate).
  destruct (staged_attempt (config (ui w)) (audioFile (ui w)) w Hsome)
    as (_ & done & rest & Hacc & Hplan & Hret).
  exists done, rest. rewrite (accesses_generateVideo w e Hff).
  split; [exact Hacc | split; [exact Hplan |]].
  intros Herr.
  destruct (outcome (attempt (config (ui w)) (audioFile (ui w)) w)) as [a | x] eqn:Ho.
  - apply (Hret a eq_refl).
  - rewrite (shown_error_of_throw w e x Hff Ho) in Herr. discriminate Herr.
Qed.

Lemma frameFileName_not_output (i : Z) : frameFileName i <> "output.mp4".
Proof. unfold frameFileName. cbn [append]. discriminate. Qed.

Lemma frameFileName_not_audio (i : Z) (audio : option File) :
  audioInputName audio <> Some (frameFileName i).
Proof.
  destruct audio as [f |]; [| discriminate].
  destruct (audioInputName_truthy f) as [rest ->].
  unfold frameFileName. cbn [append]. discriminate.
Qed.

Lemma audioInputName_not_output (audio : option File) :
  audioInputName audio <> Some "output.mp4".
Proof.
  destruct audio as [f |]; [| discriminate].
  destruct (audioInputName_truthy f) as [rest ->]. discriminate.
Qed.

(** X9.  The files of a render never collide: two frame indices below
    10^21 have different file names, no frame file is named output.mp4
    or like the audio input, and the audio input is not named
    output.mp4. *)
Theorem workspace_names_distinct (i j : Z) (audio : option File) :
  0 <= i < 10 ^ 21 -> 0 <= j < 10 ^ 21 ->
  (frameFileName i = frameFileName j -> i = j) /\
  frameFileName i <> "output.mp4" /\
  audioInputName audio <> Some (frameFileName i) /\
  audioInputName audio <> Some "output.mp4".
Proof.
  intros Hi Hj. split; [apply frameFileName_inj; assumption |].
  split; [apply frameFileName_not_output |].
  split; [apply frameFileName_not_audio | apply audioInputName_not_output].
Qed.

Lemma Deleted_work_plan (cfg : VideoConfig) (audio : option File) (path : string) :
  ~ In (Deleted path) (work_plan cfg audio).
Proof.
  unfold work_plan. intros H. apply in_app_or in H as [H | H].
  - apply in_map_iff in H as (k & Hk & _). discriminate Hk.
  - apply in_app_or in H as [H | H].
    + destruct (audioInputName audio); [destruct H as [H | []]; discriminate H | exact H].
    + destruct H as [H | [H | []]]; discriminate H.
Qed.

(** X10.  The cleanup is bounded by the frame count of the render that
    performs it: a render never deletes a frame file whose index is at or
    beyond its own frame count, so frames left by an earlier, longer
    render stay in the encoder. *)
Theorem stale_frames_survive (w : World) (i : Z) :
  0 <= i -> totalFrames (config (ui w)) <= i < 10 ^ 21 ->
  ~ In (Deleted (frameFileName i)) (accesses (emitted (generateVideo w))).
Proof.
  intros Hi0 Hi. destruct (ffmpeg w) as [e |] eqn:Hff.
  2:{ rewrite (generateVideo_not_ready w Hff). intros []. }
  assert (Hsome : ffmpeg w <> None) by (rewrite Hff; discriminate).
  destruct (staged_attempt (config (ui w)) (audioFile (ui w)) w Hsome)
    as (_ & done & rest & Hacc & Hplan & _).
  rewrite (accesses_generateVideo w e Hff), Hacc.
  intros H. apply in_app_or in H as [H | H].
  - unfold cleanup_plan in H. apply in_app_or in H as [[H | H] | H].
    + apply (frameFileName_not_output i). congruence.
    + apply in_map_iff in H as (j & Hj & Hin).
      assert (Hname : frameFileName j = frameFileName i) by congruence.
      apply Zrange_In in Hin.
      assert (j = i) by (apply frameFileName_inj; [lia | lia | exact Hname]). lia.
    + destruct (audioInputName (audioFile (ui w))) as [a |] eqn:Ea; [| exact H].
      destruct H as [H | []].
      apply (frameFileName_not_audio i (audioFile (ui w))). congruence.
  - apply (Deleted_work_plan (config (ui w)) (audioFile (ui w)) (frameFileName i)).
    rewrite Hplan. apply in_or_app. left. exact H.
Qed.

End Workspace.

Section FrameNameShape.

Context {rt : Runtime}.

Lemma cycle_length (pad : string) :
  pad <> EmptyString ->
  forall (k : nat) (rest : string), String.length (JS.cycle k pad rest) = k.
Proof.
  intros Hpad. induction k as [| k IH]; intros rest; [reflexivity |].
  cbn [JS.cycle]. destruct rest as [| c r].
  - destruct pad as [| c r]; [contradiction Hpad; reflexivity |].
    cbn [String.length]. rewrite IH. reflexivity.
  - cbn [String.length]. rewrite IH. reflexivity.
Qed.

Lemma append_length (a b : string) :
  String.length (a ++ b) = (String.length a + String.length b)%nat.
Proof. induction a as [| c a IH]; [reflexivity | cbn; rewrite IH; reflexivity]. Qed.

(** [padStart] with a pad that is not empty gives a string of the target
    length, or the receiver itself when that is longer. *)
Lemma padStart_length (s pad : string) (n : nat) :
  pad <> EmptyString ->
  String.length (JS.padStart s n pad) = Nat.max n (String.length s).
Proof.
  intros Hpad. unfold JS.padStart.
  destruct (n <=? String.length s)%nat eqn:E.
  - apply Nat.leb_le in E. lia.
  - apply Nat.leb_gt in E. rewrite append_length, (cycle_length pad Hpad). lia.
Qed.

Lemma of_uint_acc_lower (d : Decimal.uint) :
  forall acc : positive,
    Z.pos acc * 10 ^ Z.of_nat (Decimal.nb_digits d) <= Z.pos (Pos.of_uint_acc d acc).
Proof.
  assert (Hstep : forall (n : nat) (acc next : positive),
             10 * Z.pos acc <= Z.pos next ->
             Z.pos acc * 10 ^ Z.of_nat (S n) <= Z.pos next * 10 ^ Z.of_nat n).
  { intros n acc next Hnext. rewrite Nat2Z.inj_succ, Z.pow_succ_r by lia.
    replace (Z.pos acc * (10 * 10 ^ Z.of_nat n))
      with (10 * Z.pos acc * 10 ^ Z.of_nat n) by ring.
    apply Z.mul_le_mono_nonneg_r; [apply Z.pow_nonneg; lia | exact Hnext]. }
  induction d as [| d IH | d IH | d IH | d IH | d IH | d IH | d IH | d IH | d IH | d IH];
    intros acc; cbn [Decimal.nb_digits Pos.of_uint_acc];
    [rewrite Z.pow_0_r; lia | ..];
    (eapply Z.le_trans; [apply Hstep | apply IH]); lia.
Qed.

Lemma string_of_uint_length (d : Decimal.uint) :
  String.length (NilEmpty.string_of_uint d) = Decimal.nb_digits d.
Proof.
  induction d; cbn [NilEmpty.string_of_uint String.length Decimal.nb_digits];
    congruence.
Qed.

(** A decimal numeral without a leading zero is at least the power of
    ten with one digit less. *)
Lemma to_uint_lower (p : positive) :
  10 ^ (Z.of_nat (Decimal.nb_digits (Pos.to_uint p)) - 1) <= Z.pos p.
Proof.
  pose proof (DecimalPos.Unsigned.of_to p) as Hof.
  pose proof (DecimalPos.Unsigned.to_of (Pos.to_uint p)) as Hnorm.
  rewrite Hof in Hnorm. cbn [N.to_uint] in Hnorm.
  assert (Hhead : forall d', Pos.to_uint p <> Decimal.D0 d').
  { intros d' E. rewrite E in Hnorm. unfold Decimal.unorm in Hnorm.
    cbn [Decimal.nzhead] in Hnorm.
    destruct (Decimal.nzhead d') as [| u | | | | | | | | |] eqn:En; try discriminate Hnorm.
    - injection Hnorm as ->. rewrite E in Hof. discriminate Hof.
    - exact (DecimalFacts.nzhead_nonzero d' u En). }
  destruct (Pos.to_uint p) as [| d | d | d | d | d | d | d | d | d | d] eqn:E;
    [discriminate Hof | destruct (Hhead d eq_refl) | ..];
    cbn [Pos.of_uint] in Hof; injection Hof as <-;
    cbn [Decimal.nb_digits]; rewrite Nat2Z.inj_succ;
    replace (Z.succ (Z.of_nat (Decimal.nb_digits d)) - 1)
      with (Z.of_nat (Decimal.nb_digits d)) by lia;
    (eapply Z.le_trans; [| apply of_uint_acc_lower]);
    rewrite <- (Z.mul_1_l (10 ^ Z.of_nat (Decimal.nb_digits d))) at 1;
    (apply Z.mul_le_mono_nonneg_r; [apply Z.pow_nonneg; lia | lia]).
Qed.

(** A number below [10 ^ n] has at most [n] decimal digits. *)
Lemma digits_length (i : Z) (n : nat) :
  0 <= i < 10 ^ Z.of_nat n -> (0 < n)%nat ->
  (String.length (JS.digits i) <= n)%nat.
Proof.
  intros Hi Hn. destruct i as [| p | p]; [cbn; lia | | lia].
  unfold JS.digits. cbn [Z.to_int NilZero.string_of_int].
  pose proof (to_uint_lower p) as Hlow.
  pose proof (DecimalPos.Unsigned.to_uint_nonnil p) as Hnil.
  unfold NilZero.string_of_uint.
  destruct (Pos.to_uint p) eqn:E; [contradiction Hnil; reflexivity | ..];
    rewrite string_of_uint_length;
    (destruct (Nat.le_gt_cases (Decimal.nb_digits (Pos.to_uint p)) n) as [Hle | Hgt];
     [rewrite E in Hle; exact Hle |]);
    exfalso; rewrite <- E in Hlow;
    assert (10 ^ Z.of_nat n <= 10 ^ (Z.of_nat (Decimal.nb_digits (Pos.to_uint p)) - 1))
      by (apply Z.pow_le_mono_r; lia);
    lia.
Qed.

Lemma digits_short (i : Z) :
  0 <= i < 10 ^ 5 -> (String.length (JS.digits i) <= 5)%nat.
Proof. intros Hi. apply (digits_length i 5); [exact Hi | lia]. Qed.

(** X11.  The frame files are named as the input pattern of the encoder
    run reads them: the pattern is frame_%05d.png, and the name of every
    frame below 100000 is frame_, exactly five decimal digits that read
    as the index, and .png. *)
Theorem frame_names_match_pattern (i : Z) :
  0 <= i < 10 ^ 5 ->
  framePattern = "frame_%05d.png" /\
  exists padded,
    frameFileName i = ("frame_" ++ padded ++ ".png")%string /\
    String.length padded = 5%nat /\
    unpadded padded = Some i.
Proof.
  intros Hi.
  assert (Hbig : 0 <= i < 10 ^ 21).
  { split; [lia |]. apply Z.lt_trans with (10 ^ 5); [lia | reflexivity]. }
  split.
  - unfold framePattern, padLength. rewrite Number_toString_integer by reflexivity.
    reflexivity.
  - unfold frameFileName. rewrite Number_toString_integer by lia.
    eexists. split; [reflexivity |]. split.
    + rewrite padStart_length by discriminate.
      pose proof (digits_short i Hi). unfold padLength.
      change (Z.to_nat 5) with 5%nat. lia.
    + rewrite unpadded_padStart. apply unpadded_digits. lia.
Qed.

End FrameNameShape.

Lemma frame_names_match_pattern_witness :
  (0 <= 42 < 10 ^ 5) /\
  framePattern (rt := Sim.runtime) = "frame_%05d.png"%string /\
  exists padded,
    frameFileName (rt := Sim.runtime) 42 = ("frame_" ++ padded ++ ".png")%string /\
    String.length padded = 5%nat /\
    unpadded padded = Some 42.
Proof.
  assert (H : 0 <= 42 < 10 ^ 5) by (split; [lia | reflexivity]).
  split; [exact H |].
  exact (frame_names_match_pattern (rt := Sim.runtime) 42 H).
Defined.

Lemma render_access_plan_witness :
  let w := Sim.loaded (Sim.clip 1 2) (Some Sim.song) in
  ffmpeg w <> None /\
  exists done rest,
    accesses (emitted (generateVideo w)) =
      (cleanup_plan (rt := Sim.runtime) (config (ui w)) (audioFile (ui w)) ++ done)%list /\
    work_plan (rt := Sim.runtime) (config (ui w)) (audioFile (ui w)) = (done ++ rest)%list /\
    (error (ui (after (generateVideo w))) = None -> rest = []).
Proof.
  split; [discriminate |].
  apply (render_access_plan (Sim.loaded (Sim.clip 1 2) (Some Sim.song))).
  discriminate.
Defined.

Lemma workspace_names_distinct_witness :
  (0 <= 7 < 10 ^ 21) /\ (0 <= 70 < 10 ^ 21) /\
  (frameFileName (rt := Sim.runtime) 7 = frameFileName (rt := Sim.runtime) 70 -> 7 = 70) /\
  frameFileName (rt := Sim.runtime) 7 <> "output.mp4" /\
  audioInputName (Some Sim.song) <> Some (frameFileName (rt := Sim.runtime) 7) /\
  audioInputName (Some Sim.song) <> Some "output.mp4".
Proof.
  assert (H7 : 0 <= 7 < 10 ^ 21) by (split; [lia | reflexivity]).
  assert (H70 : 0 <= 70 < 10 ^ 21) by (split; [lia | reflexivity]).
  split; [exact H7 |]. split; [exact H70 |].
  exact (workspace_names_distinct (rt := Sim.runtime) 7 70 (Some Sim.song) H7 H70).
Defined.

Lemma stale_frames_survive_witness :
  let w := Sim.loaded (Sim.clip 1 2) None in
  0 <= 2 /\
  (totalFrames (config (ui w)) <= 2 < 10 ^ 21) /\
  ~ In (Deleted (frameFileName (rt := Sim.runtime) 2)) (accesses (emitted (generateVideo w))).
Proof.
  assert (H0 : 0 <= 2) by lia.
  assert (H : totalFrames (config (ui (Sim.loaded (Sim.clip 1 2) None))) <= 2 < 10 ^ 21)
    by (split; [vm_compute; discriminate | reflexivity]).
  split; [exact H0 |]. split; [exact H |].
  exact (stale_frames_survive (Sim.loaded (Sim.clip 1 2) None) 2 H0 H).
Defined.

(* ================================================================== *)
(** * The aspect-ratio label *)
(* ================================================================== *)

Section AspectRatio.

Context {rt : Runtime}.

Lemma inject_Z_pos (z : Z) : 0 < z -> (0 < inject_Z z)%Q.
Proof. intros H. change 0%Q with (inject_Z 0). rewrite <- Zlt_Qlt. exact H. Qed.

Lemma inject_Z_nonneg (z : Z) : 0 <= z -> (0 <= inject_Z z)%Q.
Proof. intros H. change 0%Q with (inject_Z 0). rewrite <- Zle_Qle. exact H. Qed.

Lemma inject_Z_nonzero (q : Q) (z : Z) :
  (q == inject_Z z)%Q -> z <> 0 -> Qeq_bool q 0 = false.
Proof.
  intros Hq Hz. destruct (Qeq_bool q 0) eqn:E; [| reflexivity].
  apply Qeq_bool_iff in E. rewrite Hq in E.
  change 0%Q with (inject_Z 0) in E.
  destruct (Hz (proj1 (inject_Z_injective z 0) E)).
Qed.

Lemma trunc_quotient (a b : Q) (za zb : Z) :
  (a == inject_Z za)%Q -> (b == inject_Z zb)%Q -> 0 <= za -> 0 < zb ->
  JSNumber.trunc (a / b) = za / zb.
Proof.
  intros Ha Hb Hza Hzb.
  assert (Hq : (a / b == inject_Z za / inject_Z zb)%Q) by (rewrite Ha, Hb; reflexivity).
  unfold JSNumber.trunc.
  replace (Qle_bool 0 (a / b)) with true.
  - rewrite (Qfloor_comp _ _ Hq). symmetry. apply Zdiv_Qdiv.
  - symmetry. apply Qle_bool_iff. rewrite Hq.
    apply Qle_shift_div_l; [apply inject_Z_pos, Hzb |].
    rewrite Qmult_0_l. apply inject_Z_nonneg, Hza.
Qed.

(** On whole numbers [%] is the remainder of the integer division. *)
Lemma rem_integers (a b : Q) (za zb : Z) :
  (a == inject_Z za)%Q -> (b == inject_Z zb)%Q -> 0 <= za -> 0 < zb ->
  (JSNumber.rem a b == inject_Z (za mod zb))%Q.
Proof.
  intros Ha Hb Hza Hzb. unfold JSNumber.rem.
  rewrite (trunc_quotient a b za zb Ha Hb Hza Hzb), Ha, Hb.
  unfold Qminus. rewrite <- inject_Z_mult, <- inject_Z_opp, <- inject_Z_plus.
  apply inject_Z_injective. rewrite Z.mod_eq by lia. lia.
Qed.

(** On whole numbers that are not negative the recursion of [gcd] ends
    within the calls allowed and returns the greatest common divisor. *)
Lemma gcd_calls_integers :
  forall (fuel : nat) (a b : Q) (za zb : Z),
    (a == inject_Z za)%Q -> (b == inject_Z zb)%Q -> 0 <= za -> 0 <= zb ->
    (Z.to_nat zb < fuel)%nat ->
    exists q, gcd_calls fuel a b = Some q /\ (q == inject_Z (Z.gcd za zb))%Q.
Proof.
  induction fuel as [| fuel IH]; intros a b za zb Ha Hb Hza Hzb Hfuel; [lia |].
  cbn [gcd_calls]. destruct (Z.eq_dec zb 0) as [-> | Hnz].
  - replace (Qeq_bool b 0) with true by (symmetry; apply Qeq_bool_iff; exact Hb).
    exists a. split; [reflexivity |].
    rewrite Z.gcd_0_r, Z.abs_eq by exact Hza. exact Ha.
  - rewrite (inject_Z_nonzero b zb Hb Hnz).
    assert (Hmod : 0 <= za mod zb < zb) by (apply Z.mod_pos_bound; lia).
    destruct (IH b (JSNumber.rem a b) zb (za mod zb) Hb
                (rem_integers a b za zb Ha Hb Hza ltac:(lia)) Hzb ltac:(lia) ltac:(lia))
      as (q & Hq & Hgcd).
    exists q. split; [exact Hq |].
    rewrite Hgcd. apply inject_Z_injective.
    rewrite (Z.gcd_comm zb (za mod zb)), Z.gcd_mod by exact Hnz. apply Z.gcd_comm.
Qed.

Lemma gcd_integers (a b : Q) (za zb : Z) :
  (a == inject_Z za)%Q -> (b == inject_Z zb)%Q -> 0 <= za -> 0 <= zb ->
  exists q, gcd a b = Some q /\ (q == inject_Z (Z.gcd za zb))%Q.
Proof.
  intros Ha Hb Hza Hzb. unfold gcd.
  apply gcd_calls_integers; try assumption.
  assert (Hnum : Qnum b = zb * QDen b).
  { unfold Qeq in Hb. cbn in Hb. lia. }
  assert (0 < QDen a) by lia. assert (0 < QDen b) by lia.
  rewrite Hnum.
  assert (H1 : zb * 1 <= zb * QDen b) by (apply Z.mul_le_mono_nonneg_l; lia).
  assert (H2 : zb * QDen b * 1 <= zb * QDen b * QDen a)
    by (apply Z.mul_le_mono_nonneg_l; lia).
  rewrite Z.abs_eq by lia. lia.
Qed.

Lemma Qfloor_half (n : Z) : Qfloor (inject_Z n + (1 # 2)) = n.
Proof.
  unfold Qfloor, Qplus, inject_Z. cbn [Qnum Qden].
  symmetry. apply (Z.div_unique_pos _ _ n 1); [lia |].
  change (Z.pos (1 * 2)) with 2. lia.
Qed.

(** Dividing by a divisor of the number and rounding gives the exact
    quotient. *)
Lemma ratio_part_integers (x q : Q) (zx g : Z) :
  (x == inject_Z zx)%Q -> (q == inject_Z g)%Q -> 0 < g -> (g | zx) ->
  Z.abs (zx / g) < 10 ^ 21 ->
  ratio_part x q = JS.digits (zx / g).
Proof.
  intros Hx Hq Hg [k Hk] Hsmall. unfold ratio_part.
  rewrite (inject_Z_nonzero q g Hq) by lia.
  assert (Hquot : zx / g = k) by (subst zx; apply Z.div_mul; lia).
  rewrite Hquot in *.
  assert (Hexact : (x / q == inject_Z k)%Q).
  { rewrite Hx, Hq, Hk, inject_Z_mult. apply Qdiv_mult_l.
    intros E. change 0%Q with (inject_Z 0) in E.
    pose proof (proj1 (inject_Z_injective g 0) E). lia. }
  unfold JS.Math_round.
  assert (Hround : Qfloor (x / q + (1 # 2)) = k).
  { rewrite <- (Qfloor_half k). apply Qfloor_comp. rewrite Hexact. reflexivity. }
  rewrite Hround. apply Number_toString_integer. exact Hsmall.
Qed.

(** X12.  For a width and a height that are whole numbers below 2^53
    (the range in which every whole number is a number of the engine and
    its decimal digits are what the page prints), not negative and not
    both zero, the aspect-ratio label is computed (the recursion of [gcd]
    ends within its budget) and is the ratio in lowest terms: each side
    divided by the greatest common divisor, in decimal digits, joined by
    a colon. *)
Theorem formattedSize_lowest_terms (config : VideoConfig) (w h : Z) :
  (width config == inject_Z w)%Q -> (height config == inject_Z h)%Q ->
  0 <= w < 2 ^ 53 -> 0 <= h < 2 ^ 53 -> 0 < w + h ->
  formattedSize config =
  Some (JS.digits (w / Z.gcd w h) ++ ":" ++ JS.digits (h / Z.gcd w h))%string /\
  Z.gcd (w / Z.gcd w h) (h / Z.gcd w h) = 1.
Proof.
  intros Hw Hh Hwr' Hhr' Hpos.
  assert (Hsafe : 2 ^ 53 < 10 ^ 21) by reflexivity.
  assert (Hwr : 0 <= w < 10 ^ 21) by (split; [apply Hwr' | apply Z.lt_trans with (2 ^ 53); [apply Hwr' | exact Hsafe]]).
  assert (Hhr : 0 <= h < 10 ^ 21) by (split; [apply Hhr' | apply Z.lt_trans with (2 ^ 53); [apply Hhr' | exact Hsafe]]).
  clear Hsafe Hwr' Hhr'.
  assert (Hg : 0 < Z.gcd w h).
  { pose proof (Z.gcd_nonneg w h).
    destruct (Z.eq_dec (Z.gcd w h) 0) as [E | E]; [| lia].
    apply Z.gcd_eq_0 in E. lia. }
  split.
  - unfold formattedSize.
    destruct (gcd_integers (width config) (height config) w h Hw Hh) as (q & -> & Hq);
      [lia | lia |].
    assert (Hbound : forall z, 0 <= z < 10 ^ 21 -> Z.abs (z / Z.gcd w h) < 10 ^ 21).
    { intros z Hz. rewrite Z.abs_eq by (apply Z.div_pos; lia).
      apply Z.le_lt_trans with z; [| lia].
      apply Z.div_le_upper_bound; [lia | nia]. }
    rewrite (ratio_part_integers (width config) q w (Z.gcd w h) Hw Hq Hg
               (Z.gcd_divide_l w h) (Hbound w Hwr)).
    rewrite (ratio_part_integers (height config) q h (Z.gcd w h) Hh Hq Hg
               (Z.gcd_divide_r w h) (Hbound h Hhr)).
    reflexivity.
  - apply Z.gcd_div_gcd; [lia | reflexivity].
Qed.

(** ** Any two numbers *)

Lemma Zquot_div_same_sign (a b : Z) : 0 <= a * b -> b <> 0 -> Z.quot a b = a / b.
Proof.
  intros Hs Hb.
  destruct (Z_lt_le_dec 0 b) as [Hpos | Hneg].
  - apply Z.quot_div_nonneg; nia.
  - rewrite <- (Z.quot_opp_opp a b), <- (Z.div_opp_opp a b) by lia.
    apply Z.quot_div_nonneg; nia.
Qed.

Lemma sign_of_quotient (za zb : Z) :
  zb <> 0 -> Qle_bool 0 (inject_Z za / inject_Z zb) = (0 <=? za * zb).
Proof.
  intros Hb. destruct zb as [| p | p]; [contradiction Hb; reflexivity | |].
  - unfold Qle_bool, Qdiv, Qinv, Qmult, inject_Z. cbn.
    apply eq_true_iff_eq. rewrite !Z.leb_le. nia.
  - unfold Qle_bool, Qdiv, Qinv, Qmult, inject_Z. cbn.
    apply eq_true_iff_eq. rewrite !Z.leb_le. nia.
Qed.

(** Truncating the quotient of two whole numbers is the integer division
    that rounds towards zero. *)
Lemma trunc_quot (za zb : Z) :
  zb <> 0 -> JSNumber.trunc (inject_Z za / inject_Z zb) = Z.quot za zb.
Proof.
  intros Hb. unfold JSNumber.trunc. rewrite (sign_of_quotient za zb Hb).
  destruct (0 <=? za * zb) eqn:E.
  - apply Z.leb_le in E. rewrite <- Zdiv_Qdiv. symmetry.
    apply Zquot_div_same_sign; assumption.
  - apply Z.leb_gt in E. unfold Qceiling.
    assert (Hopp : (- (inject_Z za / inject_Z zb) == inject_Z (- za) / inject_Z zb)%Q).
    { rewrite inject_Z_opp. unfold Qdiv. ring. }
    rewrite (Qfloor_comp _ _ Hopp), <- Zdiv_Qdiv.
    rewrite <- (Zquot_div_same_sign (- za) zb) by nia.
    rewrite Z.quot_opp_l by exact Hb. lia.
Qed.

Lemma trunc_comp (x y : Q) : (x == y)%Q -> JSNumber.trunc x = JSNumber.trunc y.
Proof.
  intros H. unfold JSNumber.trunc, Qceiling.
  rewrite H at 1. rewrite (Qfloor_comp _ _ H).
  assert (Hopp : (- x == - y)%Q) by (rewrite H; reflexivity).
  rewrite (Qfloor_comp _ _ Hopp). reflexivity.
Qed.

(** Counted in units of [1 / D], the remainder of two numbers is the
    remainder of the integer division of their counts. *)
Lemma rem_units (a b : Q) (D za zb : Z) :
  0 < D ->
  (a * inject_Z D == inject_Z za)%Q -> (b * inject_Z D == inject_Z zb)%Q ->
  zb <> 0 ->
  (JSNumber.rem a b * inject_Z D == inject_Z (Z.rem za zb))%Q.
Proof.
  intros HD Ha Hb Hzb.
  assert (HDq : ~ (inject_Z D == 0)%Q).
  { intros E. change 0%Q with (inject_Z 0) in E.
    pose proof (proj1 (inject_Z_injective D 0) E). lia. }
  assert (Hzbq : ~ (inject_Z zb == 0)%Q).
  { intros E. change 0%Q with (inject_Z 0) in E.
    exact (Hzb (proj1 (inject_Z_injective zb 0) E)). }
  assert (Hbq : ~ (b == 0)%Q).
  { intros E. rewrite E, Qmult_0_l in Hb. apply Hzbq. rewrite <- Hb. reflexivity. }
  assert (Hquot : (a / b == inject_Z za / inject_Z zb)%Q).
  { rewrite <- Ha, <- Hb. field. split; assumption. }
  unfold JSNumber.rem.
  rewrite (trunc_comp _ _ Hquot), (trunc_quot za zb Hzb).
  rewrite (Z.quot_rem' za zb) in Ha at 1.
  rewrite inject_Z_plus, inject_Z_mult in Ha.
  assert (Hgoal : ((a - b * inject_Z (Z.quot za zb)) * inject_Z D ==
                   a * inject_Z D - b * inject_Z D * inject_Z (Z.quot za zb))%Q) by ring.
  rewrite Hgoal, Ha, Hb. ring.
Qed.

(** The recursion of [gcd] ends within the calls allowed, whatever the
    two numbers, and returns, up to its sign, the greatest common divisor
    of their counts. *)
Lemma gcd_calls_units (D : Z) :
  0 < D ->
  forall (fuel : nat) (a b : Q) (za zb : Z),
    (a * inject_Z D == inject_Z za)%Q -> (b * inject_Z D == inject_Z zb)%Q ->
    (Z.to_nat (Z.abs zb) < fuel)%nat ->
    exists q zq,
      gcd_calls fuel a b = Some q /\
      (q * inject_Z D == inject_Z zq)%Q /\ Z.abs zq = Z.gcd za zb.
Proof.
  intros HD. induction fuel as [| fuel IH]; intros a b za zb Ha Hb Hfuel; [lia |].
  cbn [gcd_calls]. destruct (Qeq_bool b 0) eqn:E.
  - apply Qeq_bool_iff in E. exists a, za. split; [reflexivity |]. split; [exact Ha |].
    assert (zb = 0).
    { rewrite E, Qmult_0_l in Hb. change 0%Q with (inject_Z 0) in Hb.
      symmetry. apply inject_Z_injective. exact Hb. }
    subst zb. symmetry. apply Z.gcd_0_r.
  - assert (Hzb : zb <> 0).
    { intros ->. apply Qeq_bool_neq in E. apply E.
      change (inject_Z 0) with 0%Q in Hb.
      destruct (Qmult_integral _ _ Hb) as [H0 | H0]; [exact H0 |].
      change 0%Q with (inject_Z 0) in H0.
      pose proof (proj1 (inject_Z_injective D 0) H0). lia. }
    pose proof (Z.rem_bound_abs za zb Hzb) as Hbound.
    destruct (IH b (JSNumber.rem a b) zb (Z.rem za zb) Hb
                (rem_units a b D za zb HD Ha Hb Hzb) ltac:(lia))
      as (q & zq & Hq & Hunits & Hgcd).
    exists q, zq. split; [exact Hq |]. split; [exact Hunits |].
    rewrite Hgcd, (Z.gcd_comm zb (Z.rem za zb)), Z.gcd_rem by exact Hzb.
    apply Z.gcd_comm.
Qed.

Lemma units_of (a : Q) (d : positive) :
  (a * inject_Z (QDen a * Z.pos d) == inject_Z (Qnum a * Z.pos d))%Q.
Proof.
  destruct a as [n m]. unfold Qeq, Qmult, inject_Z. cbn [Qnum Qden].
  rewrite ?Pos2Z.inj_mul. ring.
Qed.

Lemma gcd_defined (a b : Q) :
  exists q, gcd a b = Some q /\ ((q == 0)%Q <-> (a == 0)%Q /\ (b == 0)%Q).
Proof.
  set (D := QDen a * QDen b).
  assert (HD : 0 < D) by (unfold D; lia).
  assert (HDq : ~ (inject_Z D == 0)%Q).
  { intros E. change 0%Q with (inject_Z 0) in E.
    pose proof (proj1 (inject_Z_injective D 0) E). lia. }
  assert (Hzero : forall (x : Q) (z : Z),
             (x * inject_Z D == inject_Z z)%Q -> ((x == 0)%Q <-> z = 0)).
  { intros x z Hx. split.
    - intros E. rewrite E, Qmult_0_l in Hx. change 0%Q with (inject_Z 0) in Hx.
      symmetry. apply inject_Z_injective. exact Hx.
    - intros ->. change (inject_Z 0) with 0%Q in Hx.
      destruct (Qmult_integral _ _ Hx) as [H0 | H0]; [exact H0 | contradiction]. }
  assert (Ha : (a * inject_Z D == inject_Z (Qnum a * QDen b))%Q) by apply units_of.
  assert (Hb : (b * inject_Z D == inject_Z (Qnum b * QDen a))%Q).
  { unfold D. rewrite (Z.mul_comm (QDen a) (QDen b)). apply units_of. }
  destruct (gcd_calls_units D HD (S (Z.to_nat (Z.abs (Qnum b * QDen a)))) a b
              _ _ Ha Hb ltac:(lia)) as (q & zq & Hq & Hunits & Hgcd).
  exists q. split; [exact Hq |].
  rewrite (Hzero q zq Hunits), (Hzero a _ Ha), (Hzero b _ Hb).
  rewrite <- Z.gcd_eq_0, <- Hgcd. lia.
Qed.

(** X13.  The aspect-ratio label is computed for every configuration:
    whatever the width and the height, fractions and negative numbers
    included, the recursion of [gcd] ends within the calls allowed.  The
    divisor it returns is zero exactly when both the width and the height
    are zero, and the label then reads NaN:NaN. *)
Theorem formattedSize_always_defined (config : VideoConfig) :
  exists divisor,
    gcd (width config) (height config) = Some divisor /\
    formattedSize config =
      Some (ratio_part (width config) divisor ++ ":"
            ++ ratio_part (height config) divisor)%string /\
    ((divisor == 0)%Q <-> (width config == 0)%Q /\ (height config == 0)%Q) /\
    ((width config == 0)%Q -> (height config == 0)%Q ->
     formattedSize config = Some "NaN:NaN"%string).
Proof.
  destruct (gcd_defined (width config) (height config)) as (q & Hq & Hzero).
  exists q. unfold formattedSize. rewrite Hq.
  split; [reflexivity |]. split; [reflexivity |]. split; [exact Hzero |].
  intros Hw Hh. unfold ratio_part.
  rewrite (proj2 (Qeq_bool_iff q 0) (proj2 Hzero (conj Hw Hh))).
  rewrite (proj2 (Qeq_bool_iff _ 0) Hw), (proj2 (Qeq_bool_iff _ 0) Hh).
  reflexivity.
Qed.

End AspectRatio.


Lemma formattedSize_lowest_terms_witness :
  (width defaultConfig == inject_Z 1080)%Q /\
  (height defaultConfig == inject_Z 1920)%Q /\
  formattedSize (rt := Sim.runtime) defaultConfig = Some "9:16"%string.
Proof.
  assert (Hw : (width defaultConfig == inject_Z 1080)%Q) by reflexivity.
  assert (Hh : (height defaultConfig == inject_Z 1920)%Q) by reflexivity.
  assert (Hwr : 0 <= 1080 < 2 ^ 53) by (split; [lia | reflexivity]).
  assert (Hhr : 0 <= 1920 < 2 ^ 53) by (split; [lia | reflexivity]).
  split; [exact Hw |]. split; [exact Hh |].
  exact (proj1 (formattedSize_lowest_terms (rt := Sim.runtime) defaultConfig 1080 1920
                  Hw Hh Hwr Hhr eq_refl)).
Defined.

Lemma formattedSize_always_defined_witness :
  (width (Sim.flattened defaultConfig) == 0)%Q /\
  (height (Sim.flattened defaultConfig) == 0)%Q /\
  formattedSize (rt := Sim.runtime) (Sim.flattened defaultConfig) = Some "NaN:NaN"%string.
Proof.
  assert (Hw : (width (Sim.flattened defaultConfig) == 0)%Q) by reflexivity.
  assert (Hh : (height (Sim.flattened defaultConfig) == 0)%Q) by reflexivity.
  split; [exact Hw |]. split; [exact Hh |].
  destruct (formattedSize_always_defined (rt := Sim.runtime) (Sim.flattened defaultConfig))
    as (q & _ & _ & _ & Hnan).
  exact (Hnan Hw Hh).
Defined.

(* ================================================================== *)
(** * What a render leaves alone *)
(* ================================================================== *)

Section RenderFrame.

Context {rt : Runtime}.

(** X14.  [generateVideo] never rejects: every exception of the [try]
    block is turned into the Failed status.  Whatever the outcome, the
    form (configuration and selected audio file) and the state of the
    hook are as before; an encoder that was there is still there, and the
    in-flight flag is then cleared, so that the submit button is enabled
    again. *)
Theorem render_keeps_form (w : World) :
  outcome (generateVideo w) = Returned tt /\
  config (ui (after (generateVideo w))) = config (ui w) /\
  audioFile (ui (after (generateVideo w))) = audioFile (ui w) /\
  ready (after (generateVideo w)) = ready w /\
  loading (after (generateVideo w)) = loading w /\
  (ffmpeg w <> None ->
   ffmpeg (after (generateVideo w)) <> None /\
   isGenerating (ui (after (generateVideo w))) = false /\
   submitDisabled (after (generateVideo w)) = negb (ready w) || loading w).
Proof.
  destruct (ffmpeg w) as [e |] eqn:Hff.
  - rewrite (generateVideo_unfold w e Hff).
    pose proof (attempt_run (config (ui w)) (audioFile (ui w)) w e Hff) as Hrun.
    destruct Hrun as [st p e' evs x Hq | e' dels fevs data Hdels Hfevs Hframes Hprog];
      unfold finish; cbn [outcome after]; cbv zeta; simpl_page;
      repeat (split; [reflexivity |]); intros _;
      (split; [discriminate | split; [reflexivity |]]);
      unfold submitDisabled; simpl_page; apply orb_false_r.
  - rewrite (generateVideo_not_ready w Hff). simpl_page.
    repeat (split; [reflexivity |]). intros H. contradiction H. reflexivity.
Qed.

(** X15.  At every point strictly inside a render (after its first
    effect and before its last) the Reset button is disabled and a press
    of it changes nothing and performs no effect: the form, the published
    URL and the attempt counter cannot be reset under a render in
    flight. *)
Theorem reset_rejected_during_render
    (w : World) (e : Encoder) (pre post : list Event) (w' : World) :
  ffmpeg w = Some e ->
  emitted (generateVideo w) = (pre ++ post)%list ->
  pre <> [] -> post <> [] ->
  ui w' = replay pre (ui w) ->
  resetDisabled w' = true /\ pressReset w' = idle tt w'.
Proof.
  intros Hff Hsplit Hpre Hpost Hui.
  assert (Hflag : isGenerating (ui w') = true).
  { rewrite Hui. apply (in_flight_flag_set w e pre post Hff Hsplit Hpre Hpost). }
  split; [exact Hflag | apply reset_rejected_while_generating, Hflag].
Qed.

End RenderFrame.

Lemma reset_rejected_during_render_witness :
  ffmpeg (Sim.loaded (Sim.clip 1 2) None) = Some [] /\
  emitted (generateVideo (Sim.loaded (Sim.clip 1 2) None))
    = (Sim.first_effects ++ Sim.remaining_effects)%list /\
  Sim.first_effects <> [] /\
  Sim.remaining_effects <> [] /\
  resetDisabled Sim.mid_render = true /\
  pressReset Sim.mid_render = idle tt Sim.mid_render.
Proof.
  assert (H2 : ffmpeg (Sim.loaded (Sim.clip 1 2) None) = Some []) by reflexivity.
  assert (H3 : emitted (generateVideo (Sim.loaded (Sim.clip 1 2) None))
               = (Sim.first_effects ++ Sim.remaining_effects)%list)
    by (vm_compute; reflexivity).
  assert (H4 : Sim.first_effects <> []) by (vm_compute; discriminate).
  assert (H5 : Sim.remaining_effects <> []) by (vm_compute; discriminate).
  assert (H6 : ui Sim.mid_render
               = replay Sim.first_effects (ui (Sim.loaded (Sim.clip 1 2) None)))
    by reflexivity.
  split; [exact H2 |]. split; [exact H3 |]. split; [exact H4 |]. split; [exact H5 |].
  exact (reset_rejected_during_render (rt := Sim.runtime)
           (Sim.loaded (Sim.clip 1 2) None) [] Sim.first_effects Sim.remaining_effects
           Sim.mid_render H2 H3 H4 H5 H6).
Defined.

(* ================================================================== *)
(** * Object URLs and status labels over a session *)
(* ================================================================== *)

Section Handles.

Context {rt : Runtime} {boot : Bootstrap}.

Lemma filter_all {A} (f : A -> bool) (l : list A) :
  (forall a, In a l -> f a = true) -> filter f l = l.
Proof.
  induction l as [| a l IH]; intros H; [reflexivity |].
  cbn [filter]. rewrite (H a (or_introl eq_refl)), IH; [reflexivity |].
  intros b Hb. apply H. right. exact Hb.
Qed.

Lemma slots_same (k : nat) (w w' : World) :
  previewUrl (ui w') = previewUrl (ui w) -> registry w' = registry w ->
  Slots k w -> Slots k w'.
Proof. unfold Slots. intros -> ->. intros H. exact H. Qed.

(** A render keeps the object URLs of [load] and, when it succeeds,
    replaces the published one by the new one. *)
Lemma slots_generateVideo (k : nat) (w : World) :
  Slots k w -> Slots k (after (generateVideo w)).
Proof.
  intros Hs. destruct (ffmpeg w) as [e |] eqn:Hff.
  2:{ rewrite (generateVideo_not_ready w Hff).
      apply (slots_same k w); [reflexivity | reflexivity | exact Hs]. }
  rewrite (generateVideo_unfold w e Hff).
  pose proof (attempt_run (config (ui w)) (audioFile (ui w)) w e Hff) as Hrun.
  destruct Hrun as [st p e' evs x Hq | e' dels fevs data Hdels Hfevs Hframes Hprog].
  { apply (slots_same k w); [reflexivity | reflexivity | exact Hs]. }
  destruct Hs as (Hlive & Hk & Hpub).
  unfold finish, Slots, replaced.
  cbn [outcome after with_ui ui registry previewUrl State_isGenerating live next_id].
  split; [| split; [lia | intros i Hi; injection Hi as <-; lia]].
  assert (Hbase : forall u, In u (live (grown k {| next_id := 0; live := [] |})) ->
                            exists i, (i < k)%nat /\ u = blob_url i).
  { intros u Hu. apply live_grown in Hu as [[] | (i & Hi & ->)].
    cbn [next_id] in Hi. exists i. split; [lia | reflexivity]. }
  rewrite Hlive. destruct (previewUrl (ui w)) as [[old] |]; [| reflexivity].
  destruct (Hpub old eq_refl) as [Hlow Hhigh].
  cbn [app filter ObjectURL_eqb negb].
  replace (Nat.eqb (next_id (registry w)) old) with false
    by (symmetry; apply Nat.eqb_neq; lia).
  rewrite Nat.eqb_refl. cbn [negb]. f_equal.
  apply filter_all. intros u Hu. destruct (Hbase u Hu) as (i & Hi & ->).
  cbn [ObjectURL_eqb]. apply negb_true_iff, Nat.eqb_neq. lia.
Qed.

(** What a session in which Reset is not pressed keeps true of the
    object URLs and of the hook. *)
Lemma slots_perform_step (st : Step) (k : nat) (w : World) :
  st <> Alone PressReset ->
  (k <= 3)%nat -> Slots k w ->
  (ready w = false -> loading w = false ->
   k = 0%nat /\ registry w = {| next_id := 0; live := [] |} /\ previewUrl (ui w) = None) ->
  (ready w = true -> k = 3%nat) ->
  exists k',
    (k' <= 3)%nat /\ Slots k' (after (perform_step st w)) /\
    (ready (after (perform_step st w)) = false ->
     loading (after (perform_step st w)) = false ->
     k' = 0%nat /\ registry (after (perform_step st w)) = {| next_id := 0; live := [] |}
     /\ previewUrl (ui (after (perform_step st w))) = None) /\
    (ready (after (perform_step st w)) = true -> k' = 3%nat).
Proof.
  intros Hst Hk Hs Hfresh Hready.
  assert (Hkeep : forall w',
             previewUrl (ui w') = previewUrl (ui w) -> registry w' = registry w ->
             ready w' = ready w -> loading w' = loading w ->
             exists k',
               (k' <= 3)%nat /\ Slots k' w' /\
               (ready w' = false -> loading w' = false ->
                k' = 0%nat /\ registry w' = {| next_id := 0; live := [] |}
                /\ previewUrl (ui w') = None) /\
               (ready w' = true -> k' = 3%nat)).
  { intros w' Hu Hg Hr Hl. exists k. split; [exact Hk |].
    split; [apply (slots_same k w); assumption |].
    rewrite Hu, Hg, Hr, Hl. split; assumption. }
  assert (Hrender : forall w',
             same_job (ui w') (ui (after (generateVideo w))) ->
             registry w' = registry (after (generateVideo w)) ->
             ready w' = ready (after (generateVideo w)) ->
             loading w' = loading (after (generateVideo w)) ->
             submitDisabled w = false ->
             exists k',
               (k' <= 3)%nat /\ Slots k' w' /\
               (ready w' = false -> loading w' = false ->
                k' = 0%nat /\ registry w' = {| next_id := 0; live := [] |}
                /\ previewUrl (ui w') = None) /\
               (ready w' = true -> k' = 3%nat)).
  { intros w' Hjob Hg Hr Hl Hen.
    unfold submitDisabled in Hen.
    apply orb_false_iff in Hen as [Hen _]. apply orb_false_iff in Hen as [Hrd _].
    apply negb_false_iff in Hrd.
    destruct (render_keeps_form w) as (_ & _ & _ & Hr' & Hl' & _).
    exists k. split; [exact Hk |].
    split; [apply (slots_same k (after (generateVideo w)));
            [apply Hjob | exact Hg | apply slots_generateVideo, Hs] |].
    rewrite Hr, Hr', Hrd. split; [discriminate | intros _; apply Hready, Hrd]. }
  destruct st as [[| | | key value | file] | during]; cbn [perform_step perform].
  - destruct (load_page w) as (Hu & k' & Hk' & Hg & _ & Hfull & Hguard).
    destruct (ready w || loading w) eqn:Eguard.
    { apply Hkeep; unfold load; rewrite Eguard; reflexivity. }
    destruct window_defined eqn:Hwin.
    2:{ apply Hkeep; unfold load; rewrite Eguard, Hwin; reflexivity. }
    apply orb_false_iff in Eguard as [Hr Hl].
    destruct (Hfresh Hr Hl) as (-> & Hg0 & Hpub).
    destruct (load_run w Hr Hl Hwin) as [_ Hcases].
    exists k'. split; [exact Hk' |]. split; [| split].
    + unfold Slots. rewrite Hu, Hpub, Hg, Hg0, next_id_grown. cbn [app next_id].
      split; [reflexivity |]. split; [lia | intros i Hi; discriminate Hi].
    + intros Hr' Hl'.
      destruct Hcases as [(_ & Hr2 & _) | (_ & _ & Hl2)]; congruence.
    + intros Hr'.
      destruct Hcases as [([a Ha] & _) | (_ & Hr2 & _)]; [| congruence].
      apply (Hfull Hr Hl eq_refl a Ha).
  - destruct (pressSubmit_cases w) as [-> | [Hen ->]].
    + apply Hkeep; reflexivity.
    + apply Hrender; [apply same_job_refl | reflexivity | reflexivity | reflexivity | exact Hen].
  - contradiction Hst. reflexivity.
  - apply Hkeep; reflexivity.
  - apply Hkeep; reflexivity.
  - destruct (pressSubmit_amid_cases during w) as [-> | [Hen ->]].
    + apply Hkeep; reflexivity.
    + destruct (generateVideo_amid_run during w) as (Hjob & _ & Hr & Hl & Hg & _).
      apply Hrender; assumption.
Qed.

(** X16.  Only Reset lets go of a rendered object URL without revoking
    it.  In a session that starts at the fresh page and in which Reset is
    never pressed, edits made while a render runs included, the live
    object URLs are, whenever no render is in flight, the published one,
    if there is one, and the URLs made by [load], which are the first
    ones of the page and are never revoked: three of them once the hook
    is ready, none before [load] has started.  Every render that succeeds
    revokes the URL it replaces. *)
Theorem single_handle_without_reset (steps : list Step) :
  ~ In (Alone PressReset) steps ->
  let w := after (live_session steps freshPage) in
  exists k,
    (k <= 3)%nat /\
    live (registry w) =
      (match previewUrl (ui w) with Some u => [u] | None => [] end
       ++ live (grown k (registry freshPage)))%list /\
    (ready w = true -> k = 3%nat) /\
    (ready w = false -> loading w = false -> k = 0%nat).
Proof.
  intros Hno w. subst w.
  assert (Hinv : forall steps w k,
             ~ In (Alone PressReset) steps ->
             (k <= 3)%nat -> Slots k w ->
             (ready w = false -> loading w = false ->
              k = 0%nat /\ registry w = {| next_id := 0; live := [] |}
              /\ previewUrl (ui w) = None) ->
             (ready w = true -> k = 3%nat) ->
             exists k',
               (k' <= 3)%nat /\ Slots k' (after (live_session steps w)) /\
               (ready (after (live_session steps w)) = true -> k' = 3%nat) /\
               (ready (after (live_session steps w)) = false ->
                loading (after (live_session steps w)) = false -> k' = 0%nat)).
  { clear steps Hno. induction steps as [| st rest IH]; intros w k Hno Hk Hs Hfresh Hready.
    - cbn [live_session after]. exists k. split; [exact Hk |]. split; [exact Hs |].
      split; [exact Hready | intros Hr Hl; apply (Hfresh Hr Hl)].
    - cbn [live_session after].
      destruct (slots_perform_step st k w) as (k' & Hk' & Hs' & Hfresh' & Hready');
        try assumption.
      { intros ->. apply Hno. left. reflexivity. }
      apply (IH _ k'); try assumption.
      intros Hin. apply Hno. right. exact Hin. }
  destruct (Hinv steps freshPage 0%nat Hno) as (k & Hk & (Hlive & _) & Hready & Hfresh).
  - lia.
  - split; [reflexivity |]. split; [cbn; lia | intros i Hi; discriminate Hi].
  - intros _ _. repeat split.
  - intros Hr. discriminate Hr.
  - exists k. split; [exact Hk |]. split; [exact Hlive |]. split; assumption.
Qed.

Lemma perform_statuses (a : Action) (w : World) :
  Forall (fun s => exists p, s = label p) (statuses (emitted (perform a w))).
Proof.
  destruct a as [| | | key value | file]; cbn [perform].
  - unfold statuses. rewrite load_silent by reflexivity. constructor.
  - destruct (pressSubmit_cases w) as [-> | [_ ->]]; [constructor |].
    destruct (ffmpeg w) as [e |] eqn:Hff.
    + rewrite (generateVideo_emitted w e Hff), statuses_app. apply Forall_app. split.
      * eapply Forall_impl; [| apply statuses_attempt_event, emits_attempt].
        intros s Hs. cbn [map In] in Hs.
        destruct Hs as [<- | [<- | [<- | [<- | [<- | [<- | []]]]]]]; eexists; reflexivity.
      * destruct (outcome (attempt (config (ui w)) (audioFile (ui w)) w));
          [constructor |].
        repeat constructor. exists Failed. reflexivity.
    + rewrite (generateVideo_not_ready w Hff). constructor.
  - destruct (pressReset_cases w) as [-> | ->]; [constructor |].
    rewrite reset_run. repeat constructor. exists Idle. reflexivity.
  - constructor.
  - constructor.
Qed.

(** X17.  The status line only ever shows one of the eight labels of the
    component: over any sequence of actions, from any page, every status
    written is Idle, one of the six phases of a render, or Failed. *)
Theorem session_statuses_are_labels (actions : list Action) :
  forall w,
    Forall (fun s => exists p, s = label p) (statuses (emitted (session actions w))).
Proof.
  induction actions as [| a rest IH]; intros w; cbn [session emitted].
  - constructor.
  - rewrite statuses_app. apply Forall_app.
    split; [apply perform_statuses | apply IH].
Qed.

End Handles.

Lemma single_handle_without_reset_witness :
  let steps := [Alone RunLoad;
                Alone (EditConfig K_duration (1 : Q)); Alone (EditConfig K_fps (15 : Q));
                Alone PressSubmit;
                Rendering [[]; [SetField K_title "Edited"%string]]] in
  let w := after (live_session (boot := SimBoot.online) steps freshPage) in
  ~ In (Alone PressReset) steps /\
  ready w = true /\
  previewUrl (ui w) = Some (blob_url 4) /\
  live (registry w) = [blob_url 4; blob_url 2; blob_url 1; blob_url 0] /\
  exists k,
    (k <= 3)%nat /\
    live (registry w) =
      (match previewUrl (ui w) with Some u => [u] | None => [] end
       ++ live (grown k (registry (freshPage (rt := Sim.runtime)))))%list /\
    (ready w = true -> k = 3%nat) /\
    (ready w = false -> loading w = false -> k = 0%nat).
Proof.
  intros steps w.
  assert (Hno : ~ In (Alone PressReset) steps).
  { cbn. intros H.
    repeat (destruct H as [H | H]; [discriminate H |]). exact H. }
  split; [exact Hno |].
  split; [vm_compute; reflexivity |].
  split; [vm_compute; reflexivity |].
  split; [vm_compute; reflexivity |].
  exact (single_handle_without_reset (boot := SimBoot.online) steps Hno).
Defined.
